(** * Exported-target dependency reduction and setup.py generation

    A shallow embedding of [pants/backend/python/tasks/setup_py.py]:
    the target ancestor iterator, the abstract
    [ExportedTargetDependencyCalculator] (walk, closure, reduced
    dependencies), and the parts of the [SetupPy] task that classify
    packages, compute [install_requires] and order the run phase. *)

From Stdlib Require Import Ascii String.
From stdpp Require Import gmap strings list sorting.

(** ** Errors of the calculator

    The three [TaskError] subclasses declared inside
    [ExportedTargetDependencyCalculator].  The payload records what the
    message of the Python exception is formatted from. *)

Inductive TaskError (T : Type) : Type :=
  | UnExportedError (exported_target : T)
  | NoOwnerError (owned : T)
  | AmbiguousOwnerError (owned owner : T) (ambiguous_owners : list T).

Arguments UnExportedError {T} _.
Arguments NoOwnerError {T} _.
Arguments AmbiguousOwnerError {T} _ _ _.

(** A computation that may raise: [inl e] is a raised error. *)
Definition raises (T A : Type) : Type := TaskError T + A.

(** ** Containers

    A [for] loop whose body may be cut short: the state is threaded
    through the elements in order. *)

Fixpoint for_each {A B : Type} (body : B → A → option B) (l : list A) (b : B)
  : option B :=
  match l with
  | [] => Some b
  | x :: l' => b' ← body b x; for_each body l' b'
  end.

(** [OrderedSet.add], and [set.add] where the insertion order is kept
    to tell which element a later [pop] may take. *)
Definition oset_add `{EqDecision A} (x : A) (s : list A) : list A :=
  if decide (x ∈ s) then s else s ++ [x].

(** [OrderedDict]: [d[k] = v] keeps the position of a key already
    present, and appends a new one. *)
Fixpoint odict_set `{EqDecision K} {V : Type} (k : K) (v : V) (d : list (K * V))
  : list (K * V) :=
  match d with
  | [] => [(k, v)]
  | (k', v') :: d' =>
    if decide (k' = k) then (k, v) :: d' else (k', v') :: odict_set k v d'
  end.

Fixpoint odict_get `{EqDecision K} {V : Type} (k : K) (d : list (K * V))
  : option V :=
  match d with
  | [] => None
  | (k', v') :: d' => if decide (k' = k) then Some v' else odict_get k d'
  end.

Definition odict_keys {K V : Type} (d : list (K * V)) : list K := d.*1.

(** ** The calculator, over its capability set *)

Section Calculator.

(** Targets compare and hash by address, so a target is modelled by
    its identity; its attributes are read through the capabilities
    below. *)
Context {T : Type} `{Countable T}.

(** The abstract methods of the class. *)
Variable requires_export : T → bool.
Variable is_exported : T → bool.
Variable dependencies : T → list T.

(** Attributes of a target read by the calculator. *)
Variable is_original : T → bool.
Variable derived_from : T → T.

(** [target.address.spec_path], as the list of its directory names
    from the build root down:  [a/b/c] is ["a"; "b"; "c"] and the build
    root is the empty list. *)
Variable spec_path : T → list string.

(** The targets registered under exactly one spec path, in the order
    the build graph yields them ([SiblingAddresses]); empty where the
    lookup raises [AddressLookupError]. *)
Variable iter_targets_in_spec_path : list string → list T.

(** Which element [set.pop()] removes from a Python [set]: an
    arbitrary one, fixed by the hash table's layout.  The set is given
    by its elements in insertion order, and the index is taken modulo
    its size. *)
Variable pop_index : list T → nat.

(** *** TargetAncestorIterator *)

(** [os.path.dirname] on a spec path. *)
Definition dirname (spec_path : list string) : list string :=
  removelast spec_path.

(** [iter_siblings_and_ancestors]: the recursion is on the parent
    path, which is shorter unless the path is its own parent. *)
Fixpoint iter_siblings_and_ancestors (depth : nat) (spec_path : list string)
  : list T :=
  iter_targets_in_spec_path spec_path ++
  let parent_spec_path := dirname spec_path in
  if decide (parent_spec_path ≠ spec_path) then
    match depth with
    | O => []
    | S depth' => iter_siblings_and_ancestors depth' parent_spec_path
    end
  else [].

Definition iter_target_siblings_and_ancestors (target : T) : list T :=
  iter_siblings_and_ancestors (length (spec_path target)) (spec_path target).

(** *** _walk

    The visitor reads and writes the variables of the enclosing
    function; that state is threaded as [S].  [visited] is the set of
    the walk.  The recursion depth is bounded by [fuel]; [None] is a
    walk cut short by the bound. *)

Section Walk.
Context {S : Type}.
Variable visitor : T → S → bool * S.

Fixpoint walk (fuel : nat) (current : T) (st : gset T * S)
  : option (gset T * S) :=
  match fuel with
  | O => None
  | Datatypes.S fuel' =>
    let '(visited, s) := st in
    if decide (current ∈ visited) then Some st
    else
      let visited := {[current]} ∪ visited in
      let '(keep_going, s) := visitor current s in
      if keep_going then
        for_each (λ st dependency, walk fuel' dependency st)
                 (dependencies current) (visited, s)
      else Some (visited, s)
  end.

Definition _walk (fuel : nat) (target : T) (s : S) : option S :=
  snd <$> walk fuel target (∅, s).
End Walk.

(** The visitor with a log of its calls, to state how often and on
    which targets a walk calls it. *)
Definition logging {S : Type} (visitor : T → S → bool * S)
    (current : T) (st : list T * S) : bool * (list T * S) :=
  let '(keep_going, s) := visitor current st.2 in
  (keep_going, (st.1 ++ [current], s)).

(** A finite set of targets closed under [dependencies]: the targets
    of a finite build graph. *)
Definition dependency_closed (U : gset T) : Prop :=
  set_Forall (λ t, Forall (λ d, d ∈ U) (dependencies t)) U.

(** An edge that a walk follows: the visitor asked to keep going at
    [a], and [b] is a dependency of [a]. *)
Definition descends (keep : T → bool) (a b : T) : Prop :=
  keep a = true ∧ b ∈ dependencies a.

(** [b] is a dependency of [a]. *)
Definition depends (a b : T) : Prop := b ∈ dependencies a.

(** *** _closure *)

Definition collect (current : T) (closure : gset T) : bool * gset T :=
  (true, {[current]} ∪ closure).

Definition _closure (fuel : nat) (target : T) : option (gset T) :=
  _walk collect fuel target ∅.

(** *** reduced_dependencies *)

(** [potential_owners.pop()] on a [set]. *)
Definition set_pop (s : list T) : option (T * list T) :=
  let i := pop_index s `mod` length s in
  x ← s !! i; Some (x, delete i s).

(** Visitor of the first pass. *)
Definition collect_potentially_owned_python_targets (exported_target : T)
    (current : T) (owner_by_owned_python_target : list (T * option T))
  : bool * list (T * option T) :=
  let owner_by_owned_python_target :=
    if is_original current
    then odict_set current None owner_by_owned_python_target
    else owner_by_owned_python_target in
  (bool_decide (current = exported_target) || negb (is_exported current),
   owner_by_owned_python_target).

(** The inner loop of the second pass: the exported targets of the
    ancestor lineage whose closure holds [owned].  The closure is only
    computed for exported targets ([and] short-circuits). *)
Definition potential_owners (fuel : nat) (owned : T) : option (list T) :=
  for_each
    (λ potential_owners potential_owner,
       if is_exported potential_owner then
         closure ← _closure fuel potential_owner;
         Some (if decide (owned ∈ closure)
               then oset_add potential_owner potential_owners
               else potential_owners)
       else Some potential_owners)
    (iter_target_siblings_and_ancestors owned) [].

(** The body of the second pass for one [owned] target that requires
    export and is not exported.  The error lists the ambiguous owners in
    the order the set yields them, given here as the insertion order;
    only whether there is one decides the outcome. *)
Definition resolve_owner (fuel : nat) (owned : T) : option (raises T T) :=
  potential_owners ← potential_owners fuel owned;
  match set_pop potential_owners with
  | None => Some (inl (NoOwnerError owned))
  | Some (owner, potential_owners) =>
    let ambiguous_owners :=
      filter (λ o, spec_path o = spec_path owner) potential_owners in
    match potential_owners, ambiguous_owners with
    | _ :: _, _ :: _ =>
      Some (inl (AmbiguousOwnerError owned owner ambiguous_owners))
    | _, _ => Some (inr owner)
    end
  end.

(** The second pass, over the keys of the dict in insertion order. *)
Fixpoint resolve_owners (fuel : nat) (keys : list T)
    (owner_by_owned_python_target : list (T * option T))
  : option (raises T (list (T * option T))) :=
  match keys with
  | [] => Some (inr owner_by_owned_python_target)
  | owned :: keys' =>
    if requires_export owned && negb (is_exported owned) then
      r ← resolve_owner fuel owned;
      match r with
      | inl e => Some (inl e)
      | inr owner =>
        resolve_owners fuel keys'
          (odict_set owned (Some owner) owner_by_owned_python_target)
      end
    else resolve_owners fuel keys' owner_by_owned_python_target
  end.

(** Visitor of the third pass.  [dict.get] gives [None] both for a
    missing key and for a key whose owner was never set. *)
Definition collect_reduced_dependencies (exported_target : T)
    (owner_by_owned_python_target : list (T * option T))
    (current : T) (reduced_dependencies : list T) : bool * list T :=
  if decide (current = exported_target) then (true, reduced_dependencies)
  else
    let owner := mjoin (odict_get current owner_by_owned_python_target) in
    let reduced_dependencies :=
      match owner with
      | None => oset_add current reduced_dependencies
      | Some o =>
        if decide (o = exported_target)
        then oset_add current reduced_dependencies
        else oset_add o reduced_dependencies
      end in
    (bool_decide (owner = Some exported_target) || negb (requires_export current),
     reduced_dependencies).

Definition reduced_dependencies (fuel : nat) (exported_target : T)
  : option (raises T (list T)) :=
  if negb (is_exported exported_target) then
    Some (inl (UnExportedError exported_target))
  else
    let original_exported_target := derived_from exported_target in
    owner_by_owned_python_target ←
      _walk (collect_potentially_owned_python_targets exported_target)
            fuel original_exported_target [];
    r ← resolve_owners fuel (odict_keys owner_by_owned_python_target)
                       owner_by_owned_python_target;
    match r with
    | inl e => Some (inl e)
    | inr owner_by_owned_python_target =>
      reduced_dependencies ←
        _walk (collect_reduced_dependencies exported_target
                                            owner_by_owned_python_target)
              fuel exported_target [];
      Some (inr (filter (λ d, is_original d) reduced_dependencies))
    end.

(** *** Notions used to state the properties of the calculator *)

(** The first two passes: the dict that the third pass reads. *)
Definition resolved_owners (fuel : nat) (exported_target : T)
  : option (raises T (list (T * option T))) :=
  owner_by_owned_python_target ←
    _walk (collect_potentially_owned_python_targets exported_target)
          fuel (derived_from exported_target) [];
  resolve_owners fuel (odict_keys owner_by_owned_python_target)
                 owner_by_owned_python_target.

(** What the third pass collects when it visits [current]: the target
    itself, or its owner when that is another exported target. *)
Definition provider (owner_by_owned_python_target : list (T * option T))
    (exported_target current : T) : T :=
  match mjoin (odict_get current owner_by_owned_python_target) with
  | Some owner => if decide (owner = exported_target) then current else owner
  | None => current
  end.

(** Whether the third pass goes on below [current]. *)
Definition continues (owner_by_owned_python_target : list (T * option T))
    (exported_target current : T) : bool :=
  bool_decide (current = exported_target) ||
  bool_decide (mjoin (odict_get current owner_by_owned_python_target)
               = Some exported_target) ||
  negb (requires_export current).

(** The targets collected by the first pass, in collection order. *)
Definition provisional (fuel : nat) (exported_target : T) : option (list T) :=
  odict_keys <$>
    _walk (collect_potentially_owned_python_targets exported_target)
          fuel (derived_from exported_target) [].

(** The test of the second pass on one target of the lineage. *)
Definition is_potential_owner (fuel : nat) (owned potential_owner : T) : bool :=
  is_exported potential_owner &&
  from_option (λ closure, bool_decide (owned ∈ closure)) false
              (_closure fuel potential_owner).

(** The error was raised while resolving the owner of [owned]. *)
Definition raised_for (owned : T) (e : TaskError T) : Prop :=
  match e with
  | UnExportedError _ => False
  | NoOwnerError x => x = owned
  | AmbiguousOwnerError x _ _ => x = owned
  end.

(** The targets of a finite build graph: closed under [dependencies],
    [derived_from] and the ancestor lineage. *)
Definition build_graph_closed (U : gset T) : Prop :=
  set_Forall (λ t, Forall (λ d, d ∈ U) (dependencies t) ∧
                   derived_from t ∈ U ∧
                   Forall (λ a, a ∈ U) (iter_target_siblings_and_ancestors t)) U.

End Calculator.

(** ** Strings and paths *)

(** [s.split(sep)] for a one-character separator: the pieces between
    the separators, of which there is always at least one. *)
Fixpoint split (sep : ascii) (s : string) : list string :=
  match s with
  | EmptyString => [EmptyString]
  | String c s' =>
    if decide (c = sep) then EmptyString :: split sep s'
    else match split sep s' with
         | [] => [String c EmptyString]
         | piece :: pieces => String c piece :: pieces
         end
  end.

(** [s.replace(old, new)] for one-character strings. *)
Fixpoint replace (old new : ascii) (s : string) : string :=
  match s with
  | EmptyString => EmptyString
  | String c s' => String (if decide (c = old) then new else c) (replace old new s')
  end.

(** The slice [s[n:]]. *)
Fixpoint slice_from (n : nat) (s : string) : string :=
  match n, s with
  | O, _ => s
  | S n', EmptyString => EmptyString
  | S n', String _ s' => slice_from n' s'
  end.

Definition startswith (s pre : string) : bool := String.prefix pre s.

Definition endswith (s suffix : string) : bool :=
  String.prefix (String.rev suffix) (String.rev s).

(** [os.path.join] of two components on a POSIX system. *)
Definition os_path_join (a b : string) : string :=
  if startswith b "/" then b
  else if bool_decide (a = "") || endswith a "/" then a +:+ b
  else a +:+ "/" +:+ b.

(** [takewhile] of [itertools]. *)
Fixpoint takewhile {A : Type} (p : A → bool) (l : list A) : list A :=
  match l with
  | [] => []
  | x :: l' => if p x then x :: takewhile p l' else []
  end.

(** [max(l, key=len)]: the first of the longest elements. *)
Definition max_by_len {A : Type} (l : list (list A)) : option (list A) :=
  foldl (λ best x,
           match best with
           | None => Some x
           | Some b => if length b <? length x then Some x else Some b
           end) None l.

(** ** SetupPy *)

(** What the task tells apart about the class of a target. *)
Inductive TargetClass : Type :=
  | PythonTarget               (** a [PythonTarget] other than a binary *)
  | PythonBinary               (** [PythonBinary], a [PythonTarget] *)
  | Resources
  | PythonRequirementLibrary
  | OtherTarget.

(** Values of the [setup()] keywords. *)
Unset Elimination Schemes.
Inductive PyValue : Type :=
  | PyStr (s : string)
  | PyList (l : list PyValue)
  | PyDict (d : list (string * PyValue)).
Set Elimination Schemes.

(** [PythonArtifact], the value of [provides]. *)
Record PythonArtifact : Type := {
  name : string;
  version : string;
  key : string;
  setup_py_keywords : list (string * PyValue);
}.

(** The attributes of a target that the task reads. *)
Record Target (T : Type) : Type := {
  address_spec_path : list string;
  target_class : TargetClass;
  provides : option PythonArtifact;
  target_dependencies : list T;
  provided_binaries : list (string * T);
  target_is_original : bool;
  target_derived_from : T;
  payload_requirements : list string;
  entry_point : option string;
}.

Arguments address_spec_path {T} _.
Arguments target_class {T} _.
Arguments provides {T} _.
Arguments target_dependencies {T} _.
Arguments provided_binaries {T} _.
Arguments target_is_original {T} _.
Arguments target_derived_from {T} _.
Arguments payload_requirements {T} _.
Arguments entry_point {T} _.

(** Errors raised in the task, other than those of the calculator. *)
Inductive SetupPyError : Type :=
  | NamespaceDetectionFailed
  | InstallFailed
  | PackagerFailed
  | TargetDefinitionException
  | PythonKeyError
  | PythonAssertionError
  | PythonAttributeError
  | PythonTypeError.

(** *** nearest_subpackage *)

Definition shared_prefix (package candidate : string) : list string :=
  let zipped := zip (split "." package) (split "." candidate) in
  let matching := takewhile (λ pair, bool_decide (pair.1 = pair.2)) zipped in
  matching.*1.

(** [all_packages] is a set; it is given as a list of its elements in
    the order the set yields them. *)
Definition nearest_subpackage (package : string) (all_packages : list string)
  : string :=
  let shared_packages :=
    filter (λ _f, _f ≠ []) (shared_prefix package <$> all_packages) in
  match max_by_len shared_packages with
  | Some longest => String.concat "." longest
  | None => package
  end.

(** The package [p] contains the module [m]: the dotted path of [p]
    leads that of [m]. *)
Definition contains_module (p m : string) : Prop :=
  split "." p `prefix_of` split "." m.

(** Every parent of a package is a package: each proper, non-empty
    leading part of the dotted path of a package names a package. *)
Definition parents_are_packages (packages : gset string) : Prop :=
  set_Forall
    (λ c, Forall (λ n, String.concat "." (take (S n) (split "." c)) ∈ packages)
                 (seq 0 (length (split "." c) - 1)))
    packages.

(** No package shares a leading name with the module. *)
Definition shares_no_prefix (module : string) (packages : gset string) : Prop :=
  Forall (λ c, shared_prefix module c = []) (elements packages).

(** *** find_packages *)

Section FindPackages.

(** The chroot's source directory, [base], and what [safe_walk(base)]
    yields: each directory, as its path below [base], with its files. *)
Variable base : string.
Variable tree : list (list string * list string).

(** The namespace detection subprocess: the subset of the given
    [__init__.py] paths that declare a namespace package, or
    [None] for a non-zero exit. *)
Variable filter_namespace_packages : list string → option (list string).

(** [iter_files]: module, file name and real file name of each file. *)
Definition iter_files : list (string * string * string) :=
  '(dir, files) ← tree;
  let root :=
    match dir with [] => base | _ => os_path_join base (String.concat "/" dir) end in
  let relpath := match dir with [] => "." | _ => String.concat "/" dir end in
  let module := replace "/" "." relpath in
  filename ← files;
  [(module, filename, os_path_join root filename)].

(** The first pass: packages, and the [__init__.py] files to check. *)
Definition establish_packages
  : gset string * list (string * string) :=
  foldl (λ '(packages, inits_to_check) '(module, filename, real_filename),
           if decide (filename ≠ "__init__.py") then (packages, inits_to_check)
           else ({[module]} ∪ packages,
                 odict_set real_filename module inits_to_check))
        (∅, []) iter_files.

(** The statements of the second pass that place one file. *)
Definition attribute (packages : gset string) (module filename : string)
  : SetupPyError + (string * string) :=
  let submodule := nearest_subpackage module (elements packages) in
  if decide (submodule = module) then inr (submodule, filename)
  else if startswith module (submodule +:+ ".") then
    let relative_module := slice_from (String.length submodule + 1) module in
    let relative_filename :=
      os_path_join (replace "." "/" relative_module) filename in
    inr (submodule, relative_filename)
  else inl PythonAssertionError.

(** [resources[k].add(x)] on a [defaultdict(set)]. *)
Definition resources_add (k x : string) (resources : list (string * gset string))
  : list (string * gset string) :=
  odict_set k ({[x]} ∪ default ∅ (odict_get k resources)) resources.

(** The second pass.  A source file outside every package is warned
    about and then placed like a resource. *)
Fixpoint establish_resources (packages : gset string)
    (files : list (string * string * string))
    (resources : list (string * gset string))
  : SetupPyError + list (string * gset string) :=
  match files with
  | [] => inr resources
  | (module, filename, real_filename) :: files' =>
    if endswith filename ".py" && bool_decide (module ∈ packages) then
      establish_resources packages files' resources
    else
      match attribute packages module filename with
      | inl e => inl e
      | inr (submodule, recorded) =>
        establish_resources packages files'
                            (resources_add submodule recorded resources)
      end
  end.

Definition find_packages
  : SetupPyError +
    (gset string * gset string * list (string * gset string)) :=
  let '(packages, inits_to_check) := establish_packages in
  match filter_namespace_packages (odict_keys inits_to_check) with
  | None => inl NamespaceDetectionFailed
  | Some inits =>
    match mapM (λ init, odict_get init inits_to_check) inits with
    | None => inl PythonKeyError
    | Some modules =>
      let namespace_packages : gset string := list_to_set modules in
      match establish_resources packages iter_files [] with
      | inl e => inl e
      | inr resources => inr (packages, namespace_packages, resources)
      end
    end
  end.

End FindPackages.

(** *** The task over a build graph *)

Section SetupPy.

Context {T : Type} `{Countable T}.

(** The build graph: the attributes of each target, and the targets
    registered under a spec path. *)
Variable get_target : T → Target T.
Variable iter_targets_in_spec_path : list string → list T.
Variable pop_index : list T → nat.

Definition is_requirements (target : T) : bool :=
  match target_class (get_target target) with
  | PythonRequirementLibrary => true
  | _ => false
  end.

Definition is_python_target (target : T) : bool :=
  match target_class (get_target target) with
  | PythonTarget | PythonBinary => true
  | _ => false
  end.

Definition is_resources_target (target : T) : bool :=
  match target_class (get_target target) with
  | Resources => true
  | _ => false
  end.

Definition has_provides (target : T) : bool :=
  is_python_target target && bool_decide (is_Some (provides (get_target target))).

(** **** DependencyCalculator *)

Definition requires_export (target : T) : bool :=
  is_python_target target || is_resources_target target.

Definition is_exported (target : T) : bool := has_provides target.

Definition dependencies (target : T) : list T :=
  target_dependencies (get_target target) ++
  (if is_exported target then (provided_binaries (get_target target)).*2 else []).

Definition DependencyCalculator_reduced_dependencies
  : nat → T → option (raises T (list T)) :=
  reduced_dependencies requires_export is_exported dependencies
    (λ t, target_is_original (get_target t))
    (λ t, target_derived_from (get_target t))
    (λ t, address_spec_path (get_target t))
    iter_targets_in_spec_path pop_index.

(** **** install_requires *)

Definition install_requires (reduced_dependencies : list T) : list string :=
  foldl (λ install_requires dep,
           if is_requirements dep then
             foldl (λ install_requires req, oset_add req install_requires)
                   install_requires (payload_requirements (get_target dep))
           else if has_provides dep then
             match provides (get_target dep) with
             | Some artifact => oset_add (key artifact) install_requires
             | None => install_requires
             end
           else install_requires)
        [] reduced_dependencies.

(** What one reduced dependency stands for in [install_requires]:
    the requirement strings of a requirement library, and the key of
    the artifact of a target with [provides]. *)
Definition requirement_strings (dep : T) : list string :=
  if is_requirements dep then payload_requirements (get_target dep)
  else if has_provides dep then
    match provides (get_target dep) with
    | Some artifact => [key artifact]
    | None => []
    end
  else [].

(** **** iter_entry_points

    The generator yields one pair for each provided binary, and raises
    at the first that is not a binary with an entry point; what it
    produces for each binary is listed, to be consumed up to the first
    error. *)

Definition iter_entry_points (target : T)
  : list (SetupPyError + string * string) :=
  (λ '(name, binary_target),
     match target_class (get_target binary_target),
           entry_point (get_target binary_target) with
     | PythonBinary, Some entry_point => inr (name, entry_point)
     | _, _ => inl TargetDefinitionException
     end) <$> provided_binaries (get_target target).

(** **** write_setup

    The keywords passed to [setup()]; [find_packages] has run on the
    chroot and its result is given. *)

Definition SOURCE_ROOT : string := "src".

(** The order in which a Python [set] of strings yields its elements
    when it is iterated: some enumeration, fixed by the hash table's
    layout. *)
Variable set_order : gset string → list string.

(** One round of the loop over the entry points. *)
Definition add_console_script (binary_name entry_point : string)
    (setup_keywords : list (string * PyValue))
  : SetupPyError + list (string * PyValue) :=
  let setup_keywords :=
    if decide ("entry_points" ∈ odict_keys setup_keywords) then setup_keywords
    else odict_set "entry_points" (PyDict []) setup_keywords in
  match odict_get "entry_points" setup_keywords with
  | Some (PyDict entry_points) =>
    let entry_points :=
      if decide ("console_scripts" ∈ odict_keys entry_points) then entry_points
      else odict_set "console_scripts" (PyList []) entry_points in
    match odict_get "console_scripts" entry_points with
    | Some (PyList console_scripts) =>
      let console_scripts :=
        console_scripts ++ [PyStr (binary_name +:+ " = " +:+ entry_point)] in
      inr (odict_set "entry_points"
             (PyDict (odict_set "console_scripts" (PyList console_scripts)
                                entry_points))
             setup_keywords)
    | _ => inl PythonAttributeError
    end
  | _ => inl PythonTypeError
  end.

(** The keywords hold the console scripts [scripts] and no other
    entry point; before the first script there is no [entry_points]
    keyword. *)
Definition holds_scripts (setup_keywords : list (string * PyValue))
    (scripts : list PyValue) : Prop :=
  (("entry_points" ∉ odict_keys setup_keywords) ∧ scripts = []) ∨
  odict_get "entry_points" setup_keywords
    = Some (PyDict [("console_scripts", PyList scripts)]).

Definition write_setup (root_target : T) (reduced_dependencies : list T)
    (found : gset string * gset string * list (string * gset string))
  : SetupPyError + list (string * PyValue) :=
  match provides (get_target root_target) with
  | None => inl PythonAttributeError
  | Some artifact =>
    let setup_keywords := setup_py_keywords artifact in
    let '(packages, namespace_packages, resources) := found in
    let setup_keywords :=
      if decide (namespace_packages ≠ ∅) then
        odict_set "namespace_packages"
          (PyList (PyStr <$> merge_sort String.le (elements namespace_packages)))
          setup_keywords
      else setup_keywords in
    let setup_keywords :=
      if decide (packages ≠ ∅) then
        odict_set "package_data"
          (PyDict ((λ '(package, rs), (package, PyList (PyStr <$> set_order rs)))
                     <$> resources))
          (odict_set "packages"
             (PyList (PyStr <$> merge_sort String.le (elements packages)))
             (odict_set "package_dir" (PyDict [("", PyStr SOURCE_ROOT)])
                        setup_keywords))
      else setup_keywords in
    let setup_keywords :=
      odict_set "install_requires"
        (PyList (PyStr <$> install_requires reduced_dependencies))
        setup_keywords in
    foldl (λ acc entry,
             match acc, entry with
             | inl e, _ => inl e
             | inr _, inl e => inl e
             | inr setup_keywords, inr (binary_name, entry_point) =>
               add_console_script binary_name entry_point setup_keywords
             end)
          (inr setup_keywords) (iter_entry_points root_target)
  end.

(** **** execute: the run phase

    [created] maps each exported target for which a setup.py project
    was created to its setup directory. *)

(** [sort_targets] of the build graph. *)
Variable sort_targets : list T → list T.

(** The [--run] option, the name of the archive that the packager
    builds in a setup directory, or [None] when building or moving the
    archive raises, and the outcome of running a command there. *)
Variable run_option : option string.
Variable dist_dir : string.
Variable sdist_name : string → option string.
Variable setup_runner_run : string → string → bool.

(** The steps invoked so far, in order, and the registered product. *)
Record RunState : Type := {
  invoked : list T;
  python_dists : list (T * string);
}.

Fixpoint run_targets (created : list (T * string)) (targets : list T)
    (st : RunState) : RunState * option SetupPyError :=
  match targets with
  | [] => (st, None)
  | exported_python_target :: targets' =>
    match odict_get exported_python_target created with
    | Some (String c setup_dir') =>
      let setup_dir := String c setup_dir' in
      let st_invoked := invoked st ++ [exported_python_target] in
      match run_option with
      | None | Some EmptyString =>
        match sdist_name setup_dir with
        | Some tgz_name =>
          let sdist_path := os_path_join dist_dir tgz_name in
          run_targets created targets'
            {| invoked := st_invoked;
               python_dists :=
                 odict_set exported_python_target sdist_path (python_dists st) |}
        | None =>
          ({| invoked := st_invoked; python_dists := python_dists st |},
           Some PackagerFailed)
        end
      | Some _run =>
        if setup_runner_run _run setup_dir then
          run_targets created targets'
            {| invoked := st_invoked;
               python_dists :=
                 odict_set exported_python_target setup_dir (python_dists st) |}
        else
          ({| invoked := st_invoked; python_dists := python_dists st |},
           Some InstallFailed)
      end
    | _ => run_targets created targets' st
    end
  end.

Definition run_phase (created : list (T * string))
  : RunState * option SetupPyError :=
  run_targets created (reverse (sort_targets (odict_keys created)))
              {| invoked := []; python_dists := [] |}.

(** The step of the run phase in a setup directory succeeds: the
    packager builds the archive, or the [--run] command succeeds. *)
Definition step_succeeds (setup_dir : string) : bool :=
  match run_option with
  | None | Some EmptyString => bool_decide (is_Some (sdist_name setup_dir))
  | Some _run => setup_runner_run _run setup_dir
  end.

(** [if setup_dir:] on [created.get(target)]. *)
Definition has_setup_dir (created : list (T * string)) (target : T) : bool :=
  match odict_get target created with
  | Some (String _ _) => true
  | _ => false
  end.

(** A setup directory was recorded for the target. *)
Definition is_created (created : list (T * string)) (target : T) : Prop :=
  ∃ setup_dir, odict_get target created = Some setup_dir ∧ setup_dir ≠ "".

(** [x] depends on [y] in the build graph, directly or not. *)
Definition depends_on : T → T → Prop :=
  tc (λ x y, y ∈ target_dependencies (get_target x)).

(** Modelled from the spec: [sort_targets] belongs to the build graph
    and is not part of this file.  The spec has the created targets
    sorted topologically by the dependency order of the original build
    graph, to be processed in reverse, dependencies before dependents:
    in the sorted list each of the given targets occurs, no target
    occurs twice, and no target occurs at or after a target that it
    depends on. *)
Definition sorted_by_dependencies (targets sorted : list T) : Prop :=
  NoDup sorted ∧
  (∀ x, x ∈ targets → x ∈ sorted) ∧
  ∀ before y after,
    sorted = before ++ y :: after → ∀ x, depends_on x y → x ∉ y :: after.

(** The step of [b] is invoked before the step of [a]. *)
Definition invoked_before (trace : list T) (b a : T) : Prop :=
  ∃ l1 l2 l3, trace = l1 ++ b :: l2 ++ a :: l3.

(** The order of the run phase as the specification words it: the
    step of every created target that the reduced dependencies of a
    created target hold is invoked before the step of that target. *)
Definition referenced_before_referencing (created : list (T * string))
    (reduced_of : T → list T) (trace : list T) : Prop :=
  ∀ a b, is_created created a → is_created created b →
         b ∈ reduced_of a → invoked_before trace b a.

End SetupPy.

(** *** write_contents and the creation phase of execute

    Paths are given by their components.  The chroot is the list of
    the copies made into it, source and destination, in order. *)

(** [os.path.relpath(path, start)] for two paths below one root. *)
Fixpoint relpath (path start : list string) : list string :=
  match path, start with
  | x :: path', y :: start' =>
    if decide (x = y) then relpath path' start'
    else replicate (length start) ".." ++ path
  | [], [] => ["."]
  | _, _ => replicate (length start) ".." ++ path
  end.

Section Create.

Context {T E : Type} `{Countable T}.
Variable get_target : T → Target T.

(** [get_buildroot()]; [target_base] and
    [sources_relative_to_buildroot()] of a target; and
    [os.path.exists] on a path. *)
Variable buildroot : list string.
Variable target_base : T → list string.
Variable sources_relative_to_buildroot : T → list (list string).
Variable path_exists : list string → bool.

(** [derived_by_original]: the target that code generation derived
    from an original target. *)
Variable derived_by_original : T → option T.

Definition chroot_copy (src dst : list string)
    (chroot : list (list string * list string))
  : list (list string * list string) :=
  chroot ++ [(src, dst)].

(** The loop of [write_target_source] over the parent directories;
    [depth] bounds its rounds, and the length of [src] is enough. *)
Fixpoint copy_parent_inits (depth : nat) (target : T) (src : list string)
    (chroot : list (list string * list string))
  : list (list string * list string) :=
  let src := dirname src in
  if decide (src = []) then chroot
  else
    match depth with
    | O => chroot
    | S depth' =>
      let chroot :=
        if path_exists (target_base target ++ src ++ ["__init__.py"]) then
          chroot_copy (target_base target ++ src ++ ["__init__.py"])
                      ([SOURCE_ROOT] ++ src ++ ["__init__.py"]) chroot
        else chroot in
      copy_parent_inits depth' target src chroot
    end.

Definition write_target_source (target : T) (src : list string)
    (chroot : list (list string * list string))
  : list (list string * list string) :=
  let chroot :=
    chroot_copy (buildroot ++ target_base target ++ src)
                ([SOURCE_ROOT] ++ src) chroot in
  copy_parent_inits (length src) target src chroot.

Definition write_target (target : T)
    (chroot : list (list string * list string))
  : list (list string * list string) :=
  let subject := default target (derived_by_original target) in
  foldl (λ chroot rel_source,
           let abs_source_path := buildroot ++ rel_source in
           let abs_source_root_path := buildroot ++ target_base subject in
           let source_root_relative_path :=
             relpath abs_source_path abs_source_root_path in
           write_target_source subject source_root_relative_path chroot)
        chroot (sources_relative_to_buildroot subject).

Definition write_contents (root_target : T) (reduced_dependencies : list T)
    (chroot : list (list string * list string))
  : list (list string * list string) :=
  let chroot := write_target root_target chroot in
  foldl (λ chroot dependency,
           if is_python_target get_target dependency &&
              bool_decide (provides (get_target dependency) = None)
           then write_target dependency chroot
           else if is_resources_target get_target dependency
           then write_target dependency chroot
           else chroot)
        chroot reduced_dependencies.

(** **** execute: the creation phase

    [create_setup_py] gives the setup directory and the reduced
    dependencies of a target, or raises. *)
Variable target_roots : list T.
Variable is_local_python_dist : T → bool.
Variable recursive : bool.
Variable create_setup_py : T → E + string * list T.

Definition is_exported_python_target (t : T) : bool :=
  target_is_original (get_target t) && has_provides get_target t &&
  negb (is_local_python_dist t).

(** A loop that calls [create] on each target, up to the first error. *)
Fixpoint create_each
    (create : T → list (T * string) → option (E + list (T * string)))
    (targets : list T) (created : list (T * string))
  : option (E + list (T * string)) :=
  match targets with
  | [] => Some (inr created)
  | target :: targets' =>
    r ← create target created;
    match r with
    | inl e => Some (inl e)
    | inr created => create_each create targets' created
    end
  end.

(** [create]; the recursion depth is bounded by [fuel], and [None] is
    a creation cut short by the bound. *)
Fixpoint create (fuel : nat) (exported_python_target : T)
    (created : list (T * string)) : option (E + list (T * string)) :=
  match fuel with
  | O => None
  | S fuel' =>
    if decide (exported_python_target ∉ odict_keys created) then
      let subject :=
        default exported_python_target
                (derived_by_original exported_python_target) in
      match create_setup_py subject with
      | inl e => Some (inl e)
      | inr (setup_dir, dependencies) =>
        let created := odict_set exported_python_target setup_dir created in
        if recursive then
          create_each (create fuel')
                      (filter (λ dep, is_exported_python_target dep = true)
                              dependencies)
                      created
        else Some (inr created)
      end
    else Some (inr created)
  end.

(** The target roots that are exported, as the [OrderedSet] holds
    them. *)
Definition exported_python_targets : list T :=
  foldl (λ exported t,
           if is_exported_python_target t then oset_add t exported
           else exported)
        [] target_roots.

(** What [execute] raises, other than in the run phase. *)
Inductive CreationError : Type :=
  | NoArtifactProvided
  | CreateSetupPyFailed (e : E).

(** [execute] up to the end of the creation phase. *)
Definition creation_phase (fuel : nat)
  : option (CreationError + list (T * string)) :=
  match exported_python_targets with
  | [] => Some (inl NoArtifactProvided)
  | _ =>
    r ← create_each (create fuel) exported_python_targets [];
    match r with
    | inl e => Some (inl (CreateSetupPyFailed e))
    | inr created => Some (inr created)
    end
  end.

(** A finite set of targets that holds, with a target, the exported
    targets among the dependencies that [create_setup_py] gives for
    it. *)
Definition creation_closed (U : gset T) : Prop :=
  set_Forall
    (λ t, ∀ setup_dir dependencies,
        create_setup_py (default t (derived_by_original t))
          = inr (setup_dir, dependencies) →
        Forall (λ dep, is_exported_python_target dep = true → dep ∈ U)
               dependencies)
    U.

End Create.

(** ** Build graphs given by a table

    A finite build graph as the list of its targets by address, used to
    run the task on concrete graphs. *)

Module Graphs.

Definition artifact (name version : string) : PythonArtifact :=
  {| name := name; version := version;
     key := name +:+ "==" +:+ version;
     setup_py_keywords := [("name", PyStr name); ("version", PyStr version)] |}.

Definition target (class : TargetClass) (provides : option PythonArtifact)
    (spec_path : list string) (dependencies : list string) (address : string)
  : string * Target string :=
  (address,
   {| address_spec_path := spec_path; target_class := class;
      provides := provides; target_dependencies := dependencies;
      provided_binaries := []; target_is_original := true;
      target_derived_from := address; payload_requirements := [];
      entry_point := None |}).

(** A [python_library] without and with [provides]. *)
Definition library := target PythonTarget None.
Definition exported (name : string) :=
  target PythonTarget (Some (artifact name "1.0")).

(** A [python_requirement_library]. *)
Definition requirement_library (spec_path : list string)
    (requirements : list string) (address : string)
  : string * Target string :=
  (address,
   {| address_spec_path := spec_path;
      target_class := PythonRequirementLibrary;
      provides := None; target_dependencies := [];
      provided_binaries := []; target_is_original := true;
      target_derived_from := address; payload_requirements := requirements;
      entry_point := None |}).

Definition get_target (graph : list (string * Target string)) (address : string)
  : Target string :=
  default (target OtherTarget None [] [] address).2 (odict_get address graph).

Definition iter_targets_in_spec_path (graph : list (string * Target string))
    (spec_path : list string) : list string :=
  (filter (λ entry, address_spec_path entry.2 = spec_path) graph).*1.

Definition addresses (graph : list (string * Target string)) : gset string :=
  list_to_set (odict_keys graph).

(** The calculator of the task on a table; [pop] is the element
    that [set.pop()] takes, by insertion rank. *)
Definition reduced (graph : list (string * Target string)) (pop : nat)
  : nat → string → option (raises string (list string)) :=
  DependencyCalculator_reduced_dependencies
    (get_target graph) (iter_targets_in_spec_path graph) (λ _, pop).

(** Two exported targets on the lineage of [a/b:x], the nearer one in
    its own directory and the other in the parent directory. *)
Definition nearer_and_farther : list (string * Target string) :=
  [ exported "e" ["a"] ["a/b:x"] "a:e";
    exported "n" ["a"; "b"] ["a/b:x"] "a/b:n";
    library ["a"; "b"] [] "a/b:x" ].

(** The same with a second exported target in the parent directory. *)
Definition nearer_and_two_farther : list (string * Target string) :=
  [ exported "e" ["a"] ["a/b:x"] "a:e";
    exported "f" ["a"] ["a/b:x"] "a:f";
    exported "n" ["a"; "b"] ["a/b:x"] "a/b:n";
    library ["a"; "b"] [] "a/b:x" ].

(** [a:x] has two owners in its directory; [b:y], collected after it,
    has none. *)
Definition ambiguous_then_unowned : list (string * Target string) :=
  [ exported "e" ["a"] ["a:x"; "b:y"] "a:e";
    exported "f" ["a"] ["a:x"] "a:f";
    library ["a"] [] "a:x";
    library ["b"] [] "b:y" ].

(** [b:y] lies outside the directory of the only exported target. *)
Definition unowned : list (string * Target string) :=
  [ exported "e" ["a"] ["b:y"] "a:e";
    library ["b"] [] "b:y" ].

(** A dependency cycle. *)
Definition cycle : list (string * Target string) :=
  [ library ["a"] ["a:q"] "a:p";
    library ["a"] ["a:p"; "a:r"] "a:q";
    library ["a"] [] "a:r" ].

(** Two exported targets that each use a library owned by the other. *)
Definition mutual : list (string * Target string) :=
  [ exported "a" ["p"] ["p/x:x"; "q/y:y"] "p:a";
    library ["p"; "x"] [] "p/x:x";
    exported "b" ["q"] ["p/x:x"; "q/y:y"] "q:b";
    library ["q"; "y"] [] "q/y:y" ].

(** An exported target that depends on another. *)
Definition chain : list (string * Target string) :=
  [ exported "a" ["p"] ["q:b"] "p:a";
    exported "b" ["q"] [] "q:b" ].

(** An exported target with requirements and an exported dependency. *)
Definition with_requirements : list (string * Target string) :=
  [ exported "a" ["p"] ["3rdparty:reqs"; "q:b"] "p:a";
    requirement_library ["3rdparty"] ["zope.interface==4.0"; "attrs==19.1"]
                        "3rdparty:reqs";
    exported "b" ["q"] [] "q:b" ].

(** The notions of the calculator on a table. *)
Definition closed (graph : list (string * Target string)) : Prop :=
  build_graph_closed
    (dependencies (get_target graph))
    (λ t, target_derived_from (get_target graph t))
    (λ t, address_spec_path (get_target graph t))
    (iter_targets_in_spec_path graph) (addresses graph).

Definition lineage (graph : list (string * Target string)) :=
  iter_target_siblings_and_ancestors
    (λ t, address_spec_path (get_target graph t))
    (iter_targets_in_spec_path graph).

Definition collected (graph : list (string * Target string)) :=
  provisional (is_exported (get_target graph)) (dependencies (get_target graph))
              (λ t, target_is_original (get_target graph t))
              (λ t, target_derived_from (get_target graph t)).

Definition candidate (graph : list (string * Target string)) :=
  is_potential_owner (is_exported (get_target graph))
                     (dependencies (get_target graph)).

Definition owners (graph : list (string * Target string)) :=
  potential_owners (is_exported (get_target graph))
                   (dependencies (get_target graph))
                   (λ t, address_spec_path (get_target graph t))
                   (iter_targets_in_spec_path graph).

Definition resolved (graph : list (string * Target string)) (pop : nat) :=
  resolve_owner (is_exported (get_target graph))
                (dependencies (get_target graph))
                (λ t, address_spec_path (get_target graph t))
                (iter_targets_in_spec_path graph) (λ _, pop).

(** The run phase on a table: the default packager, and the order
    that [sort_targets] gives. *)
Definition steps (sorted : list string) (created : list (string * string))
  : list string :=
  invoked (run_phase (λ _, sorted) None "dist"
                     (λ setup_dir, Some "sdist.tar.gz")
                     (λ _ _, true) created).1.

(** The reduced dependencies of a target, empty where the calculator
    raises. *)
Definition reduced_of (graph : list (string * Target string)) (t : string)
  : list string :=
  match reduced graph 0 (S (length graph)) t with
  | Some (inr reduced_dependencies) => reduced_dependencies
  | _ => []
  end.

Definition created_both : list (string * string) :=
  [("p:a", "dist/a-1.0"); ("q:b", "dist/b-1.0")].

(** Staged source trees, as [safe_walk] lists them. *)
Definition staged_example : list (list string * list string) :=
  [ (["a"], ["__init__.py"]);
    (["a"; "b"], ["__init__.py"]);
    (["a"; "b"; "c"], ["data.txt"]) ].

Definition staged_with_docs : list (list string * list string) :=
  [ (["a"], ["__init__.py"; "module.py"]);
    (["docs"], ["index.txt"]) ].

(** A resource in a package directory and one below a package. *)
Definition staged_with_data : list (list string * list string) :=
  [ (["a"], ["__init__.py"; "data.txt"]);
    (["a"; "b"], ["__init__.py"]);
    (["a"; "b"; "c"], ["data.txt"]) ].

(** A resource in a directory outside every package. *)
Definition staged_with_lib : list (list string * list string) :=
  [ (["a"], ["__init__.py"]);
    (["a"; "b"], ["__init__.py"]);
    (["lib"], ["data.txt"]) ].

(** A namespace detection that finds none. *)
Definition no_namespaces (inits : list string) : option (list string) :=
  Some [].

(** The dict after the second pass, on a table. *)
Definition owner_map (graph : list (string * Target string)) (pop : nat) :=
  resolved_owners (requires_export (get_target graph))
                  (is_exported (get_target graph))
                  (dependencies (get_target graph))
                  (λ t, target_is_original (get_target graph t))
                  (λ t, target_derived_from (get_target graph t))
                  (λ t, address_spec_path (get_target graph t))
                  (iter_targets_in_spec_path graph) (λ _, pop).

(** A [python_binary]. *)
Definition binary (entry_point : option string) (spec_path : list string)
    (address : string) : string * Target string :=
  (address,
   {| address_spec_path := spec_path; target_class := PythonBinary;
      provides := None; target_dependencies := [];
      provided_binaries := []; target_is_original := true;
      target_derived_from := address; payload_requirements := [];
      entry_point := entry_point |}).

(** An exported target that provides two binaries; the entry point
    of the second is given. *)
Definition with_binaries (entry_point : option string)
  : list (string * Target string) :=
  [ ("p:a",
     {| address_spec_path := ["p"]; target_class := PythonTarget;
        provides := Some (artifact "a" "1.0"); target_dependencies := [];
        provided_binaries := [("run", "p:run"); ("serve", "p:serve")];
        target_is_original := true; target_derived_from := "p:a";
        payload_requirements := []; entry_point := None |});
    binary (Some "a.main:run") ["p"] "p:run";
    binary entry_point ["p"] "p:serve" ].

(** The run phase on a table with a [--run] command that succeeds in
    the given setup directories. *)
Definition run_with (command : string) (succeeds : list string)
    (sorted : list string) (created : list (string * string)) :=
  run_phase (λ _, sorted) (Some command) "dist"
            (λ setup_dir, Some "sdist.tar.gz")
            (λ _ setup_dir, bool_decide (setup_dir ∈ succeeds)) created.

(** [create_setup_py] on a table: the setup directory is named after
    the target, and the calculator gives the dependencies. *)
Definition create_setup_py_of (graph : list (string * Target string))
    (t : string) : TaskError string + string * list string :=
  match reduced graph 0 (S (length graph)) t with
  | Some (inl e) => inl e
  | _ => inr ("dist/" +:+ t, reduced_of graph t)
  end.

(** The creation phase on a table, without generated targets and
    without local distributions. *)
Definition creation (graph : list (string * Target string))
    (target_roots : list string) (recursive : bool) (fuel : nat) :=
  creation_phase (get_target graph) (λ _, None) target_roots (λ _, false)
                 recursive (create_setup_py_of graph) fuel.

(** The run phase on a table without [--run]; the packager builds
    the archive in the given setup directories only. *)
Definition run_packager (builds : list string) (sorted : list string)
    (created : list (string * string)) :=
  run_phase (λ _, sorted) None "dist"
            (λ setup_dir, if bool_decide (setup_dir ∈ builds)
                          then Some "sdist.tar.gz" else None)
            (λ _ _, true) created.

End Graphs.

(** * Properties *)

Import Graphs.

(** ** Containers *)

Lemma for_each_app {A B} (body : B → A → option B) l1 l2 b :
  for_each body (l1 ++ l2) b = for_each body l1 b ≫= for_each body l2.
Proof.
  revert b. induction l1 as [|x l1 IH]; intros b; simpl; [done|].
  destruct (body b x); simpl; [apply IH|done].
Qed.

(** A loop invariant for [for_each]. *)
Lemma for_each_invariant {A B} (I : B → Prop) (body : B → A → option B) l :
  (∀ b x b', x ∈ l → I b → body b x = Some b' → I b') →
  ∀ b b', I b → for_each body l b = Some b' → I b'.
Proof.
  induction l as [|x l IH]; intros Hbody b b' Hb Hrun; simpl in *.
  - by simplify_eq.
  - destruct (body b x) as [b1|] eqn:Hx; simpl in *; [|done].
    eapply IH; [| |done].
    + intros ????. apply Hbody. by right.
    + eapply Hbody; [by left|done..].
Qed.

Lemma for_each_is_Some {A B} (body : B → A → option B) l b :
  (∀ b x, x ∈ l → is_Some (body b x)) → is_Some (for_each body l b).
Proof.
  revert b. induction l as [|x l IH]; intros b Hbody; simpl; [done|].
  destruct (Hbody b x) as [b1 ->]; [by left|]. simpl.
  apply IH. intros ???. apply Hbody. by right.
Qed.

Lemma for_each_mono {A B} (body body' : B → A → option B) l b r :
  (∀ b x b', x ∈ l → body b x = Some b' → body' b x = Some b') →
  for_each body l b = Some r → for_each body' l b = Some r.
Proof.
  revert b. induction l as [|x l IH]; intros b Hbody Hrun; simpl in *; [done|].
  destruct (body b x) as [b1|] eqn:Hx; simpl in *; [|done].
  rewrite (Hbody b x b1); [|by left|done]. simpl.
  apply IH; [|done]. intros ????. apply Hbody. by right.
Qed.

Lemma elem_of_oset_add `{EqDecision A} (x y : A) s :
  x ∈ oset_add y s ↔ x = y ∨ x ∈ s.
Proof. unfold oset_add. case_decide; set_solver. Qed.

Lemma NoDup_oset_add `{EqDecision A} (y : A) s : NoDup s → NoDup (oset_add y s).
Proof.
  unfold oset_add. case_decide; [done|]. intros Hs.
  apply NoDup_app. split_and!; [done|set_solver|apply NoDup_singleton].
Qed.

Lemma elem_of_odict_keys_set `{EqDecision K} {V} (x k : K) (v : V) d :
  x ∈ odict_keys (odict_set k v d) ↔ x = k ∨ x ∈ odict_keys d.
Proof.
  unfold odict_keys. induction d as [|[k' v'] d IH]; simpl.
  - set_solver.
  - case_decide; simpl; set_solver.
Qed.

Lemma odict_keys_set_present `{EqDecision K} {V} (k : K) (v : V) d :
  k ∈ odict_keys d → odict_keys (odict_set k v d) = odict_keys d.
Proof.
  unfold odict_keys. induction d as [|[k' v'] d IH]; simpl; [set_solver|].
  intros Hin. case_decide; simpl; [by subst|].
  f_equal. apply IH. set_solver.
Qed.

Lemma odict_get_set_eq `{EqDecision K} {V} (k : K) (v : V) d :
  odict_get k (odict_set k v d) = Some v.
Proof.
  induction d as [|[k' v'] d IH]; simpl.
  - by rewrite decide_True.
  - case_decide; simpl; [by rewrite decide_True|by rewrite decide_False].
Qed.

Lemma odict_get_set_ne `{EqDecision K} {V} (k k' : K) (v : V) d :
  k ≠ k' → odict_get k (odict_set k' v d) = odict_get k d.
Proof.
  intros Hne. induction d as [|[k0 v0] d IH]; simpl.
  - by rewrite decide_False.
  - case_decide; simpl; subst.
    + by rewrite !decide_False.
    + case_decide; [done|apply IH].
Qed.

Lemma odict_get_keys `{EqDecision K} {V} (k : K) (v : V) d :
  odict_get k d = Some v → k ∈ odict_keys d.
Proof.
  unfold odict_keys. induction d as [|[k' v'] d IH]; simpl; [done|].
  case_decide; [intros _; subst; by left|]. intros ?. right. by apply IH.
Qed.

(** ** The walk *)

Section WalkFacts.
Context {T : Type} `{Countable T}.
Variable dependencies : T → list T.

Local Abbreviation walk := (walk dependencies).
Local Abbreviation _walk := (_walk dependencies).
Local Abbreviation dependency_closed := (dependency_closed dependencies).

Section Visitor.
Context {S : Type}.
Variable visitor : T → S → bool * S.

Lemma walk_unfold fuel current visited s :
  walk visitor (Datatypes.S fuel) current (visited, s) =
  if decide (current ∈ visited) then Some (visited, s)
  else if (visitor current s).1
       then for_each (λ st dependency, walk visitor fuel dependency st)
                     (dependencies current)
                     ({[current]} ∪ visited, (visitor current s).2)
       else Some ({[current]} ∪ visited, (visitor current s).2).
Proof.
  simpl. case_decide; [done|]. by destruct (visitor current s) as [[] ?].
Qed.

Lemma walk_fuel_mono fuel fuel' current st r :
  fuel ≤ fuel' →
  walk visitor fuel current st = Some r →
  walk visitor fuel' current st = Some r.
Proof.
  revert fuel' current st r.
  induction fuel as [|fuel IH]; intros fuel' current [visited s] r Hle Hrun;
    [done|].
  destruct fuel' as [|fuel']; [lia|].
  rewrite walk_unfold in Hrun. rewrite walk_unfold.
  case_decide; [done|]. destruct (visitor current s).1; [|done].
  eapply for_each_mono; [|done]. intros ?????. apply IH; [lia|done].
Qed.

(** An invariant of the walk: it is kept by every call of the
    visitor, which is made on a target not visited before, reached
    from the start of the walk. *)
Lemma walk_invariant_on (P : T → Prop) (I : gset T → S → Prop) :
  (∀ t d, P t → d ∈ dependencies t → P d) →
  (∀ visited s current,
      P current → I visited s → current ∉ visited →
      I ({[current]} ∪ visited) (visitor current s).2) →
  ∀ fuel current visited s visited' s',
    P current → I visited s →
    walk visitor fuel current (visited, s) = Some (visited', s') →
    I visited' s'.
Proof.
  intros HP Hvisit. induction fuel as [|fuel IH];
    intros current visited s visited' s' Hcur HI Hrun; [done|].
  rewrite walk_unfold in Hrun. case_decide; [by simplify_eq|].
  specialize (Hvisit _ _ _ Hcur HI ltac:(done)).
  destruct (visitor current s).1; [|by simplify_eq].
  refine (for_each_invariant (λ st, I st.1 st.2) _ _ _ (_, _) (_, _)
                             Hvisit Hrun).
  intros [v1 s1] d [v2 s2] Hd HI1 Hstep. simpl in *.
  eapply IH; [|done..]. by eapply HP.
Qed.

Lemma walk_invariant (I : gset T → S → Prop) :
  (∀ visited s current,
      I visited s → current ∉ visited →
      I ({[current]} ∪ visited) (visitor current s).2) →
  ∀ fuel current visited s visited' s',
    I visited s →
    walk visitor fuel current (visited, s) = Some (visited', s') →
    I visited' s'.
Proof.
  intros Hvisit fuel current visited s visited' s' HI Hrun.
  eapply (walk_invariant_on (λ _, True) I); eauto.
Qed.

Lemma walk_visited_mono fuel current visited s visited' s' :
  walk visitor fuel current (visited, s) = Some (visited', s') →
  visited ⊆ visited'.
Proof.
  intros Hrun.
  eapply (walk_invariant (λ vis _, visited ⊆ vis)); [|done|done].
  intros. set_solver.
Qed.

Lemma walk_terminates U fuel current visited s :
  dependency_closed U → current ∈ U → size (U ∖ visited) < fuel →
  is_Some (walk visitor fuel current (visited, s)).
Proof.
  intros Hclosed. revert current visited s.
  induction fuel as [|fuel IH]; intros current visited s Hin Hfuel; [lia|].
  rewrite walk_unfold. case_decide as Hvis; [done|].
  assert (size (U ∖ ({[current]} ∪ visited)) < size (U ∖ visited)) as Hlt.
  { apply subset_size. set_solver. }
  destruct (visitor current s).1; [|done].
  pose proof (Hclosed _ Hin) as Hdeps. simpl in Hdeps.
  assert (size (U ∖ ({[current]} ∪ visited)) < fuel) as Hfuel1 by lia.
  revert Hfuel1. clear Hlt Hfuel Hvis.
  generalize ({[current]} ∪ visited) (visitor current s).2.
  induction Hdeps as [|d ds Hd _ IHd]; intros vis1 s1 Hfuel1; simpl; [done|].
  destruct (IH d vis1 s1 Hd Hfuel1) as [[vis2 s2] Hrun]. rewrite Hrun. simpl.
  apply IHd. apply walk_visited_mono in Hrun.
  assert (size (U ∖ vis2) ≤ size (U ∖ vis1)); [|lia].
  apply subseteq_size. set_solver.
Qed.

Lemma _walk_terminates U fuel target s :
  dependency_closed U → target ∈ U → size U < fuel →
  is_Some (_walk visitor fuel target s).
Proof.
  intros Hclosed Hin Hfuel. unfold _walk.
  destruct (walk_terminates U fuel target ∅ s) as [r ->]; [done..| |done].
  by replace (U ∖ ∅) with U by set_solver.
Qed.

Lemma _walk_fuel_mono fuel fuel' target s r :
  fuel ≤ fuel' →
  _walk visitor fuel target s = Some r → _walk visitor fuel' target s = Some r.
Proof.
  unfold _walk. intros Hle Hrun.
  destruct (walk visitor fuel target (∅, s)) as [st|] eqn:Hw; [|done].
  by rewrite (walk_fuel_mono _ _ _ _ _ Hle Hw).
Qed.

Lemma _walk_invariant_on (P : T → Prop) (I : S → Prop) :
  (∀ t d, P t → d ∈ dependencies t → P d) →
  (∀ s current, P current → I s → I (visitor current s).2) →
  ∀ fuel target s s',
    P target → I s → _walk visitor fuel target s = Some s' → I s'.
Proof.
  intros HP Hvisit fuel target s s' Htarget HI. unfold _walk.
  destruct (walk visitor fuel target (∅, s)) as [[vis1 s1]|] eqn:Hw; [|done].
  intros [= <-].
  eapply (walk_invariant_on P (λ _, I)); [done| |done..]. eauto.
Qed.

End Visitor.

Lemma logging_eq {S} (visitor : T → S → bool * S) current log s :
  logging visitor current (log, s) =
  ((visitor current s).1, (log ++ [current], (visitor current s).2)).
Proof. unfold logging. simpl. by destruct (visitor current s). Qed.

(** The log does not change the walk. *)
Lemma walk_logging {S} (visitor : T → S → bool * S) fuel current visited log s :
  (λ r, (r.1, r.2.2)) <$>
    walk (logging visitor) fuel current (visited, (log, s)) =
  walk visitor fuel current (visited, s).
Proof.
  revert current visited log s.
  induction fuel as [|fuel IH]; intros current visited log s; [done|].
  rewrite !walk_unfold. case_decide; [done|].
  rewrite logging_eq. simpl.
  destruct (visitor current s).1; [|done].
  generalize ({[current]} ∪ visited) (log ++ [current]) (visitor current s).2.
  clear -IH.
  induction (dependencies current) as [|d ds IHd]; intros vis l s; simpl;
    [done|].
  rewrite <-(IH d vis l s).
  destruct (walk (logging visitor) fuel d (vis, (l, s)))
    as [[vis1 [l1 s1]]|]; simpl; [apply IHd|done].
Qed.

(** The log holds each target once: the calls of the visitor are
    on targets not visited before, and each becomes visited. *)
Lemma walk_log_NoDup {S} (visitor : T → S → bool * S)
    fuel current visited log s visited' log' s' :
  NoDup log → (∀ x, x ∈ log → x ∈ visited) →
  walk (logging visitor) fuel current (visited, (log, s))
    = Some (visited', (log', s')) →
  NoDup log'.
Proof.
  intros Hnd Hsub Hrun.
  refine (proj1 (walk_invariant (logging visitor)
            (λ vis st, NoDup st.1 ∧ ∀ x, x ∈ st.1 → x ∈ vis)
            _ fuel current visited (log, s) visited' (log', s') _ Hrun));
    [|done].
  intros vis [l s0] cur [Hl Hin] Hcur. rewrite logging_eq. simpl in *.
  split.
  - apply NoDup_app. split_and!; [done| |apply NoDup_singleton].
    intros x Hx ?%list_elem_of_singleton. subst. by apply Hcur, Hin.
  - intros x [?| ->%list_elem_of_singleton]%elem_of_app; set_solver.
Qed.

(** *** The walk *)

(** C10. On a finite graph, closed under [dependencies], the walk
    started at one of its targets ends once the fuel exceeds the number
    of targets, cycles or not, and it calls the visitor at most once on
    any target: the log of the calls has no duplicate, and logging does
    not change what the walk computes. *)
Theorem walk_visits_once_and_terminates {S : Type}
    (visitor : T → S → bool * S) (U : gset T) fuel target s :
  dependency_closed U → target ∈ U → size U < fuel →
  ∃ log s',
    _walk (logging visitor) fuel target ([], s) = Some (log, s') ∧
    _walk visitor fuel target s = Some s' ∧
    NoDup log.
Proof.
  intros Hclosed Hin Hfuel.
  destruct (walk_terminates (logging visitor) U fuel target ∅ ([], s))
    as [[visited [log s']] Hrun]; [done..| |].
  { by replace (U ∖ ∅) with U by set_solver. }
  exists log, s'. split_and!.
  - unfold _walk. by rewrite Hrun.
  - unfold _walk. rewrite <-(walk_logging visitor fuel target ∅ [] s).
    by rewrite Hrun.
  - eapply walk_log_NoDup; [apply NoDup_nil_2| |exact Hrun].
    intros x Hx. by apply elem_of_nil in Hx.
Qed.

End WalkFacts.

Section CalculatorFacts.
Context {T : Type} `{Countable T}.
Variable requires_export : T → bool.
Variable is_exported : T → bool.
Variable dependencies : T → list T.
Variable is_original : T → bool.
Variable derived_from : T → T.
Variable spec_path : T → list string.
Variable iter_targets_in_spec_path : list string → list T.
Variable pop_index : list T → nat.

Local Abbreviation _walk := (_walk dependencies).
Local Abbreviation _closure := (_closure dependencies).
Local Abbreviation lineage :=
  (iter_target_siblings_and_ancestors spec_path iter_targets_in_spec_path).
Local Abbreviation potential_owners :=
  (potential_owners is_exported dependencies spec_path iter_targets_in_spec_path).
Local Abbreviation resolve_owner :=
  (resolve_owner is_exported dependencies spec_path iter_targets_in_spec_path
                 pop_index).
Local Abbreviation resolve_owners :=
  (resolve_owners requires_export is_exported dependencies spec_path
                  iter_targets_in_spec_path pop_index).
Local Abbreviation reduced_dependencies :=
  (reduced_dependencies requires_export is_exported dependencies is_original
                        derived_from spec_path iter_targets_in_spec_path
                        pop_index).
Local Abbreviation provisional :=
  (provisional is_exported dependencies is_original derived_from).
Local Abbreviation is_potential_owner :=
  (is_potential_owner is_exported dependencies).
Local Abbreviation build_graph_closed :=
  (build_graph_closed dependencies derived_from spec_path
                      iter_targets_in_spec_path).
Local Abbreviation dependency_closed := (dependency_closed dependencies).

(** *** The closed build graph *)

Lemma build_graph_closed_dependencies U :
  build_graph_closed U → dependency_closed U.
Proof. intros Hc t Ht. by destruct (Hc t Ht) as (?&?&?). Qed.

Lemma build_graph_closed_derived_from U t :
  build_graph_closed U → t ∈ U → derived_from t ∈ U.
Proof. intros Hc Ht. by destruct (Hc t Ht) as (?&?&?). Qed.

Lemma build_graph_closed_lineage U t a :
  build_graph_closed U → t ∈ U → a ∈ lineage t → a ∈ U.
Proof.
  intros Hc Ht Ha. destruct (Hc t Ht) as (_&_&Hl).
  rewrite Forall_forall in Hl. by apply Hl.
Qed.

Lemma dependency_closed_step U t d :
  dependency_closed U → t ∈ U → d ∈ dependencies t → d ∈ U.
Proof.
  intros Hc Ht Hd. specialize (Hc t Ht). simpl in Hc.
  rewrite Forall_forall in Hc. by apply Hc.
Qed.

(** *** The second pass *)

Lemma set_pop_nil : set_pop pop_index [] = None.
Proof. done. Qed.

Lemma resolve_owner_raised fuel owned e :
  resolve_owner fuel owned = Some (inl e) → raised_for owned e.
Proof.
  unfold resolve_owner. intros Hrun.
  destruct (potential_owners fuel owned) as [owners|]; simpl in *; [|done].
  destruct (set_pop pop_index owners) as [[owner rest]|]; [|by simplify_eq].
  destruct rest as [|r rest]; [done|].
  destruct (filter _ _); by simplify_eq.
Qed.

Lemma resolve_owners_app fuel keys1 keys2 d :
  resolve_owners fuel (keys1 ++ keys2) d =
  r ← resolve_owners fuel keys1 d;
  match r with
  | inl e => Some (inl e)
  | inr d' => resolve_owners fuel keys2 d'
  end.
Proof.
  revert d. induction keys1 as [|k keys1 IH]; intros d; simpl; [done|].
  destruct (requires_export k && negb (is_exported k)); [|apply IH].
  destruct (resolve_owner fuel k) as [[e|owner]|]; simpl; [done|apply IH|done].
Qed.

Lemma resolve_owners_raised fuel keys d e :
  resolve_owners fuel keys d = Some (inl e) → ∃ x, x ∈ keys ∧ raised_for x e.
Proof.
  revert d. induction keys as [|k keys IH]; intros d Hrun; simpl in *; [done|].
  destruct (requires_export k && negb (is_exported k)).
  - destruct (resolve_owner fuel k) as [[e'|owner]|] eqn:Hk; simpl in *;
      [|..|done].
    + simplify_eq. exists k. split; [by left|]. by eapply resolve_owner_raised.
    + destruct (IH _ Hrun) as (x&?&?). exists x. split; [by right|done].
  - destruct (IH _ Hrun) as (x&?&?). exists x. split; [by right|done].
Qed.

(** *** More fuel does not change a result *)

Lemma _closure_fuel_mono fuel fuel' target c :
  fuel ≤ fuel' → _closure fuel target = Some c → _closure fuel' target = Some c.
Proof. apply _walk_fuel_mono. Qed.

Lemma potential_owners_fuel_mono fuel fuel' owned r :
  fuel ≤ fuel' →
  potential_owners fuel owned = Some r → potential_owners fuel' owned = Some r.
Proof.
  intros Hle. unfold potential_owners. apply for_each_mono.
  intros owners po owners' _. destruct (is_exported po); [|done].
  destruct (_closure fuel po) as [c|] eqn:Hc; simpl; [|done].
  by rewrite (_closure_fuel_mono _ _ _ _ Hle Hc).
Qed.

Lemma resolve_owner_fuel_mono fuel fuel' owned r :
  fuel ≤ fuel' →
  resolve_owner fuel owned = Some r → resolve_owner fuel' owned = Some r.
Proof.
  intros Hle. unfold resolve_owner.
  destruct (potential_owners fuel owned) as [owners|] eqn:Ho; simpl; [|done].
  by rewrite (potential_owners_fuel_mono _ _ _ _ Hle Ho).
Qed.

Lemma resolve_owners_fuel_mono fuel fuel' keys d r :
  fuel ≤ fuel' →
  resolve_owners fuel keys d = Some r → resolve_owners fuel' keys d = Some r.
Proof.
  intros Hle. revert d.
  induction keys as [|k keys IH]; intros d; simpl; [done|].
  destruct (requires_export k && negb (is_exported k)); [|apply IH].
  destruct (resolve_owner fuel k) as [rk|] eqn:Hk; simpl; [|done].
  rewrite (resolve_owner_fuel_mono _ _ _ _ Hle Hk). simpl.
  destruct rk; [done|apply IH].
Qed.

Lemma reduced_dependencies_fuel_mono fuel fuel' exported_target r :
  fuel ≤ fuel' →
  reduced_dependencies fuel exported_target = Some r →
  reduced_dependencies fuel' exported_target = Some r.
Proof.
  intros Hle. unfold reduced_dependencies.
  destruct (negb (is_exported exported_target)); [done|].
  destruct (_walk _ fuel (derived_from exported_target) [])
    as [d|] eqn:H1; simpl; [|done].
  rewrite (_walk_fuel_mono _ _ _ _ _ _ _ Hle H1). simpl.
  destruct (resolve_owners fuel (odict_keys d) d) as [r2|] eqn:H2; simpl;
    [|done].
  rewrite (resolve_owners_fuel_mono _ _ _ _ _ Hle H2). simpl.
  destruct r2 as [e|d']; [done|].
  destruct (_walk _ fuel exported_target []) as [rd|] eqn:H3; simpl; [|done].
  by rewrite (_walk_fuel_mono _ _ _ _ _ _ _ Hle H3).
Qed.

(** *** Enough fuel gives a result *)

Section Closed.
Variable U : gset T.
Hypothesis U_closed : build_graph_closed U.

Lemma _closure_terminates fuel target :
  target ∈ U → size U < fuel → is_Some (_closure fuel target).
Proof.
  intros. eapply (_walk_terminates dependencies);
    eauto using build_graph_closed_dependencies.
Qed.

Lemma potential_owners_terminates fuel owned :
  owned ∈ U → size U < fuel → is_Some (potential_owners fuel owned).
Proof.
  intros Hin Hfuel. apply for_each_is_Some. intros owners po Hpo.
  destruct (is_exported po); [|done].
  destruct (_closure_terminates fuel po) as [c ->]; [|done..].
  eauto using build_graph_closed_lineage.
Qed.

Lemma resolve_owner_terminates fuel owned :
  owned ∈ U → size U < fuel → is_Some (resolve_owner fuel owned).
Proof.
  intros Hin Hfuel. unfold resolve_owner.
  destruct (potential_owners_terminates fuel owned) as [owners ->];
    [done..|]. simpl.
  destruct (set_pop pop_index owners) as [[owner rest]|]; [|done].
  destruct rest; [done|]. by destruct (filter _ _).
Qed.

Lemma resolve_owners_terminates fuel keys d :
  (∀ x, x ∈ keys → x ∈ U) → size U < fuel →
  is_Some (resolve_owners fuel keys d).
Proof.
  intros Hkeys Hfuel. revert d.
  induction keys as [|k keys IH]; intros d; simpl; [done|].
  assert (∀ x, x ∈ keys → x ∈ U) by (intros; apply Hkeys; by right).
  destruct (requires_export k && negb (is_exported k)); [|by apply IH].
  destruct (resolve_owner_terminates fuel k) as [[e|owner] ->];
    [apply Hkeys; by left|done|done|by apply IH].
Qed.

Lemma provisional_in_graph fuel exported_target d :
  exported_target ∈ U →
  _walk (collect_potentially_owned_python_targets
           is_exported is_original exported_target)
        fuel (derived_from exported_target) [] = Some d →
  ∀ x, x ∈ odict_keys d → x ∈ U.
Proof.
  intros Hin Hrun.
  eapply (_walk_invariant_on dependencies _ (.∈ U) (λ d, ∀ x, x ∈ odict_keys d → x ∈ U));
    [| | |..|exact Hrun].
  - intros. by eapply dependency_closed_step;
      eauto using build_graph_closed_dependencies.
  - intros s current Hcur Hs x.
    unfold collect_potentially_owned_python_targets. simpl.
    destruct (is_original current); [|by apply Hs].
    rewrite elem_of_odict_keys_set. intros [->|?]; [done|by apply Hs].
  - by apply build_graph_closed_derived_from.
  - intros x Hx. by apply elem_of_nil in Hx.
Qed.

Lemma reduced_dependencies_terminates fuel exported_target :
  exported_target ∈ U → size U < fuel →
  is_Some (reduced_dependencies fuel exported_target).
Proof.
  intros Hin Hfuel. unfold reduced_dependencies.
  destruct (negb (is_exported exported_target)); [done|].
  destruct (_walk_terminates dependencies
              (collect_potentially_owned_python_targets
                 is_exported is_original exported_target)
              U fuel (derived_from exported_target) [])
    as [d Hd]; [eauto using build_graph_closed_dependencies,
                build_graph_closed_derived_from..|].
  rewrite Hd. simpl.
  destruct (resolve_owners_terminates fuel (odict_keys d) d) as [[e|d'] ->];
    [by eapply provisional_in_graph|done|done|]. simpl.
  destruct (_walk_terminates dependencies
              (collect_reduced_dependencies
                 requires_export exported_target d')
              U fuel exported_target [])
    as [rd ->]; [eauto using build_graph_closed_dependencies..|done].
Qed.
End Closed.

(** *** reduced_dependencies *)

(** C4. [UnExportedError] is raised exactly for a target that is not
    exported, and then without any fuel: no walk is started, and no
    owner is looked for, before it is raised. *)
Theorem unexported_error_iff fuel exported_target :
  ((∃ t, reduced_dependencies fuel exported_target
         = Some (inl (UnExportedError t)))
   ↔ is_exported exported_target = false) ∧
  (is_exported exported_target = false →
   reduced_dependencies 0 exported_target
     = Some (inl (UnExportedError exported_target))).
Proof.
  split; [split|].
  - intros [t Hrun]. revert Hrun. unfold reduced_dependencies.
    destruct (is_exported exported_target); [|done]. simpl.
    destruct (_walk _ fuel (derived_from exported_target) [])
      as [d|]; simpl; [|done].
    destruct (resolve_owners fuel (odict_keys d) d) as [[e|d']|] eqn:Hr;
      simpl; [|..|done].
    + intros [= ->]. by apply resolve_owners_raised in Hr as (?&?&?).
    + by destruct (_walk _ fuel exported_target []).
  - intros Hne. exists exported_target.
    unfold reduced_dependencies. by rewrite Hne.
  - intros Hne. unfold reduced_dependencies. by rewrite Hne.
Qed.

(** C2. A result of [reduced_dependencies] does not hold the exported
    target it was computed for, and holds original targets only. *)
Theorem reduced_excludes_self_and_synthetic fuel exported_target reduced :
  reduced_dependencies fuel exported_target = Some (inr reduced) →
  (exported_target ∉ reduced) ∧ Forall (λ d, is_original d = true) reduced.
Proof.
  unfold reduced_dependencies.
  destruct (negb (is_exported exported_target)); [done|].
  destruct (_walk _ fuel (derived_from exported_target) [])
    as [d|]; simpl; [|done].
  destruct (resolve_owners fuel (odict_keys d) d) as [[e|d']|]; simpl;
    [done| |done].
  destruct (_walk _ fuel exported_target []) as [rd|] eqn:Hrd; simpl; [|done].
  intros [= <-]. split.
  - rewrite list_elem_of_filter. intros [_ Hin]. revert Hin.
    eapply (_walk_invariant_on dependencies _ (λ _, True) (λ rd, exported_target ∉ rd));
      [done| |done| |exact Hrd].
    + intros rd0 current _ Hrd0.
      unfold collect_reduced_dependencies.
      case_decide as Hcur; [done|]. simpl.
      destruct (mjoin _) as [o|]; [case_decide|];
        rewrite elem_of_oset_add; naive_solver.
    + apply not_elem_of_nil.
  - apply Forall_forall. intros x [Hx _]%list_elem_of_filter.
    by apply Is_true_true.
Qed.

(** On a finite build graph, [reduced_dependencies] ends whatever
    fuel above the size of the graph it is given, and its outcome does
    not depend on that fuel. *)
Lemma reduced_dependencies_fuel_independent (U : gset T) fuel1 fuel2
    exported_target :
  build_graph_closed U → exported_target ∈ U →
  size U < fuel1 → size U < fuel2 →
  ∃ outcome,
    reduced_dependencies fuel1 exported_target = Some outcome ∧
    reduced_dependencies fuel2 exported_target = Some outcome.
Proof.
  intros Hclosed Hin Hf1 Hf2.
  destruct (reduced_dependencies_terminates U Hclosed fuel1 exported_target)
    as [r1 H1]; [done..|].
  destruct (reduced_dependencies_terminates U Hclosed fuel2 exported_target)
    as [r2 H2]; [done..|].
  exists r1. split; [done|]. rewrite H2. f_equal.
  pose proof (reduced_dependencies_fuel_mono fuel1 (fuel1 `max` fuel2)
                exported_target r1 (Nat.le_max_l _ _) H1) as H1'.
  pose proof (reduced_dependencies_fuel_mono fuel2 (fuel1 `max` fuel2)
                exported_target r2 (Nat.le_max_r _ _) H2) as H2'.
  congruence.
Qed.

Lemma potential_owners_none (U : gset T) fuel owned :
  build_graph_closed U → owned ∈ U → size U < fuel →
  Forall (λ po, is_potential_owner fuel owned po = false) (lineage owned) →
  potential_owners fuel owned = Some [].
Proof.
  intros Hclosed Hin Hfuel Hnone.
  destruct (potential_owners_terminates U Hclosed fuel owned) as [l Hl];
    [done..|].
  rewrite Hl. f_equal.
  eapply (for_each_invariant (λ l, l = [])); [|done|exact Hl].
  intros owners po owners' Hpo -> Hstep.
  rewrite Forall_forall in Hnone. specialize (Hnone po Hpo).
  unfold is_potential_owner in Hnone.
  destruct (is_exported po); [|by simplify_eq]. simpl in *.
  destruct (_closure fuel po) as [c|]; simpl in *; [|done].
  case_decide; [|by simplify_eq]. by rewrite bool_decide_eq_true_2 in Hnone.
Qed.

(** C5. On a finite build graph, when a target collected by the first
    pass requires export, is not exported, and no target of its ancestor
    lineage is exported with a closure that holds it,
    [reduced_dependencies] raises an error: [NoOwnerError] for that
    target, unless resolving a target collected before it has already
    raised its own [NoOwnerError] or [AmbiguousOwnerError]. *)
Theorem no_owner_raises (U : gset T) fuel exported_target pre owned post :
  build_graph_closed U → exported_target ∈ U → size U < fuel →
  is_exported exported_target = true →
  provisional fuel exported_target = Some (pre ++ owned :: post) →
  requires_export owned = true → is_exported owned = false →
  Forall (λ po, is_potential_owner fuel owned po = false) (lineage owned) →
  ∃ e, reduced_dependencies fuel exported_target = Some (inl e) ∧
       (e = NoOwnerError owned ∨ ∃ x, x ∈ pre ∧ raised_for x e).
Proof.
  intros Hclosed Hin Hfuel Hexp Hprov Hreq Hnexp Hnone.
  unfold provisional in Hprov. unfold reduced_dependencies.
  rewrite Hexp. simpl.
  destruct (_walk _ fuel (derived_from exported_target) [])
    as [d|] eqn:Hd; simpl in *; [|done].
  injection Hprov as Hkeys. rewrite Hkeys.
  assert (owned ∈ U) as Howned.
  { apply (provisional_in_graph U Hclosed fuel exported_target d Hin Hd).
    rewrite Hkeys. set_solver. }
  rewrite resolve_owners_app.
  assert (∀ x, x ∈ pre → x ∈ U) as Hpre_in.
  { intros x Hx.
    apply (provisional_in_graph U Hclosed fuel exported_target d Hin Hd).
    rewrite Hkeys. set_solver. }
  destruct (resolve_owners_terminates U Hclosed fuel pre d Hpre_in Hfuel)
    as [[e|d'] Hpre].
  - rewrite Hpre. simpl. exists e. split; [done|]. right.
    by eapply resolve_owners_raised.
  - rewrite Hpre. simpl. rewrite Hreq, Hnexp. simpl.
    unfold resolve_owner.
    rewrite (potential_owners_none U); [|done..]. simpl.
    exists (NoOwnerError owned). split; [done|by left].
Qed.

End CalculatorFacts.

(** *** The element taken by pop *)

Section Pop.
Context {T : Type} `{Countable T}.
Variable is_exported : T → bool.
Variable dependencies : T → list T.
Variable spec_path : T → list string.
Variable iter_targets_in_spec_path : list string → list T.
Variable pop_index : list T → nat.

Local Abbreviation potential_owners :=
  (potential_owners is_exported dependencies spec_path iter_targets_in_spec_path).
Local Abbreviation resolve_owner :=
  (resolve_owner is_exported dependencies spec_path iter_targets_in_spec_path
                 pop_index).

(** The owner is the potential owner that [pop] takes, and the
    error is raised when another one shares its spec path. *)
Lemma resolve_owner_popped fuel owned owners owner rest :
  potential_owners fuel owned = Some owners →
  set_pop pop_index owners = Some (owner, rest) →
  resolve_owner fuel owned =
  match filter (λ o, spec_path o = spec_path owner) rest with
  | [] => Some (inr owner)
  | ambiguous_owners =>
    Some (inl (AmbiguousOwnerError owned owner ambiguous_owners))
  end.
Proof.
  intros Howners Hpop. unfold resolve_owner. rewrite Howners. simpl.
  rewrite Hpop. destruct rest as [|r rest]; [done|].
  by destruct (filter _ (r :: rest)).
Qed.

(** When [pop] takes the potential owner found first, the owner is
    the nearest one, and the error is raised exactly when another
    potential owner shares its spec path. *)
Lemma resolve_owner_first_found fuel owned first others :
  pop_index (first :: others) `mod` S (length others) = 0 →
  potential_owners fuel owned = Some (first :: others) →
  resolve_owner fuel owned =
  match filter (λ o, spec_path o = spec_path first) others with
  | [] => Some (inr first)
  | ambiguous_owners =>
    Some (inl (AmbiguousOwnerError owned first ambiguous_owners))
  end.
Proof.
  intros Hpop Howners. apply resolve_owner_popped with (first :: others);
    [done|].
  unfold set_pop. simpl length. by rewrite Hpop.
Qed.
End Pop.

(** *** The calculator on concrete graphs *)

Section OnTables.

(** The walk over a cycle. *)
Lemma walk_visits_once_and_terminates_witness :
  dependency_closed (dependencies (get_target cycle)) (addresses cycle) ∧
  "a:p" ∈ addresses cycle ∧
  size (addresses cycle) < 4 ∧
  ∃ log s',
    _walk (dependencies (get_target cycle)) (logging collect) 4 "a:p" ([], ∅)
      = Some (log, s') ∧
    _walk (dependencies (get_target cycle)) collect 4 "a:p" ∅ = Some s' ∧
    NoDup log.
Proof.
  assert (dependency_closed (dependencies (get_target cycle)) (addresses cycle))
    as Hclosed by (unfold dependency_closed; compute_done).
  assert ("a:p" ∈ addresses cycle) as Hin by compute_done.
  assert (size (addresses cycle) < 4) as Hsize by compute_done.
  split_and!; [done..|].
  exact (walk_visits_once_and_terminates
           (dependencies (get_target cycle)) collect (addresses cycle) 4 "a:p" ∅
           Hclosed Hin Hsize).
Defined.

Lemma unexported_error_iff_witness :
  ((∃ t, reduced nearer_and_farther 0 4 "a/b:x"
         = Some (inl (UnExportedError t)))
   ↔ is_exported (get_target nearer_and_farther) "a/b:x" = false) ∧
  (is_exported (get_target nearer_and_farther) "a/b:x" = false →
   reduced nearer_and_farther 0 0 "a/b:x"
     = Some (inl (UnExportedError "a/b:x"))).
Proof. apply unexported_error_iff. Defined.

Lemma reduced_excludes_self_and_synthetic_witness :
  reduced nearer_and_farther 0 4 "a:e" = Some (inr ["a/b:n"]) ∧
  ("a:e" ∉ ["a/b:n"]) ∧
  Forall (λ d, target_is_original (get_target nearer_and_farther d) = true)
         ["a/b:n"].
Proof.
  assert (reduced nearer_and_farther 0 4 "a:e" = Some (inr ["a/b:n"])) as Hrun
    by (vm_compute; reflexivity).
  split; [done|].
  exact (reduced_excludes_self_and_synthetic _ _ _ _ _ _ _ _ _ _ _ Hrun).
Defined.

(** The library [b:y] lies outside the directory of the exported
    target that depends on it. *)
Lemma no_owner_raises_witness :
  closed unowned ∧ "a:e" ∈ addresses unowned ∧ size (addresses unowned) < 3 ∧
  is_exported (get_target unowned) "a:e" = true ∧
  collected unowned 3 "a:e" = Some ((["a:e"] ++ "b:y" :: [])%list) ∧
  requires_export (get_target unowned) "b:y" = true ∧
  is_exported (get_target unowned) "b:y" = false ∧
  Forall (λ po, candidate unowned 3 "b:y" po = false) (lineage unowned "b:y") ∧
  ∃ e, reduced unowned 0 3 "a:e" = Some (inl e) ∧
       (e = NoOwnerError "b:y" ∨ ∃ x, x ∈ ["a:e"] ∧ raised_for x e).
Proof.
  assert (closed unowned) as Hclosed
    by (unfold closed, build_graph_closed; compute_done).
  assert ("a:e" ∈ addresses unowned) as Hin by compute_done.
  assert (size (addresses unowned) < 3) as Hsize by compute_done.
  assert (collected unowned 3 "a:e" = Some ((["a:e"] ++ "b:y" :: [])%list)) as Hprov
    by (vm_compute; reflexivity).
  assert (Forall (λ po, candidate unowned 3 "b:y" po = false)
                 (lineage unowned "b:y")) as Hnone
    by compute_done.
  split_and!; [done..|].
  exact (no_owner_raises _ _ _ _ _ _ _ (λ _, 0) _ 3 "a:e" ["a:e"] "b:y" []
           Hclosed Hin Hsize eq_refl Hprov eq_refl eq_refl Hnone).
Defined.

(** A target without owner that is collected after a target with
    two owners in one directory: the error raised is the
    [AmbiguousOwnerError] of the earlier target, whichever of the two
    owners [pop] takes. *)
Lemma no_owner_masked_by_ambiguity :
  collected ambiguous_then_unowned 5 "a:e" = Some ["a:e"; "a:x"; "b:y"] ∧
  requires_export (get_target ambiguous_then_unowned) "b:y" = true ∧
  is_exported (get_target ambiguous_then_unowned) "b:y" = false ∧
  Forall (λ po, candidate ambiguous_then_unowned 5 "b:y" po = false)
         (lineage ambiguous_then_unowned "b:y") ∧
  reduced ambiguous_then_unowned 0 5 "a:e"
    = Some (inl (AmbiguousOwnerError "a:x" "a:e" ["a:f"])) ∧
  reduced ambiguous_then_unowned 1 5 "a:e"
    = Some (inl (AmbiguousOwnerError "a:x" "a:f" ["a:e"])) ∧
  ¬ ∃ pop x, pop < 2 ∧
             reduced ambiguous_then_unowned pop 5 "a:e"
               = Some (inl (NoOwnerError x)).
Proof.
  split_and!.
  - vm_compute; reflexivity.
  - reflexivity.
  - reflexivity.
  - compute_done.
  - vm_compute; reflexivity.
  - vm_compute; reflexivity.
  - intros (pop & x & Hpop & Hrun).
    destruct pop as [|[|pop]]; [vm_compute in Hrun..|lia]; discriminate.
Qed.


(** C1. The owner is the element that [pop] takes from the set of
    potential owners, which need not be the one found first.  For
    [a/b:x] the lineage yields [a/b:n] before [a:e]; when [pop] takes
    the second element, [a:e] becomes the owner and [a/b:x] is reduced
    into [a:e]; with a second exported target next to [a:e], the same
    [pop] raises [AmbiguousOwnerError] although [a/b:n], found first,
    shares its directory with no other potential owner.  When [pop]
    takes the first element, [a/b:n] is the owner in both graphs. *)
Theorem owner_is_popped_not_first_found :
  lineage nearer_and_farther "a/b:x" = ["a/b:n"; "a/b:x"; "a:e"] ∧
  owners nearer_and_farther 4 "a/b:x" = Some ["a/b:n"; "a:e"] ∧
  resolved nearer_and_farther 1 4 "a/b:x" = Some (inr "a:e") ∧
  reduced nearer_and_farther 1 4 "a:e" = Some (inr ["a/b:x"]) ∧
  owners nearer_and_two_farther 5 "a/b:x" = Some ["a/b:n"; "a:e"; "a:f"] ∧
  resolved nearer_and_two_farther 1 5 "a/b:x"
    = Some (inl (AmbiguousOwnerError "a/b:x" "a:e" ["a:f"])) ∧
  resolved nearer_and_farther 0 4 "a/b:x" = Some (inr "a/b:n") ∧
  resolved nearer_and_two_farther 0 5 "a/b:x" = Some (inr "a/b:n").
Proof. split_and!; vm_compute; reflexivity. Qed.
End OnTables.

(** ** Strings and packages *)

Lemma append_cons c a b : String c a +:+ b = String c (a +:+ b).
Proof. done. Qed.

Lemma append_nil_l b : "" +:+ b = b.
Proof. done. Qed.

Lemma string_app_assoc a b c : (a +:+ b) +:+ c = a +:+ (b +:+ c).
Proof.
  induction a as [|x a IH]; [done|]. by rewrite !append_cons, IH.
Qed.

Section Strings.
Variable sep : ascii.

Lemma split_nonempty s : split sep s ≠ [].
Proof.
  destruct s as [|c s]; simpl; [done|].
  case_decide; [done|]. by destruct (split sep s).
Qed.

Lemma concat_cons x y l :
  String.concat (String sep "") (x :: y :: l) =
  x +:+ String sep (String.concat (String sep "") (y :: l)).
Proof. done. Qed.

(** ['.'.join(s.split('.'))] is [s]. *)
Lemma join_split s : String.concat (String sep "") (split sep s) = s.
Proof.
  induction s as [|c s IH]; simpl; [done|].
  pose proof (split_nonempty s) as Hne.
  destruct (split sep s) as [|piece pieces] eqn:Hs; [done|].
  case_decide as Hc.
  - rewrite concat_cons, IH. by subst.
  - destruct pieces as [|piece' pieces]; simpl in *; by rewrite <-IH.
Qed.

Lemma concat_app l1 l2 :
  l1 ≠ [] → l2 ≠ [] →
  String.concat (String sep "") (l1 ++ l2) =
  String.concat (String sep "") l1
    +:+ String sep (String.concat (String sep "") l2).
Proof.
  intros Hl1 Hl2. induction l1 as [|x l1 IH]; [done|].
  destruct l1 as [|y l1].
  - destruct l2; [done|]. done.
  - change ((x :: y :: l1) ++ l2) with (x :: y :: (l1 ++ l2)).
    rewrite !concat_cons. change (y :: l1 ++ l2) with ((y :: l1) ++ l2).
    rewrite IH; [|done]. simpl. by rewrite string_app_assoc.
Qed.

(** A piece without separator splits into itself. *)
Lemma split_app_piece x rest :
  split sep x = [x] →
  split sep (x +:+ String sep rest) = x :: split sep rest.
Proof.
  induction x as [|c x IH]; simpl.
  - intros _. by rewrite decide_True.
  - case_decide; [done|].
    destruct (split sep x) as [|p ps] eqn:Hx; [by destruct (split_nonempty x)|].
    intros [= -> ->]. by rewrite IH.
Qed.

Lemma split_pieces s : Forall (λ x, split sep x = [x]) (split sep s).
Proof.
  induction s as [|c s IH]; simpl; [by constructor|].
  case_decide.
  - by constructor.
  - destruct (split sep s) as [|p ps] eqn:Hs; [by destruct (split_nonempty s)|].
    inversion IH as [|?? Hp Hps]; subst. constructor; [|done].
    simpl. rewrite decide_False by done. by rewrite Hp.
Qed.

Lemma split_join l :
  l ≠ [] → Forall (λ x, split sep x = [x]) l →
  split sep (String.concat (String sep "") l) = l.
Proof.
  intros Hne Hl. induction Hl as [|x l Hx Hl IH]; [done|].
  destruct l as [|y l]; [done|].
  rewrite concat_cons, split_app_piece by done. f_equal. by apply IH.
Qed.
End Strings.

Lemma prefix_app a b : String.prefix a (a +:+ b) = true.
Proof.
  induction a as [|c a IH]; simpl; [by destruct b|].
  by destruct (ascii_dec c c).
Qed.

Lemma slice_from_app a b : slice_from (String.length a) (a +:+ b) = b.
Proof. induction a as [|c a IH]; simpl; [by destruct b|done]. Qed.

Lemma string_length_app a b :
  String.length (a +:+ b) = String.length a + String.length b.
Proof. induction a as [|c a IH]; simpl; [done|by rewrite IH]. Qed.

Section Shared.
Context {A : Type} `{EqDecision A}.

(** The shared prefix of two lists, as [shared_prefix] computes it. *)
Local Abbreviation shared a b :=
  ((takewhile (λ pair : A * A, bool_decide (pair.1 = pair.2)) (zip a b)).*1).

Lemma shared_prefix_l (a b : list A) : shared a b `prefix_of` a.
Proof.
  revert b. induction a as [|x a IH]; intros [|y b]; simpl;
    try apply prefix_nil.
  case_bool_decide; simpl; [|apply prefix_nil].
  apply prefix_cons, IH.
Qed.

Lemma shared_prefix_r (a b : list A) : shared a b `prefix_of` b.
Proof.
  revert b. induction a as [|x a IH]; intros [|y b]; simpl;
    try apply prefix_nil.
  case_bool_decide; simpl; [|apply prefix_nil].
  subst. apply prefix_cons, IH.
Qed.

Lemma shared_of_prefix (a b : list A) : b `prefix_of` a → shared a b = b.
Proof.
  intros [k ->]. induction b as [|y b IH]; simpl.
  { by destruct k. }
  rewrite bool_decide_eq_true_2 by done. simpl. f_equal. apply IH.
Qed.
End Shared.

Lemma max_by_len_from {A} (l : list (list A)) (b : list A) :
  ∃ m, foldl (λ best x,
                match best with
                | None => Some x
                | Some b => if length b <? length x then Some x else Some b
                end) (Some b) l = Some m ∧
       (m = b ∨ m ∈ l) ∧ length b ≤ length m ∧
       Forall (λ x, length x ≤ length m) l.
Proof.
  revert b. induction l as [|x l IH]; intros b; simpl.
  - exists b. split_and!; [done|by left|done|constructor].
  - destruct (Nat.ltb_spec (length b) (length x)).
    + destruct (IH x) as (m & -> & Hm & Hle & Hall). exists m.
      split_and!; [done| |lia|constructor; [done|done]].
      right. destruct Hm as [->|?]; [by left|by right].
    + destruct (IH b) as (m & -> & Hm & Hle & Hall). exists m.
      split_and!; [done| |done|constructor; [lia|done]].
      destruct Hm as [->|?]; [by left|right; by right].
Qed.

Lemma max_by_len_spec {A} (l : list (list A)) :
  match max_by_len l with
  | None => l = []
  | Some m => m ∈ l ∧ Forall (λ x, length x ≤ length m) l
  end.
Proof.
  unfold max_by_len. destruct l as [|x l]; simpl; [done|].
  destruct (max_by_len_from l x) as (m & -> & Hm & Hle & Hall).
  split; [|by constructor]. destruct Hm as [->|?]; [by left|by right].
Qed.

(** What [nearest_subpackage] returns. *)
Lemma nearest_subpackage_none package all_packages :
  Forall (λ c, shared_prefix package c = []) all_packages →
  nearest_subpackage package all_packages = package.
Proof.
  intros Hall. unfold nearest_subpackage.
  replace (filter _ _) with (@nil (list string)); [done|].
  symmetry. induction Hall as [|c l Hc Hl IH]; [done|].
  rewrite fmap_cons, filter_cons_False; [done|]. by rewrite Hc; intros [].
Qed.

Lemma nearest_subpackage_some package all_packages :
  Exists (λ c, shared_prefix package c ≠ []) all_packages →
  ∃ c, c ∈ all_packages ∧ shared_prefix package c ≠ [] ∧
       nearest_subpackage package all_packages
         = String.concat "." (shared_prefix package c) ∧
       Forall (λ c', length (shared_prefix package c')
                     ≤ length (shared_prefix package c)) all_packages.
Proof.
  intros Hex. unfold nearest_subpackage.
  pose proof (max_by_len_spec
                (filter (λ _f, _f ≠ []) (shared_prefix package <$> all_packages)))
    as Hmax.
  destruct (max_by_len _) as [m|].
  - destruct Hmax as [[Hm (c & -> & Hc)%list_elem_of_fmap]%list_elem_of_filter Hall].
    exists c. split_and!; [done..|].
    apply Forall_forall. intros c' Hc'.
    destruct (decide (shared_prefix package c' = [])) as [->|Hne];
      [simpl; lia|].
    rewrite Forall_forall in Hall. apply Hall.
    apply list_elem_of_filter. split; [done|].
    apply list_elem_of_fmap. eauto.
  - apply Exists_exists in Hex as (c & Hc & Hne). exfalso.
    assert (shared_prefix package c ∈
            filter (λ _f, _f ≠ []) (shared_prefix package <$> all_packages))
      as Hin.
    { apply list_elem_of_filter. split; [done|]. apply list_elem_of_fmap. eauto. }
    rewrite Hmax in Hin. by apply elem_of_nil in Hin.
Qed.

(** *** Placing a file *)

Lemma shared_prefix_module package c :
  shared_prefix package c `prefix_of` split "." package.
Proof. apply shared_prefix_l. Qed.

Lemma shared_prefix_candidate package c :
  shared_prefix package c `prefix_of` split "." c.
Proof. apply shared_prefix_r. Qed.

Lemma nearest_subpackage_cases package (packages : gset string) :
  (shares_no_prefix package packages ∧
   nearest_subpackage package (elements packages) = package) ∨
  (∃ c, c ∈ packages ∧ shared_prefix package c ≠ [] ∧
        nearest_subpackage package (elements packages)
          = String.concat "." (shared_prefix package c) ∧
        ∀ c', c' ∈ packages →
              length (shared_prefix package c') ≤ length (shared_prefix package c)).
Proof.
  destruct (decide (shares_no_prefix package packages)) as [Hno|Hsome].
  - left. split; [done|]. by apply nearest_subpackage_none.
  - right. apply not_Forall_Exists in Hsome; [|apply _].
    destruct (nearest_subpackage_some package (elements packages))
      as (c & Hc & Hne & Hkey & Hall); [done|].
    exists c. rewrite elem_of_elements in Hc. split_and!; [done..|].
    intros c' Hc'. rewrite Forall_forall in Hall. apply Hall.
    by apply elem_of_elements.
Qed.

(** The module is the nearest subpackage, or lies below it. *)
Lemma nearest_subpackage_above package (packages : gset string) :
  let submodule := nearest_subpackage package (elements packages) in
  submodule = package ∨
  ∃ relative_module, package = submodule +:+ "." +:+ relative_module.
Proof.
  simpl. destruct (nearest_subpackage_cases package packages)
    as [[_ ->]|(c & _ & Hne & -> & _)]; [by left|].
  destruct (shared_prefix_module package c) as [k Hk].
  destruct k as [|x k].
  - left. rewrite app_nil_r in Hk. rewrite <-Hk. apply join_split.
  - right. exists (String.concat "." (x :: k)).
    rewrite <-(join_split "." package) at 1. rewrite Hk.
    by rewrite concat_app.
Qed.

Lemma attribute_spec (packages : gset string) module filename :
  let submodule := nearest_subpackage module (elements packages) in
  ∃ recorded,
    attribute packages module filename = inr (submodule, recorded) ∧
    (submodule = module → recorded = filename) ∧
    (submodule ≠ module →
     ∃ relative_module,
       module = submodule +:+ "." +:+ relative_module ∧
       recorded = os_path_join (replace "." "/" relative_module) filename).
Proof.
  simpl. unfold attribute. case_decide as Heq.
  - exists filename. by split_and!.
  - destruct (nearest_subpackage_above module packages) as [?|[rel Hrel]];
      [done|].
    set (submodule := nearest_subpackage module (elements packages)) in *.
    assert (startswith module (submodule +:+ ".") = true) as ->.
    { unfold startswith. rewrite Hrel at 1.
      rewrite <-string_app_assoc. apply prefix_app. }
    assert (slice_from (String.length submodule + 1) module = rel) as ->.
    { rewrite Hrel at 1. rewrite <-string_app_assoc.
      replace (String.length submodule + 1)
        with (String.length (submodule +:+ ".")); [apply slice_from_app|].
      by rewrite string_length_app. }
    eexists. split_and!; [done|done|]. intros _. by exists rel.
Qed.

(** With the parents of packages being packages, the nearest
    subpackage of a module that shares a prefix with some package is a
    package, contains the module, and lies below every package that
    contains the module. *)
Lemma nearest_subpackage_is_package package (packages : gset string) :
  parents_are_packages packages →
  ¬ shares_no_prefix package packages →
  let submodule := nearest_subpackage package (elements packages) in
  submodule ∈ packages ∧ contains_module submodule package ∧
  ∀ p, p ∈ packages → contains_module p package → contains_module p submodule.
Proof.
  intros Hparents Hshares. simpl.
  destruct (nearest_subpackage_cases package packages)
    as [[? _]|(c & Hc & Hne & -> & Hmax)]; [done|].
  pose proof (shared_prefix_module package c) as Hmod.
  pose proof (shared_prefix_candidate package c) as Hcand.
  set (m := shared_prefix package c) in *.
  assert (split "." (String.concat "." m) = m) as Hsplit.
  { apply split_join; [done|].
    pose proof (split_pieces "." package) as Hpieces.
    destruct Hmod as [k Hk]. rewrite Hk in Hpieces.
    by apply Forall_app in Hpieces as [? _]. }
  split_and!.
  - destruct Hcand as [k Hk]. destruct k as [|x k].
    + rewrite app_nil_r in Hk. rewrite <-Hk, join_split. done.
    + specialize (Hparents c Hc). simpl in Hparents.
      rewrite Forall_forall in Hparents.
      destruct m as [|y m'] eqn:Hm; [done|].
      specialize (Hparents (length m')).
      rewrite Hk in Hparents.
      rewrite take_app_length' in Hparents by done.
      apply Hparents. apply elem_of_seq. rewrite length_app. simpl. lia.
  - unfold contains_module. by rewrite Hsplit.
  - intros p Hp Hcontains. unfold contains_module in *. rewrite Hsplit.
    assert (shared_prefix package p = split "." p) as Hshared
      by by apply shared_of_prefix.
    specialize (Hmax p Hp). rewrite Hshared in Hmax.
    destruct (prefix_weak_total _ _ _ Hcontains Hmod) as [?|Hrev]; [done|].
    by rewrite (prefix_length_eq _ _ Hrev Hmax).
Qed.

(** The order in which the set of packages is iterated does not
    matter. *)
Lemma nearest_subpackage_perm package l1 l2 :
  l1 ≡ₚ l2 → nearest_subpackage package l1 = nearest_subpackage package l2.
Proof.
  intros Hperm.
  destruct (decide (Forall (λ c, shared_prefix package c = []) l1)) as [Hno|Hsome].
  - rewrite !nearest_subpackage_none; [done| |done]. by rewrite <-Hperm.
  - apply not_Forall_Exists in Hsome; [|apply _].
    destruct (nearest_subpackage_some package l1 Hsome)
      as (c1 & Hc1 & _ & -> & Hmax1).
    rewrite Hperm in Hsome.
    destruct (nearest_subpackage_some package l2 Hsome)
      as (c2 & Hc2 & _ & -> & Hmax2).
    rewrite Forall_forall in Hmax1, Hmax2.
    assert (length (shared_prefix package c2) ≤ length (shared_prefix package c1))
      by (apply Hmax1; by rewrite Hperm).
    assert (length (shared_prefix package c1) ≤ length (shared_prefix package c2))
      by (apply Hmax2; by rewrite <-Hperm).
    f_equal.
    destruct (prefix_weak_total _ _ _ (shared_prefix_module package c1)
                                (shared_prefix_module package c2)) as [Hp|Hp].
    + by apply prefix_length_eq.
    + symmetry. by apply prefix_length_eq.
Qed.

Lemma odict_get_resources_add k k' x (r : list (string * gset string)) :
  odict_get k (resources_add k' x r) =
  if decide (k = k') then Some ({[x]} ∪ default ∅ (odict_get k r))
  else odict_get k r.
Proof.
  unfold resources_add. case_decide as Hk.
  - subst. apply odict_get_set_eq.
  - by apply odict_get_set_ne.
Qed.

(** What the second pass records. *)
Lemma establish_resources_spec (packages : gset string) files r0 r :
  establish_resources packages files r0 = inr r →
  ∀ k x,
    (∃ s, odict_get k r = Some s ∧ x ∈ s) ↔
    (∃ s, odict_get k r0 = Some s ∧ x ∈ s) ∨
    ∃ module filename real_filename,
      (module, filename, real_filename) ∈ files ∧
      endswith filename ".py" && bool_decide (module ∈ packages) = false ∧
      attribute packages module filename = inr (k, x).
Proof.
  revert r0. induction files as [|[[module filename] real] files IH];
    intros r0 Hrun k x; simpl in Hrun.
  { simplify_eq. split; [by left|].
    intros [?|(? & ? & ? & ?%elem_of_nil & _)]; done. }
  destruct (endswith filename ".py" && bool_decide (module ∈ packages))
    eqn:Hskip.
  - rewrite (IH _ Hrun). split.
    + intros [?|(m & f & rf & ? & ?)]; [by left|right].
      exists m, f, rf. split; [by right|done].
    + intros [?|(m & f & rf & [?|?]%elem_of_cons & Hkeep & ?)]; [by left| |].
      * simplify_eq. congruence.
      * right. by exists m, f, rf.
  - destruct (attribute packages module filename) as [e|[sub rec]] eqn:Hattr;
      [done|].
    rewrite (IH _ Hrun). rewrite odict_get_resources_add. split.
    + intros [(s & Hs & Hx)|(m & f & rf & ? & ?)].
      * destruct (decide (k = sub)) as [->|Hk]; [|left; by exists s].
        simplify_eq.
        apply elem_of_union in Hx as [->%elem_of_singleton|Hx].
        -- right. exists module, filename, real. split; [by left|done].
        -- left. destruct (odict_get sub r0) as [s|]; [by exists s|].
           by apply elem_of_empty in Hx.
      * right. exists m, f, rf. split; [by right|done].
    + intros [(s & Hs & Hx)|(m & f & rf & [?|?]%elem_of_cons & Hkeep & Ha)].
      * left. destruct (decide (k = sub)) as [->|Hk]; [|by exists s].
        eexists. split; [done|]. rewrite Hs. simpl.
        apply elem_of_union. by right.
      * simplify_eq. rewrite Hattr in Ha. simplify_eq. left.
        rewrite decide_True by done.
        eexists. split; [done|]. apply elem_of_union. left.
        by apply elem_of_singleton.
      * right. by exists m, f, rf.
Qed.

(** A package that contains a module shares a leading name with
    it. *)
Lemma contains_module_shares (packages : gset string) module p :
  shares_no_prefix module packages → p ∈ packages → ¬ contains_module p module.
Proof.
  unfold shares_no_prefix, contains_module. rewrite Forall_forall.
  intros Hno Hp Hcontains. specialize (Hno p).
  rewrite elem_of_elements in Hno. specialize (Hno Hp).
  unfold shared_prefix in Hno. rewrite shared_of_prefix in Hno by done.
  by apply (split_nonempty "." p).
Qed.

(** C7. When the parents of the packages found are packages, every
    non-source file of the tree is recorded in the resources: for the
    nearest package that contains its module, when some package
    contains it, and under its own module path otherwise.  It is
    recorded by its bare file name when it is filed under its own
    module, and otherwise by the path below the package, the dots of
    the remaining module path turned into separators, joined with the
    file name.  With the packages [a] and [a.b], the file
    [a/b/c/data.txt] is recorded for [a.b] as [c/data.txt]. *)
Theorem resource_attribution base tree filter_namespace_packages
    (packages namespace_packages : gset string) resources
    module filename real_filename :
  find_packages base tree filter_namespace_packages
    = inr (packages, namespace_packages, resources) →
  parents_are_packages packages →
  (module, filename, real_filename) ∈ iter_files base tree →
  endswith filename ".py" = false →
  (∃ package recorded files,
     odict_get package resources = Some files ∧ recorded ∈ files ∧
     ((package ∈ packages ∧ contains_module package module ∧
       ∀ p, p ∈ packages → contains_module p module →
            contains_module p package) ∨
      (set_Forall (λ p, ¬ contains_module p module) packages ∧
       package = module)) ∧
     ((package = module ∧ recorded = filename) ∨
      ∃ relative_module,
        module = package +:+ "." +:+ relative_module ∧
        recorded = os_path_join (replace "." "/" relative_module) filename)) ∧
  find_packages "src" staged_example no_namespaces
    = inr ({["a"; "a.b"]}, ∅, [("a.b", {["c/data.txt"]})]).
Proof.
  intros Hrun Hparents Hfile Hsource. split; [|by vm_compute].
  unfold find_packages in Hrun.
  destruct (establish_packages base tree) as [ps inits_to_check].
  destruct (filter_namespace_packages (odict_keys inits_to_check))
    as [declared|]; [|done].
  destruct (mapM _ declared) as [modules|]; [|done].
  destruct (establish_resources ps (iter_files base tree) []) as [e|r]
    eqn:Hres; [done|].
  simplify_eq.
  set (package := nearest_subpackage module (elements packages)).
  destruct (attribute_spec packages module filename)
    as (recorded & Hattr & Hsame & Hbelow).
  fold package in Hattr, Hsame, Hbelow.
  destruct (proj2 (establish_resources_spec _ _ _ _ Hres package recorded))
    as (files & Hfiles & Hin).
  { right. exists module, filename, real_filename.
    split_and!; [done| |done]. by rewrite Hsource. }
  exists package, recorded, files. split_and!; [done|done| |].
  - destruct (decide (shares_no_prefix module packages)) as [Hno|Hshares].
    + right. split.
      * intros p Hp. by apply (contains_module_shares packages).
      * by apply nearest_subpackage_none.
    + left. by apply nearest_subpackage_is_package.
  - destruct (decide (package = module)) as [Heq|Hne]; [left|right]; auto.
Qed.

(** A resource in the directory of the package [a] and one two
    directories below the package [a.b]. *)
Lemma resource_attribution_witness :
  find_packages "src" staged_with_data no_namespaces
    = inr ({["a"; "a.b"]}, ∅,
           [("a", {["data.txt"]}); ("a.b", {["c/data.txt"]})]) ∧
  parents_are_packages {["a"; "a.b"]} ∧
  ("a.b.c", "data.txt", "src/a/b/c/data.txt")
    ∈ iter_files "src" staged_with_data ∧
  endswith "data.txt" ".py" = false ∧
  ∃ package recorded files,
    odict_get package
      [("a", ({["data.txt"]} : gset string)); ("a.b", {["c/data.txt"]})]
      = Some files ∧
    recorded ∈ files ∧
    ((package ∈ ({["a"; "a.b"]} : gset string) ∧
      contains_module package "a.b.c" ∧
      ∀ p, p ∈ ({["a"; "a.b"]} : gset string) → contains_module p "a.b.c" →
           contains_module p package) ∨
     (set_Forall (λ p, ¬ contains_module p "a.b.c")
                 ({["a"; "a.b"]} : gset string) ∧
      package = "a.b.c")) ∧
    ((package = "a.b.c" ∧ recorded = "data.txt") ∨
     ∃ relative_module,
       "a.b.c" = package +:+ "." +:+ relative_module ∧
       recorded = os_path_join (replace "." "/" relative_module) "data.txt").
Proof.
  assert (find_packages "src" staged_with_data no_namespaces
          = inr ({["a"; "a.b"]}, ∅,
                 [("a", {["data.txt"]}); ("a.b", {["c/data.txt"]})])) as Hrun
    by (vm_compute; reflexivity).
  assert (parents_are_packages {["a"; "a.b"]}) as Hparents
    by (unfold parents_are_packages; compute_done).
  assert (("a.b.c", "data.txt", "src/a/b/c/data.txt")
            ∈ iter_files "src" staged_with_data) as Hfile by compute_done.
  assert (endswith "data.txt" ".py" = false) as Hsource by reflexivity.
  split; [exact Hrun|]. split; [exact Hparents|]. split; [exact Hfile|].
  split; [exact Hsource|].
  exact (proj1 (resource_attribution "src" staged_with_data no_namespaces
                  _ _ _ "a.b.c" "data.txt" "src/a/b/c/data.txt"
                  Hrun Hparents Hfile Hsource)).
Defined.

(** A non-source file below no package is recorded under its own
    module path, which is not a package: no package contains it. *)
Lemma unpackaged_file_keeps_its_module :
  find_packages "src" staged_with_lib no_namespaces
    = inr ({["a"; "a.b"]}, ∅, [("lib", {["data.txt"]})]) ∧
  ("lib", "data.txt", "src/lib/data.txt") ∈ iter_files "src" staged_with_lib ∧
  endswith "data.txt" ".py" = false ∧
  ("lib" ∉ ({["a"; "a.b"]} : gset string)) ∧
  set_Forall (λ p, ¬ contains_module p "lib") ({["a"; "a.b"]} : gset string).
Proof.
  split_and!; [by vm_compute|compute_done|reflexivity|compute_done|].
  unfold contains_module. compute_done.
Qed.

(** Where a parent of a package is not a package, the prefix shared
    with the deeper package is chosen although it is no package, and
    the package that does contain the module is passed over. *)
Lemma shared_prefix_need_not_be_a_package :
  attribute {["a"; "a.b.z"]} "a.b.c" "data.txt" = inr ("a.b", "c/data.txt") ∧
  ("a.b" ∉ ({["a"; "a.b.z"]} : gset string)) ∧
  contains_module "a" "a.b.c" ∧
  ¬ parents_are_packages {["a"; "a.b.z"]}.
Proof.
  split_and!.
  - by vm_compute.
  - compute_done.
  - by exists ["b"; "c"].
  - unfold parents_are_packages. compute_done.
Qed.

(** *** The keys of the resources *)

Lemma establish_resources_keys (packages : gset string) files r0 r :
  establish_resources packages files r0 = inr r →
  ∀ k, k ∈ odict_keys r →
       k ∈ odict_keys r0 ∨
       ∃ module filename real_filename,
         (module, filename, real_filename) ∈ files ∧
         k = nearest_subpackage module (elements packages).
Proof.
  revert r0. induction files as [|[[module filename] real] files IH];
    intros r0 Hrun k Hk; simpl in *.
  - left. by simplify_eq.
  - destruct (endswith filename ".py" && bool_decide (module ∈ packages)).
    + destruct (IH _ Hrun k Hk) as [?|(m & f & rf & ? & ?)]; [by left|].
      right. exists m, f, rf. split; [by right|done].
    + destruct (attribute_spec packages module filename) as (rec & Hatt & _).
      rewrite Hatt in Hrun.
      destruct (IH _ Hrun k Hk) as [Hin|(m & f & rf & ? & ?)].
      * unfold resources_add in Hin.
        apply elem_of_odict_keys_set in Hin as [->|?]; [|by left].
        right. exists module, filename, real. split; [by left|done].
      * right. exists m, f, rf. split; [by right|done].
Qed.

(** C8. When the parents of the detected packages are packages, every
    key of the resources is a detected package, or else the module of a
    file of the tree that shares no leading name with any package. *)
Theorem resource_keys base tree filter_namespace_packages
    (packages namespace_packages : gset string) resources :
  find_packages base tree filter_namespace_packages
    = inr (packages, namespace_packages, resources) →
  parents_are_packages packages →
  ∀ k, k ∈ odict_keys resources →
       k ∈ packages ∨
       (shares_no_prefix k packages ∧
        ∃ filename real_filename,
          (k, filename, real_filename) ∈ iter_files base tree).
Proof.
  unfold find_packages. intros Hrun Hparents k Hk.
  destruct (establish_packages base tree) as [pk inits].
  destruct (filter_namespace_packages _) as [found|]; [|done].
  destruct (mapM _ found) as [modules|]; [|done].
  destruct (establish_resources pk (iter_files base tree) [])
    as [e|r] eqn:Hres; [done|].
  injection Hrun as -> _ ->.
  destruct (establish_resources_keys _ _ _ _ Hres k Hk)
    as [Hnil|(module & filename & real & Hin & ->)].
  { by apply elem_of_nil in Hnil. }
  destruct (nearest_subpackage_cases module packages) as [[Hno Heq]|_].
  - right. rewrite Heq. split; [done|]. by exists filename, real.
  - destruct (decide (shares_no_prefix module packages)) as [Hno|Hsome].
    + right. rewrite nearest_subpackage_none by done.
      split; [done|]. by exists filename, real.
    + left. by apply nearest_subpackage_is_package.
Qed.

Lemma resource_keys_witness :
  find_packages "src" staged_example no_namespaces
    = inr ({["a"; "a.b"]}, ∅, [("a.b", {["c/data.txt"]})]) ∧
  parents_are_packages {["a"; "a.b"]} ∧
  "a.b" ∈ odict_keys [("a.b", ({["c/data.txt"]} : gset string))] ∧
  ("a.b" ∈ ({["a"; "a.b"]} : gset string) ∨
   (shares_no_prefix "a.b" {["a"; "a.b"]} ∧
    ∃ filename real_filename,
      ("a.b", filename, real_filename) ∈ iter_files "src" staged_example)).
Proof.
  assert (find_packages "src" staged_example no_namespaces
          = inr ({["a"; "a.b"]}, ∅, [("a.b", {["c/data.txt"]})])) as Hrun
    by (vm_compute; reflexivity).
  assert (parents_are_packages {["a"; "a.b"]}) as Hparents
    by (unfold parents_are_packages; compute_done).
  assert ("a.b" ∈ odict_keys [("a.b", ({["c/data.txt"]} : gset string))]) as Hk
    by (simpl; apply list_elem_of_here).
  split_and!; [done..|].
  exact (resource_keys _ _ _ _ _ _ Hrun Hparents "a.b" Hk).
Defined.

(** A resource outside every package is filed under its own module
    path, which is not a package. *)
Lemma resource_key_outside_packages :
  find_packages "src" staged_with_docs no_namespaces
    = inr ({["a"]}, ∅, [("docs", {["index.txt"]})]) ∧
  "docs" ∈ odict_keys [("docs", ({["index.txt"]} : gset string))] ∧
  "docs" ∉ ({["a"]} : gset string).
Proof.
  split_and!; [by vm_compute|simpl; apply list_elem_of_here|compute_done].
Qed.

(** ** install_requires *)

Lemma oset_fold_first `{EqDecision A} (xs : list A) :
  foldl (λ acc x, oset_add x acc) [] xs = reverse (remove_dups (reverse xs)).
Proof.
  induction xs as [|x xs IH] using rev_ind; [done|].
  rewrite foldl_app, reverse_app. simpl. rewrite IH.
  unfold oset_add.
  destruct (decide (x ∈ reverse (remove_dups (reverse xs)))) as [Hin|Hin],
           (decide_rel elem_of x (reverse xs)) as [Hin'|Hin'];
    [done| | |by rewrite reverse_cons].
  - by rewrite elem_of_reverse, elem_of_remove_dups in Hin.
  - by rewrite elem_of_reverse, elem_of_remove_dups in Hin.
Qed.

Section InstallRequires.
Context {T : Type} `{Countable T}.
Variable get_target : T → Target T.
Variable set_order : gset string → list string.

Local Abbreviation install_requires := (install_requires get_target).
Local Abbreviation requirement_strings := (requirement_strings get_target).
Local Abbreviation write_setup := (write_setup get_target set_order).

Lemma install_requires_fold (reduced_dependencies : list T) :
  install_requires reduced_dependencies =
  foldl (λ acc x, oset_add x acc) []
        (reduced_dependencies ≫= requirement_strings).
Proof.
  unfold install_requires. generalize (@nil string).
  induction reduced_dependencies as [|dep l IH]; intros acc; simpl; [done|].
  rewrite foldl_app, IH. f_equal. unfold requirement_strings.
  destruct (is_requirements get_target dep); [done|].
  destruct (has_provides get_target dep); [|done].
  by destruct (provides (get_target dep)).
Qed.

Lemma add_console_script_other binary_name entry_point kw kw' k :
  k ≠ "entry_points" →
  add_console_script binary_name entry_point kw = inr kw' →
  odict_get k kw' = odict_get k kw.
Proof.
  intros Hne. unfold add_console_script.
  set (kw1 := if decide ("entry_points" ∈ odict_keys kw) then kw
              else odict_set "entry_points" (PyDict []) kw).
  assert (odict_get k kw1 = odict_get k kw) as <-.
  { unfold kw1. case_decide; [done|]. by apply odict_get_set_ne. }
  destruct (odict_get "entry_points" kw1) as [[| |entry_points]|]; try done.
  destruct (odict_get "console_scripts" _) as [[|console_scripts|]|]; try done.
  intros [= <-]. by apply odict_get_set_ne.
Qed.

(** C6. In the keywords that [write_setup] hands to [setup()],
    [install_requires] is the list that [install_requires] computes from
    the reduced dependencies.  It holds the requirement strings of the
    requirement libraries and the keys of the artifacts of the targets
    with [provides] among them, each once, in the order of their first
    occurrence along the reduced dependencies: it is not sorted. *)
Theorem install_requires_keyword root_target reduced_dependencies found
    setup_keywords :
  write_setup root_target reduced_dependencies found = inr setup_keywords →
  odict_get "install_requires" setup_keywords
    = Some (PyList (PyStr <$> install_requires reduced_dependencies)) ∧
  install_requires reduced_dependencies
    = reverse (remove_dups
                 (reverse (reduced_dependencies ≫= requirement_strings))) ∧
  NoDup (install_requires reduced_dependencies) ∧
  ∀ x, x ∈ install_requires reduced_dependencies ↔
       ∃ dep, dep ∈ reduced_dependencies ∧ x ∈ requirement_strings dep.
Proof.
  intros Hrun.
  assert (install_requires reduced_dependencies
          = reverse (remove_dups
                       (reverse (reduced_dependencies ≫= requirement_strings))))
    as Hfirst by (by rewrite install_requires_fold, oset_fold_first).
  split_and!; [|done|..].
  - unfold write_setup in Hrun.
    destruct (provides (get_target root_target)) as [artifact|]; [|done].
    destruct found as [[packages namespace_packages] resources].
    revert Hrun.
    match goal with
    | |- foldl _ (inr ?kw) _ = _ → _ =>
      assert (odict_get "install_requires" kw
              = Some (PyList (PyStr <$> install_requires reduced_dependencies)))
        as Hkw by apply odict_get_set_eq;
      revert Hkw; generalize kw
    end.
    induction (iter_entry_points get_target root_target) as [|entry l IH];
      intros kw Hkw Hrun; simpl in Hrun.
    + by simplify_eq.
    + destruct entry as [e|[binary_name entry_point]].
      * exfalso. clear -Hrun. induction l as [|? l IHl]; [done|]. by apply IHl.
      * destruct (add_console_script binary_name entry_point kw)
          as [e|kw1] eqn:Hadd.
        -- exfalso. clear -Hrun. induction l as [|? l IHl]; [done|].
           by apply IHl.
        -- apply (IH kw1); [|done].
           rewrite <-Hkw. by eapply add_console_script_other.
  - rewrite Hfirst, reverse_Permutation. apply NoDup_remove_dups.
  - intros x. rewrite Hfirst, elem_of_reverse, elem_of_remove_dups,
      elem_of_reverse, list_elem_of_bind. naive_solver.
Qed.
End InstallRequires.

Lemma install_requires_keyword_witness :
  write_setup (get_target with_requirements) elements "p:a"
              ["3rdparty:reqs"; "q:b"] ({["a"]}, ∅, [])
    = inr [("name", PyStr "a"); ("version", PyStr "1.0");
           ("package_dir", PyDict [("", PyStr "src")]);
           ("packages", PyList [PyStr "a"]); ("package_data", PyDict []);
           ("install_requires",
            PyList [PyStr "zope.interface==4.0"; PyStr "attrs==19.1";
                    PyStr "b==1.0"])] ∧
  install_requires (get_target with_requirements) ["3rdparty:reqs"; "q:b"]
    = ["zope.interface==4.0"; "attrs==19.1"; "b==1.0"] ∧
  NoDup (install_requires (get_target with_requirements)
                          ["3rdparty:reqs"; "q:b"]).
Proof.
  assert (write_setup (get_target with_requirements) elements "p:a"
                      ["3rdparty:reqs"; "q:b"] ({["a"]}, ∅, [])
          = inr [("name", PyStr "a"); ("version", PyStr "1.0");
                 ("package_dir", PyDict [("", PyStr "src")]);
                 ("packages", PyList [PyStr "a"]); ("package_data", PyDict []);
                 ("install_requires",
                  PyList [PyStr "zope.interface==4.0"; PyStr "attrs==19.1";
                          PyStr "b==1.0"])]) as Hrun
    by (vm_compute; reflexivity).
  destruct (install_requires_keyword _ _ _ _ _ _ Hrun) as (_ & _ & Hnodup & _).
  split_and!; [exact Hrun|by vm_compute|exact Hnodup].
Defined.

(** The requirements keep the order of the reduced dependencies. *)
Lemma install_requires_not_sorted :
  reduced with_requirements 0 4 "p:a" = Some (inr ["3rdparty:reqs"; "q:b"]) ∧
  (∃ setup_keywords,
     write_setup (get_target with_requirements) elements "p:a"
                 ["3rdparty:reqs"; "q:b"] ({["a"]}, ∅, []) = inr setup_keywords ∧
     odict_get "install_requires" setup_keywords
       = Some (PyList [PyStr "zope.interface==4.0"; PyStr "attrs==19.1";
                       PyStr "b==1.0"])) ∧
  ¬ Sorted String.le ["zope.interface==4.0"; "attrs==19.1"; "b==1.0"].
Proof.
  split_and!.
  - by vm_compute.
  - eexists. split; by vm_compute.
  - intros Hs. apply Sorted_inv in Hs as [_ Hhd].
    apply HdRel_inv in Hhd. by vm_compute in Hhd.
Qed.

(** ** The run phase *)

Lemma invoked_before_asym {A} (trace : list A) a b :
  NoDup trace →
  (∃ l1 l2 l3, trace = l1 ++ b :: l2 ++ a :: l3) →
  (∃ l1 l2 l3, trace = l1 ++ a :: l2 ++ b :: l3) → False.
Proof.
  intros Hnd (l1 & l2 & l3 & H1) (k1 & k2 & k3 & H2).
  assert (trace !! length l1 = Some b) as Hb1
    by (rewrite H1; by apply list_lookup_middle).
  assert (trace !! (length l1 + S (length l2)) = Some a) as Ha1.
  { rewrite H1. change (l1 ++ b :: l2 ++ a :: l3) with (l1 ++ (b :: l2) ++ a :: l3).
    rewrite app_assoc. apply list_lookup_middle. rewrite length_app. simpl. lia. }
  assert (trace !! length k1 = Some a) as Ha2
    by (rewrite H2; by apply list_lookup_middle).
  assert (trace !! (length k1 + S (length k2)) = Some b) as Hb2.
  { rewrite H2. change (k1 ++ a :: k2 ++ b :: k3) with (k1 ++ (a :: k2) ++ b :: k3).
    rewrite app_assoc. apply list_lookup_middle. rewrite length_app. simpl. lia. }
  pose proof (NoDup_lookup _ _ _ _ Hnd Hb1 Hb2).
  pose proof (NoDup_lookup _ _ _ _ Hnd Ha1 Ha2). lia.
Qed.

Section RunPhase.
Context {T : Type} `{Countable T}.
Variable get_target : T → Target T.
Variable sort_targets : list T → list T.
Variable run_option : option string.
Variable dist_dir : string.
Variable sdist_name : string → option string.
Variable setup_runner_run : string → string → bool.

Local Abbreviation run_targets :=
  (run_targets run_option dist_dir sdist_name setup_runner_run).
Local Abbreviation run_phase :=
  (run_phase sort_targets run_option dist_dir sdist_name setup_runner_run).
Local Abbreviation depends_on := (depends_on get_target).
Local Abbreviation sorted_by_dependencies :=
  (sorted_by_dependencies get_target).

Lemma run_targets_app (created : list (T * string)) (ts1 ts2 : list T) st :
  run_targets created (ts1 ++ ts2) st =
  match run_targets created ts1 st with
  | (st1, Some e) => (st1, Some e)
  | (st1, None) => run_targets created ts2 st1
  end.
Proof.
  revert st. induction ts1 as [|t ts1 IH]; intros st; simpl; [done|].
  destruct (odict_get t created) as [[|c setup_dir]|]; [apply IH| |apply IH].
  destruct run_option as [[|c' cmd]|].
  - destruct (sdist_name _); [apply IH|done].
  - destruct (setup_runner_run _ _); [apply IH|done].
  - destruct (sdist_name _); [apply IH|done].
Qed.

(** The steps invoked by a run are among the targets given, in their
    order. *)
Lemma run_targets_invoked (created : list (T * string)) (ts : list T) st :
  ∃ more, invoked (run_targets created ts st).1 = invoked st ++ more ∧
          more `sublist_of` ts.
Proof.
  revert st. induction ts as [|t ts IH]; intros st; simpl.
  { exists []. by rewrite app_nil_r. }
  assert (∀ st', invoked st' = invoked st ++ [t] →
            ∃ more, invoked (run_targets created ts st').1 = invoked st ++ more ∧
                    more `sublist_of` t :: ts) as Hstep.
  { intros st' Hst'. destruct (IH st') as (more & -> & Hsub).
    exists (t :: more). rewrite Hst', <-app_assoc. split; [done|].
    by apply sublist_skip. }
  assert (∃ more, invoked (run_targets created ts st).1 = invoked st ++ more ∧
                  more `sublist_of` t :: ts) as Hskip.
  { destruct (IH st) as (more & -> & Hsub). exists more. split; [done|].
    by apply sublist_cons. }
  assert (∃ more, invoked st ++ [t] = invoked st ++ more ∧
                  more `sublist_of` t :: ts) as Hfail.
  { exists [t]. split; [done|]. apply sublist_skip, sublist_nil_l. }
  destruct (odict_get t created) as [[|c setup_dir]|]; [done| |done].
  destruct run_option as [[|c' cmd]|].
  - destruct (sdist_name _); [by apply Hstep|done].
  - destruct (setup_runner_run _ _); [by apply Hstep|done].
  - destruct (sdist_name _); [by apply Hstep|done].
Qed.

Lemma run_targets_created (created : list (T * string)) (t : T) ts st :
  is_created created t →
  ∃ more, invoked (run_targets created (t :: ts) st).1
          = invoked st ++ t :: more ∧
          more `sublist_of` ts.
Proof.
  intros (setup_dir & Hget & Hne). simpl. rewrite Hget.
  destruct setup_dir as [|c setup_dir]; [done|].
  assert (∀ st', invoked st' = invoked st ++ [t] →
            ∃ more, invoked (run_targets created ts st').1
                    = invoked st ++ t :: more ∧ more `sublist_of` ts) as Hstep.
  { intros st' Hst'. destruct (run_targets_invoked created ts st')
      as (more & -> & Hsub).
    exists more. by rewrite Hst', <-app_assoc. }
  assert (∃ more, invoked st ++ [t] = invoked st ++ t :: more ∧
                  more `sublist_of` ts) as Hfail.
  { exists []. split; [done|]. apply sublist_nil_l. }
  destruct run_option as [[|c' cmd]|].
  - destruct (sdist_name _); [by apply Hstep|done].
  - destruct (setup_runner_run _ _); [by apply Hstep|done].
  - destruct (sdist_name _); [by apply Hstep|done].
Qed.

(** C9. When [sort_targets] orders the created targets by the
    dependencies of the build graph, dependents first, the run phase
    invokes the step of a created target [b] before the step of every
    created target [a] that depends on [b], directly or not, whenever
    the step of [a] is invoked at all. *)
Theorem dependencies_run_first (created : list (T * string)) (a b : T) :
  sorted_by_dependencies (odict_keys created)
                         (sort_targets (odict_keys created)) →
  is_created created a → is_created created b →
  depends_on a b →
  a ∈ invoked (run_phase created).1 →
  invoked_before (invoked (run_phase created).1) b a.
Proof.
  intros (Hnd & Hall & Horder) Ha Hb Hdep Hinvoked. unfold run_phase in *.
  set (sorted := sort_targets (odict_keys created)) in *.
  set (st0 := {| invoked := []; python_dists := [] |}) in *.
  assert (b ∈ sorted) as Hbs.
  { apply Hall. destruct Hb as (d & Hd & _). by eapply odict_get_keys. }
  apply list_elem_of_split in Hbs as (before & after & Hsorted).
  pose proof (Horder before b after Hsorted a Hdep) as Hnotafter.
  assert (a ∈ sorted) as Has.
  { destruct (run_targets_invoked created (reverse sorted) st0)
      as (more & Hmore & Hsub).
    rewrite Hmore in Hinvoked. simpl in Hinvoked.
    apply elem_of_reverse. by eapply elem_of_sublist. }
  assert (a ∈ before) as Hab.
  { rewrite Hsorted in Has. apply elem_of_app in Has as [?|?]; done. }
  revert Hinvoked.
  rewrite Hsorted, reverse_app, reverse_cons, <-app_assoc. simpl.
  rewrite run_targets_app.
  destruct (run_targets_invoked created (reverse after) st0)
    as (moreA & HmoreA & HsubA).
  pose proof (λ st1, run_targets_created created b (reverse before) st1 Hb)
    as Hcreated.
  destruct (run_targets created (reverse after) st0) as [st1 [e|]];
    cbn [fst] in *.
  - rewrite HmoreA. intros Hin. exfalso. apply Hnotafter. right.
    apply elem_of_reverse. by eapply elem_of_sublist.
  - destruct (Hcreated st1) as (more & Hmore & Hsub).
    rewrite Hmore, HmoreA. simpl.
    intros [Hin|[->|Hin]%elem_of_cons]%elem_of_app.
    + exfalso. apply Hnotafter. right.
      apply elem_of_reverse. by eapply elem_of_sublist.
    + exfalso. apply Hnotafter. by left.
    + apply list_elem_of_split in Hin as (m1 & m2 & ->).
      by exists moreA, m1, m2.
Qed.

Lemma run_phase_NoDup (created : list (T * string)) :
  NoDup (sort_targets (odict_keys created)) →
  NoDup (invoked (run_phase created).1).
Proof.
  intros Hnd. unfold run_phase.
  destruct (run_targets_invoked created
              (reverse (sort_targets (odict_keys created)))
              {| invoked := []; python_dists := [] |})
    as (more & -> & Hsub). simpl.
  eapply sublist_NoDup; [|exact Hsub]. by rewrite reverse_Permutation.
Qed.
End RunPhase.

Lemma chain_depends_on x y :
  depends_on (get_target chain) x y → x = "p:a" ∧ y = "q:b".
Proof.
  assert (∀ x y, y ∈ target_dependencies (get_target chain x) →
                 x = "p:a" ∧ y = "q:b") as Hedge.
  { intros x' y'. unfold get_target, chain. simpl.
    repeat (case_decide; simpl); set_solver. }
  induction 1 as [x y Hxy|x y z Hxy _ IH]; [by apply Hedge|].
  destruct IH as [-> ->]. apply Hedge in Hxy. naive_solver.
Qed.

Lemma dependencies_run_first_witness :
  let sort_targets := λ _ : list string, ["p:a"; "q:b"] in
  sorted_by_dependencies (get_target chain) (odict_keys created_both)
                         (sort_targets (odict_keys created_both)) ∧
  is_created created_both "p:a" ∧ is_created created_both "q:b" ∧
  depends_on (get_target chain) "p:a" "q:b" ∧
  "p:a" ∈ steps ["p:a"; "q:b"] created_both ∧
  invoked_before (steps ["p:a"; "q:b"] created_both) "q:b" "p:a".
Proof.
  simpl.
  assert (sorted_by_dependencies (get_target chain) (odict_keys created_both)
                                 ["p:a"; "q:b"]) as Hsorted.
  { split_and!.
    - compute_done.
    - intros x Hx. exact Hx.
    - intros before y after Heq x [-> ->]%chain_depends_on.
      destruct before as [|? [|? [|? ?]]]; simplify_eq/=. compute_done. }
  assert (is_created created_both "p:a") as Ha by (by eexists).
  assert (is_created created_both "q:b") as Hb by (by eexists).
  assert (depends_on (get_target chain) "p:a" "q:b") as Hdep.
  { apply tc_once. compute_done. }
  assert ("p:a" ∈ steps ["p:a"; "q:b"] created_both) as Hin by compute_done.
  split_and!; [done..|].
  exact (dependencies_run_first (get_target chain) (λ _, ["p:a"; "q:b"])
           None "dist" (λ _, Some "sdist.tar.gz") (λ _ _, true)
           created_both "p:a" "q:b" Hsorted Ha Hb Hdep Hin).
Defined.

(** Two exported targets whose reduced dependencies hold each other:
    whatever the order, one of them is run before the one it refers
    to. *)
Lemma mutual_references_cannot_be_ordered :
  is_created created_both "p:a" ∧ is_created created_both "q:b" ∧
  reduced mutual 0 5 "p:a" = Some (inr ["p/x:x"; "q:b"]) ∧
  reduced mutual 0 5 "q:b" = Some (inr ["p:a"; "q/y:y"]) ∧
  ¬ ∃ sorted,
      NoDup sorted ∧
      referenced_before_referencing created_both (reduced_of mutual)
                                    (steps sorted created_both).
Proof.
  assert (is_created created_both "p:a") as Ha by (by eexists).
  assert (is_created created_both "q:b") as Hb by (by eexists).
  split_and!; [done|done|by vm_compute|by vm_compute|].
  intros (sorted & Hnd & Horder).
  assert ("q:b" ∈ reduced_of mutual "p:a") as Hab by compute_done.
  assert ("p:a" ∈ reduced_of mutual "q:b") as Hba by compute_done.
  eapply (invoked_before_asym (steps sorted created_both) "p:a" "q:b").
  - unfold steps. by apply run_phase_NoDup.
  - by apply Horder.
  - by apply Horder.
Qed.

(** * Further properties of the code *)

(** ** The ancestor lineage *)

Section Lineage.
Context {T : Type}.
Variable spec_path : T → list string.
Variable iter_targets_in_spec_path : list string → list T.

Lemma dirname_take (p : list string) : dirname p = take (length p - 1) p.
Proof.
  unfold dirname. induction p as [|x p IH]; [done|].
  destruct p as [|y p]; [done|].
  change (removelast (x :: y :: p)) with (x :: removelast (y :: p)).
  rewrite IH. simpl. by rewrite Nat.sub_0_r.
Qed.

Lemma list_bind_ext_in {A B} (f g : A → list B) (l : list A) :
  (∀ x, x ∈ l → f x = g x) → l ≫= f = l ≫= g.
Proof.
  induction l as [|x l IH]; intros Hfg; [done|]. simpl.
  rewrite (Hfg x) by (by left). f_equal. apply IH. intros ??. apply Hfg.
  by right.
Qed.

Lemma iter_siblings_and_ancestors_prefixes (p : list string) :
  iter_siblings_and_ancestors iter_targets_in_spec_path (length p) p =
  reverse (seq 0 (S (length p))) ≫= λ k, iter_targets_in_spec_path (take k p).
Proof.
  remember (length p) as n eqn:Hn. revert p Hn.
  induction n as [|n IH]; intros p Hn.
  - by destruct p.
  - assert (reverse (seq 0 (S (S n))) = S n :: reverse (seq 0 (S n))) as ->
      by (by rewrite (seq_S (S n)), reverse_app).
    rewrite bind_cons, (take_ge p (S n)) by lia.
    cbn [iter_siblings_and_ancestors]. f_equal.
    assert (dirname p = take n p) as ->
      by (rewrite dirname_take; f_equal; lia).
    rewrite decide_True.
    2:{ intros Heq. apply (f_equal length) in Heq.
        rewrite length_take in Heq. lia. }
    rewrite (IH (take n p)) by (rewrite length_take; lia).
    apply list_bind_ext_in. intros k Hk.
    rewrite take_take. f_equal.
    apply elem_of_reverse, elem_of_seq in Hk. f_equal. lia.
Qed.

(** X1. The ancestor lineage of a target lists the targets registered
    under its spec path first, and then those under each parent
    directory in turn, nearest first, down to the build root: the
    directories are the leading parts of the spec path, from the whole
    path to the empty one. *)
Theorem lineage_nearest_first (target : T) :
  iter_target_siblings_and_ancestors spec_path iter_targets_in_spec_path target =
  reverse (seq 0 (S (length (spec_path target)))) ≫=
    λ k, iter_targets_in_spec_path (take k (spec_path target)).
Proof. apply iter_siblings_and_ancestors_prefixes. Qed.
End Lineage.

(** ** What a walk visits *)

Section KeptWalk.
Context {T : Type} `{Countable T}.
Variable dependencies : T → list T.
Context {S : Type}.
Variable visitor : T → S → bool * S.
Variable keep : T → bool.
Hypothesis visitor_keep : ∀ t s, (visitor t s).1 = keep t.

Local Abbreviation walk := (walk dependencies).
Local Abbreviation descends := (descends dependencies keep).

Lemma walk_kept_sound target fuel current visited s visited' s' :
  walk visitor fuel current (visited, s) = Some (visited', s') →
  rtc descends target current →
  (∀ x, x ∈ visited → rtc descends target x) →
  ∀ x, x ∈ visited' → rtc descends target x.
Proof.
  revert current visited s visited' s'.
  induction fuel as [|fuel IH]; intros current visited s visited' s' Hrun Hcur Hvis;
    [done|].
  rewrite walk_unfold in Hrun. case_decide as Hin; [by simplify_eq|].
  assert (∀ x, x ∈ {[current]} ∪ visited → rtc descends target x) as Hvis1.
  { intros x [->%elem_of_singleton|?]%elem_of_union; auto. }
  rewrite visitor_keep in Hrun.
  destruct (keep current) eqn:Hkeep; [|by simplify_eq].
  refine (for_each_invariant (λ st, ∀ x, x ∈ st.1 → rtc descends target x)
            _ _ _ (_, _) (_, _) Hvis1 Hrun).
  intros [v1 s1] d [v2 s2] Hd Hv1 Hstep. simpl in *.
  eapply IH; [done| |done].
  eapply rtc_r; [done|]. by split.
Qed.

Lemma walk_kept_complete fuel current visited s visited' s' :
  walk visitor fuel current (visited, s) = Some (visited', s') →
  current ∈ visited' ∧ visited ⊆ visited' ∧
  ∀ x, x ∈ visited' →
       x ∈ visited ∨ (keep x = true → ∀ d, d ∈ dependencies x → d ∈ visited').
Proof.
  revert current visited s visited' s'.
  induction fuel as [|fuel IH]; intros current visited s visited' s' Hrun;
    [done|].
  rewrite walk_unfold in Hrun. case_decide as Hin.
  { simplify_eq. split_and!; [done|done|by left]. }
  rewrite visitor_keep in Hrun.
  destruct (keep current) eqn:Hkeep.
  2:{ simplify_eq. split_and!; [set_solver|set_solver|].
      intros x [->%elem_of_singleton|?]%elem_of_union; [right|by left].
      by rewrite Hkeep. }
  assert (∀ ds v1 s1 v2 s2,
            for_each (λ st d, walk visitor fuel d st) ds (v1, s1)
              = Some (v2, s2) →
            v1 ⊆ v2 ∧ (∀ d, d ∈ ds → d ∈ v2) ∧
            ∀ x, x ∈ v2 →
                 x ∈ v1 ∨
                 (keep x = true → ∀ d, d ∈ dependencies x → d ∈ v2)) as Hloop.
  { induction ds as [|d ds IHds]; intros v1 s1 v2 s2 Hloop; simpl in Hloop.
    - simplify_eq. split_and!; [done|by intros ? ?%elem_of_nil|by left].
    - destruct (walk visitor fuel d (v1, s1)) as [[v s0]|] eqn:Hd;
        simpl in Hloop; [|done].
      destruct (IH _ _ _ _ _ Hd) as (Hdin & Hsub & Hnew).
      destruct (IHds _ _ _ _ Hloop) as (Hsub' & Hall & Hnew').
      split_and!; [set_solver|set_solver|].
      intros x Hx. destruct (Hnew' x Hx) as [Hxv|?]; [|by right].
      destruct (Hnew x Hxv) as [?|Hdeps]; [by left|].
      right. intros Hk d' Hd'. apply Hsub'. by apply Hdeps. }
  destruct (Hloop _ _ _ _ _ Hrun) as (Hsub & Hall & Hnew).
  split_and!; [set_solver|set_solver|].
  intros x Hx. destruct (Hnew x Hx) as [[->%elem_of_singleton|?]%elem_of_union|?];
    [right; auto|by left|by right].
Qed.

Lemma walk_visits_kept fuel target s visited' s' :
  walk visitor fuel target (∅, s) = Some (visited', s') →
  ∀ x, x ∈ visited' ↔ rtc descends target x.
Proof.
  intros Hrun x. split.
  - eapply walk_kept_sound; [done|done|]. set_solver.
  - destruct (walk_kept_complete _ _ _ _ _ _ Hrun) as (Htarget & _ & Hclosed).
    revert x. apply rtc_ind_r; [done|]. intros a b _ [Hk Hab] IH.
    destruct (Hclosed a IH) as [?|Hdeps]; [set_solver|by apply Hdeps].
Qed.
End KeptWalk.

Section KeptWalkLog.
Context {T : Type} `{Countable T}.
Variable dependencies : T → list T.

Local Abbreviation walk := (walk dependencies).
Local Abbreviation _walk := (_walk dependencies).
Local Abbreviation _closure := (_closure dependencies).

(** X2. When whether the visitor asks to go on depends on the target
    alone, a walk calls the visitor on exactly the targets that can be
    reached from the start along dependencies of targets at which the
    visitor asks to go on. *)
Theorem visitor_called_on_kept_reachable {S : Type}
    (visitor : T → S → bool * S) (keep : T → bool) fuel target s log s' :
  (∀ t s, (visitor t s).1 = keep t) →
  _walk (logging visitor) fuel target ([], s) = Some (log, s') →
  ∀ x, x ∈ log ↔ rtc (descends dependencies keep) target x.
Proof.
  intros Hkeep. unfold _walk.
  destruct (walk (logging visitor) fuel target (∅, ([], s)))
    as [[visited [log0 s0]]|] eqn:Hrun; [|done].
  intros [= -> ->] x.
  rewrite <-(walk_visits_kept dependencies (logging visitor) keep
               ltac:(intros t [l s1]; rewrite logging_eq; apply Hkeep)
               fuel target _ _ _ Hrun).
  apply (walk_invariant dependencies (logging visitor)
           (λ vis st, ∀ x, x ∈ st.1 ↔ x ∈ vis)
           ltac:(intros vis [l s1] cur Hl _; rewrite logging_eq;
                 simpl in *; set_solver)
           fuel target ∅ ([], s) visited (log, s') ltac:(set_solver) Hrun).
Qed.

Lemma closure_elem_of fuel target closure :
  _closure fuel target = Some closure →
  ∀ x, x ∈ closure ↔ rtc (depends dependencies) target x.
Proof.
  unfold _closure, _walk.
  destruct (walk collect fuel target (∅, ∅)) as [[visited c]|] eqn:Hrun;
    [|done].
  intros [= <-] x.
  assert (c = visited) as ->.
  { apply (walk_invariant dependencies collect (λ vis c, c = vis)
             ltac:(by intros vis c0 cur -> _)
             fuel target ∅ ∅ visited c eq_refl Hrun). }
  rewrite (walk_visits_kept dependencies collect (λ _, true)
             ltac:(done) fuel target _ _ _ Hrun).
  split; revert x; (apply rtc_ind_r; [done|]); intros a b _ Hab IH;
    (eapply rtc_r; [exact IH|]).
  - by destruct Hab.
  - by split.
Qed.

(** X3. The closure of a target holds exactly the targets that can be
    reached from it along dependencies, the target included. *)
Theorem closure_is_reachable_set fuel target closure :
  _closure fuel target = Some closure →
  ∀ x, x ∈ closure ↔ rtc (depends dependencies) target x.
Proof. apply closure_elem_of. Qed.
End KeptWalkLog.

Lemma closure_is_reachable_set_witness :
  _closure (dependencies (get_target cycle)) 4 "a:p"
    = Some {["a:p"; "a:q"; "a:r"]} ∧
  ∀ x, x ∈ ({["a:p"; "a:q"; "a:r"]} : gset string) ↔
       rtc (depends (dependencies (get_target cycle))) "a:p" x.
Proof.
  assert (_closure (dependencies (get_target cycle)) 4 "a:p"
          = Some {["a:p"; "a:q"; "a:r"]}) as Hrun by (by vm_compute).
  split; [exact Hrun|].
  exact (closure_is_reachable_set _ 4 "a:p" _ Hrun).
Defined.

(** ** The passes of reduced_dependencies *)

Lemma NoDup_odict_keys_set `{EqDecision K} {V} (k : K) (v : V) d :
  NoDup (odict_keys d) → NoDup (odict_keys (odict_set k v d)).
Proof.
  unfold odict_keys. induction d as [|[k' v'] d IH]; simpl.
  - intros _. apply NoDup_singleton.
  - intros [Hk' Hd]%NoDup_cons. case_decide; simpl; subst.
    + by apply NoDup_cons.
    + apply NoDup_cons. split; [|by apply IH].
      intros [?|?]%(elem_of_odict_keys_set (V:=V)); done.
Qed.

Lemma elem_of_delete_NoDup {A} (s : list A) i x :
  NoDup s → s !! i = Some x →
  ∀ y, y ∈ delete i s ↔ y ∈ s ∧ y ≠ x.
Proof.
  revert i. induction s as [|z s IH]; intros i Hnd Hi y; [done|].
  apply NoDup_cons in Hnd as [Hz Hnd]. destruct i as [|i]; simpl in *.
  - simplify_eq. split; [|set_solver]. intros Hy. split; [by right|].
    by intros ->.
  - rewrite elem_of_cons, (IH i Hnd Hi y), elem_of_cons.
    split; [|naive_solver]. intros [->|[??]]; [|naive_solver].
    split; [by left|]. intros ->. apply Hz. by eapply list_elem_of_lookup_2.
Qed.

Section Owners.
Context {T : Type} `{Countable T}.
Variable requires_export : T → bool.
Variable is_exported : T → bool.
Variable dependencies : T → list T.
Variable is_original : T → bool.
Variable derived_from : T → T.
Variable spec_path : T → list string.
Variable iter_targets_in_spec_path : list string → list T.
Variable pop_index : list T → nat.

Local Abbreviation _walk := (_walk dependencies).
Local Abbreviation _closure := (_closure dependencies).
Local Abbreviation lineage :=
  (iter_target_siblings_and_ancestors spec_path iter_targets_in_spec_path).
Local Abbreviation potential_owners :=
  (potential_owners is_exported dependencies spec_path iter_targets_in_spec_path).
Local Abbreviation resolve_owner :=
  (resolve_owner is_exported dependencies spec_path iter_targets_in_spec_path
                 pop_index).
Local Abbreviation provisional :=
  (provisional is_exported dependencies is_original derived_from).
Local Abbreviation is_potential_owner :=
  (is_potential_owner is_exported dependencies).
Local Abbreviation set_pop := (set_pop pop_index).

(** X4. The first pass collects no target twice, and exactly the
    original targets that it reaches from [derived_from] of the exported
    target when it descends below the exported target itself and below
    targets that are not exported. *)
Theorem provisional_characterisation fuel exported_target collected :
  provisional fuel exported_target = Some collected →
  NoDup collected ∧
  ∀ x, x ∈ collected ↔
       is_original x = true ∧
       rtc (descends dependencies
              (λ t, bool_decide (t = exported_target) || negb (is_exported t)))
           (derived_from exported_target) x.
Proof.
  unfold provisional, _walk.
  destruct (walk _ _ fuel (derived_from exported_target) (∅, []))
    as [[visited d]|] eqn:Hrun; [|done].
  intros [= <-].
  assert (NoDup (odict_keys d) ∧
          ∀ x, x ∈ odict_keys d ↔ x ∈ visited ∧ is_original x = true)
    as [Hnd Hkeys].
  { refine (walk_invariant dependencies
              (collect_potentially_owned_python_targets
                 is_exported is_original exported_target)
              (λ vis d, NoDup (odict_keys d) ∧
                        ∀ x, x ∈ odict_keys d ↔
                             x ∈ vis ∧ is_original x = true)
              _ fuel (derived_from exported_target) ∅ [] visited d _ Hrun).
    - intros vis s cur [Hnd Hs] Hcur.
      unfold collect_potentially_owned_python_targets. simpl.
      destruct (is_original cur) eqn:Horig.
      + split; [by apply NoDup_odict_keys_set|].
        intros x. rewrite elem_of_odict_keys_set, Hs, elem_of_union,
          elem_of_singleton.
        split; [intros [->|[??]]; auto|intros [[->|?] ?]; auto].
      + split; [done|]. intros x.
        rewrite Hs, elem_of_union, elem_of_singleton.
        split; [intros [??]; auto|intros [[->|?] ?]; [congruence|auto]].
    - split; [apply NoDup_nil_2|]. intros x. split; [by intros ?%elem_of_nil|].
      by intros [?%elem_of_empty _]. }
  split; [done|]. intros x. rewrite Hkeys.
  assert (∀ t s, (collect_potentially_owned_python_targets
                    is_exported is_original exported_target t s).1
                 = bool_decide (t = exported_target) || negb (is_exported t))
    as Hkeep by done.
  rewrite (walk_visits_kept dependencies _ _ Hkeep fuel _ _ _ _ Hrun).
  naive_solver.
Qed.

(** What the inner loop of the second pass collects. *)
Lemma potential_owners_spec fuel owned owners :
  potential_owners fuel owned = Some owners →
  NoDup owners ∧
  ∀ o, o ∈ owners ↔ o ∈ lineage owned ∧ is_potential_owner fuel owned o = true.
Proof.
  unfold potential_owners.
  assert (∀ l acc r,
            for_each
              (λ owners po,
                 if is_exported po then
                   closure ← _closure fuel po;
                   Some (if decide (owned ∈ closure)
                         then oset_add po owners else owners)
                 else Some owners) l acc = Some r →
            NoDup acc →
            NoDup r ∧
            ∀ o, o ∈ r ↔ o ∈ acc ∨
                         (o ∈ l ∧ is_potential_owner fuel owned o = true))
    as Hloop.
  { induction l as [|po l IH]; intros acc r Hrun Hnd; simpl in Hrun.
    - simplify_eq. split; [done|]. set_solver.
    - unfold is_potential_owner in *.
      destruct (is_exported po) eqn:Hexp.
      + destruct (_closure fuel po) as [c|] eqn:Hc; simpl in Hrun; [|done].
        destruct (IH _ _ Hrun) as [Hr Hin].
        { case_decide; [by apply NoDup_oset_add|done]. }
        split; [done|]. intros o. rewrite Hin.
        case_decide as Hown.
        * rewrite elem_of_oset_add, elem_of_cons. split.
          -- intros [[->|?]|[??]]; [right|by left|right; by split; [right|]].
             split; [by left|]. rewrite Hexp, Hc. simpl.
             by rewrite bool_decide_eq_true_2.
          -- intros [?|[[->|?] ?]]; [by left; right|by left; left|by right].
        * rewrite elem_of_cons. split; [naive_solver|].
          intros [?|[[->|?] Hpo]]; [by left| |by right].
          rewrite Hexp, Hc in Hpo. simpl in Hpo.
          by rewrite bool_decide_eq_false_2 in Hpo.
      + destruct (IH _ _ Hrun Hnd) as [Hr Hin]. split; [done|].
        intros o. rewrite Hin, elem_of_cons. split; [naive_solver|].
        intros [?|[[->|?] Hpo]]; [by left| |by right].
        by rewrite Hexp in Hpo. }
  intros Hrun. destruct (Hloop _ _ _ Hrun (NoDup_nil_2)) as [Hnd Hin].
  split; [done|]. intros o. rewrite Hin. set_solver.
Qed.

Lemma set_pop_Some s x rest :
  set_pop s = Some (x, rest) → ∃ i, s !! i = Some x ∧ rest = delete i s.
Proof.
  unfold set_pop. intros Hpop.
  destruct (s !! (pop_index s `mod` length s)) as [y|] eqn:Hy;
    simpl in Hpop; [|done].
  simplify_eq. eauto.
Qed.

Lemma set_pop_is_Some s : s ≠ [] → is_Some (set_pop s).
Proof.
  intros Hne. unfold set_pop.
  destruct (lookup_lt_is_Some_2 s (pop_index s `mod` length s)) as [x ->];
    [|done].
  apply Nat.mod_upper_bound. by destruct s.
Qed.

Lemma resolve_owner_cases fuel owned owners :
  potential_owners fuel owned = Some owners →
  (owners = [] ∧ resolve_owner fuel owned = Some (inl (NoOwnerError owned))) ∨
  ∃ owner ambiguous_owners,
    owner ∈ owners ∧
    (∀ o, o ∈ ambiguous_owners ↔
          o ∈ owners ∧ o ≠ owner ∧ spec_path o = spec_path owner) ∧
    resolve_owner fuel owned =
    Some (match ambiguous_owners with
          | [] => inr owner
          | _ => inl (AmbiguousOwnerError owned owner ambiguous_owners)
          end).
Proof.
  intros Howners. destruct (potential_owners_spec _ _ _ Howners) as [Hnd _].
  destruct owners as [|o0 owners0] eqn:Heq.
  { left. split; [done|]. unfold resolve_owner. by rewrite Howners. }
  rewrite <-Heq in *. right.
  destruct (set_pop_is_Some owners) as [[owner rest] Hpop]; [by subst|].
  destruct (set_pop_Some _ _ _ Hpop) as (i & Hi & ->).
  exists owner, (filter (λ o, spec_path o = spec_path owner) (delete i owners)).
  split_and!.
  - by eapply list_elem_of_lookup_2.
  - intros o. rewrite list_elem_of_filter, (elem_of_delete_NoDup _ _ _ Hnd Hi).
    naive_solver.
  - rewrite (resolve_owner_popped is_exported dependencies spec_path
               iter_targets_in_spec_path pop_index fuel owned owners owner
               (delete i owners) Howners Hpop).
    by destruct (filter _ _).
Qed.

(** X5. An owner that the second pass settles on lies on the ancestor
    lineage of the owned target, is exported, and reaches the owned
    target along dependencies. *)
Theorem owner_is_exported_ancestor fuel owned owner :
  resolve_owner fuel owned = Some (inr owner) →
  owner ∈ lineage owned ∧ is_exported owner = true ∧
  rtc (depends dependencies) owner owned.
Proof.
  intros Hrun.
  destruct (potential_owners fuel owned) as [owners|] eqn:Howners.
  2:{ unfold resolve_owner in Hrun. by rewrite Howners in Hrun. }
  destruct (potential_owners_spec _ _ _ Howners) as [_ Hin].
  destruct (resolve_owner_cases _ _ _ Howners)
    as [[_ Hr]|(o & amb & Ho & _ & Hr)]; [congruence|].
  rewrite Hr in Hrun. destruct amb; [|done]. simplify_eq.
  apply Hin in Ho as [Hlin Hpo]. unfold is_potential_owner in Hpo.
  apply andb_true_iff in Hpo as [Hexp Hc].
  split_and!; [done..|].
  destruct (_closure fuel owner) as [c|] eqn:Hcl; [|done]. simpl in Hc.
  apply bool_decide_eq_true in Hc.
  by apply (closure_elem_of dependencies fuel owner c Hcl).
Qed.

(** X6. An [AmbiguousOwnerError] names the owned target, the potential
    owner that was popped and a non-empty list of other potential
    owners, each registered under the spec path of the popped one. *)
Theorem ambiguous_owners_share_spec_path fuel owned x owner ambiguous_owners :
  resolve_owner fuel owned
    = Some (inl (AmbiguousOwnerError x owner ambiguous_owners)) →
  x = owned ∧ ambiguous_owners ≠ [] ∧
  owner ∈ lineage owned ∧ is_potential_owner fuel owned owner = true ∧
  Forall (λ o, o ≠ owner ∧ spec_path o = spec_path owner ∧
               o ∈ lineage owned ∧ is_potential_owner fuel owned o = true)
         ambiguous_owners.
Proof.
  intros Hrun.
  destruct (potential_owners fuel owned) as [owners|] eqn:Howners.
  2:{ unfold resolve_owner in Hrun. by rewrite Howners in Hrun. }
  destruct (potential_owners_spec _ _ _ Howners) as [_ Hin].
  destruct (resolve_owner_cases _ _ _ Howners)
    as [[_ Hr]|(o & amb & Ho & Hamb & Hr)]; [congruence|].
  rewrite Hr in Hrun. destruct amb as [|a amb]; [done|]. simplify_eq.
  apply Hin in Ho as [??]. split_and!; [done..|].
  apply Forall_forall. intros o Ho. apply Hamb in Ho as (Ho & ? & ?).
  apply Hin in Ho as [??]. done.
Qed.

Lemma NoDup_fmap_elem_inj {A B} (f : A → B) (l : list A) x y :
  NoDup (f <$> l) → x ∈ l → y ∈ l → f x = f y → x = y.
Proof.
  intros Hnd (i & Hi)%list_elem_of_lookup (j & Hj)%list_elem_of_lookup Heq.
  assert (i = j) as ->; [|congruence].
  eapply (NoDup_lookup _ _ _ (f x) Hnd); rewrite list_lookup_fmap.
  - by rewrite Hi.
  - rewrite Hj. simpl. by rewrite Heq.
Qed.

(** X7. When the potential owners of a target lie under pairwise
    different spec paths, one of them becomes the owner, whichever the
    pop takes: no error is raised. *)
Theorem distinct_spec_paths_are_not_ambiguous fuel owned owners :
  potential_owners fuel owned = Some owners →
  owners ≠ [] →
  NoDup (spec_path <$> owners) →
  ∃ owner, owner ∈ owners ∧ resolve_owner fuel owned = Some (inr owner).
Proof.
  intros Howners Hne Hnd.
  destruct (resolve_owner_cases _ _ _ Howners)
    as [[? _]|(o & amb & Ho & Hamb & Hr)]; [done|].
  exists o. split; [done|]. rewrite Hr.
  destruct amb as [|a amb]; [done|]. exfalso.
  destruct (Hamb a) as [(Ha & Hao & Hpath) _]; [by left|].
  apply Hao. by eapply NoDup_fmap_elem_inj.
Qed.

(** X8. When a target has two potential owners and all its potential
    owners lie under one spec path, its owner is ambiguous, whichever
    the pop takes. *)
Theorem sibling_owners_are_ambiguous fuel owned owners o1 o2 :
  potential_owners fuel owned = Some owners →
  o1 ∈ owners → o2 ∈ owners → o1 ≠ o2 →
  (∀ o, o ∈ owners → spec_path o = spec_path o1) →
  ∃ owner ambiguous_owners,
    resolve_owner fuel owned
      = Some (inl (AmbiguousOwnerError owned owner ambiguous_owners)).
Proof.
  intros Howners H1 H2 Hne Hsame.
  destruct (resolve_owner_cases _ _ _ Howners)
    as [[-> _]|(o & amb & Ho & Hamb & Hr)]; [by apply elem_of_nil in H1|].
  exists o, amb. rewrite Hr.
  assert (∃ o', o' ∈ amb) as [o' Ho'].
  { destruct (decide (o1 = o)) as [->|Hne1].
    - exists o2. apply Hamb. split_and!; [done|by intros ->|].
      rewrite (Hsame o2 H2). done.
    - exists o1. apply Hamb. split_and!; [done..|].
      by rewrite (Hsame o Ho). }
  destruct amb; [by apply elem_of_nil in Ho'|done].
Qed.
End Owners.

Lemma odict_get_is_Some `{EqDecision K} {V} (k : K) (d : list (K * V)) :
  k ∈ odict_keys d → is_Some (odict_get k d).
Proof.
  unfold odict_keys. induction d as [|[k' v'] d IH]; simpl.
  - by intros ?%elem_of_nil.
  - case_decide; [done|]. intros [?|?]%elem_of_cons; [by subst|by apply IH].
Qed.

Section Passes.
Context {T : Type} `{Countable T}.
Variable requires_export : T → bool.
Variable is_exported : T → bool.
Variable dependencies : T → list T.
Variable is_original : T → bool.
Variable derived_from : T → T.
Variable spec_path : T → list string.
Variable iter_targets_in_spec_path : list string → list T.
Variable pop_index : list T → nat.

Local Abbreviation _walk := (_walk dependencies).
Local Abbreviation lineage :=
  (iter_target_siblings_and_ancestors spec_path iter_targets_in_spec_path).
Local Abbreviation resolve_owner :=
  (resolve_owner is_exported dependencies spec_path iter_targets_in_spec_path
                 pop_index).
Local Abbreviation resolve_owners :=
  (resolve_owners requires_export is_exported dependencies spec_path
                  iter_targets_in_spec_path pop_index).
Local Abbreviation resolved_owners :=
  (resolved_owners requires_export is_exported dependencies is_original
                   derived_from spec_path iter_targets_in_spec_path pop_index).
Local Abbreviation provisional :=
  (provisional is_exported dependencies is_original derived_from).
Local Abbreviation reduced_dependencies :=
  (reduced_dependencies requires_export is_exported dependencies is_original
                        derived_from spec_path iter_targets_in_spec_path
                        pop_index).
Local Abbreviation provider := (@provider T _).
Local Abbreviation continues := (continues requires_export).

(** The second pass rewrites the entries of the targets that require
    export and are not exported, and no other. *)
Lemma resolve_owners_entries fuel keys d d' :
  resolve_owners fuel keys d = Some (inr d') →
  NoDup keys → (∀ k, k ∈ keys → k ∈ odict_keys d) →
  odict_keys d' = odict_keys d ∧
  (∀ k, k ∉ keys → odict_get k d' = odict_get k d) ∧
  ∀ k, k ∈ keys →
       if requires_export k && negb (is_exported k)
       then ∃ owner, odict_get k d' = Some (Some owner) ∧
                     resolve_owner fuel k = Some (inr owner)
       else odict_get k d' = odict_get k d.
Proof.
  revert d. induction keys as [|k keys IH]; intros d Hrun Hnd Hkeys;
    simpl in Hrun.
  { simplify_eq. split_and!; [done|done|]. by intros ? ?%elem_of_nil. }
  apply NoDup_cons in Hnd as [Hk Hnd].
  destruct (requires_export k && negb (is_exported k)) eqn:Hown.
  - destruct (resolve_owner fuel k) as [[e|owner]|] eqn:Hres; simpl in Hrun;
      [done| |done].
    assert (k ∈ odict_keys d) as Hkd by (apply Hkeys; by left).
    destruct (IH _ Hrun Hnd) as (Hkeys' & Hout & Hin).
    { intros k' Hk'. rewrite odict_keys_set_present by done.
      apply Hkeys. by right. }
    split_and!.
    + by rewrite Hkeys', odict_keys_set_present.
    + intros k' Hk'. apply not_elem_of_cons in Hk' as [Hne Hk'].
      by rewrite (Hout _ Hk'), odict_get_set_ne.
    + intros k' [->|Hk']%elem_of_cons.
      * rewrite Hown. exists owner. split; [|done].
        by rewrite (Hout _ Hk), odict_get_set_eq.
      * specialize (Hin _ Hk').
        destruct (requires_export k' && negb (is_exported k')); [done|].
        rewrite Hin, odict_get_set_ne; [done|]. by intros ->.
  - destruct (IH _ Hrun Hnd) as (Hkeys' & Hout & Hin).
    { intros k' Hk'. apply Hkeys. by right. }
    split_and!; [done| |].
    + intros k' Hk'. apply not_elem_of_cons in Hk' as [Hne Hk']. by apply Hout.
    + intros k' [->|Hk']%elem_of_cons; [|by apply Hin].
      rewrite Hown. by apply Hout.
Qed.

(** Every value of the dict of the first pass is [None]. *)
Lemma provisional_values fuel exported_target d :
  _walk (collect_potentially_owned_python_targets
           is_exported is_original exported_target)
        fuel (derived_from exported_target) [] = Some d →
  NoDup (odict_keys d) ∧ ∀ k, k ∈ odict_keys d → odict_get k d = Some None.
Proof.
  intros Hrun.
  refine (_walk_invariant_on dependencies
            (collect_potentially_owned_python_targets
               is_exported is_original exported_target)
            (λ _, True)
            (λ d, NoDup (odict_keys d) ∧
                  ∀ k, k ∈ odict_keys d → odict_get k d = Some None)
            _ _ fuel (derived_from exported_target) [] d I _ Hrun);
    [done| |].
  - intros s cur _ [Hnd Hs].
    unfold collect_potentially_owned_python_targets. simpl.
    destruct (is_original cur); [|done].
    split; [by apply NoDup_odict_keys_set|].
    intros k [->|Hk]%elem_of_odict_keys_set; [apply odict_get_set_eq|].
    destruct (decide (k = cur)) as [->|Hne]; [apply odict_get_set_eq|].
    rewrite odict_get_set_ne by done. by apply Hs.
  - split; [apply NoDup_nil_2|]. by intros ? ?%elem_of_nil.
Qed.

(** X9. After the second pass the dict has the keys that the first pass
    collected, in their order.  A collected target that requires export
    and is not exported is mapped to the owner resolved for it, every
    other collected target to [None], and a target that was not
    collected has no entry. *)
Theorem owner_map_entries fuel exported_target owner_by :
  resolved_owners fuel exported_target = Some (inr owner_by) →
  provisional fuel exported_target = Some (odict_keys owner_by) ∧
  (∀ k, k ∉ odict_keys owner_by → odict_get k owner_by = None) ∧
  ∀ k, k ∈ odict_keys owner_by →
       if requires_export k && negb (is_exported k)
       then ∃ owner, odict_get k owner_by = Some (Some owner) ∧
                     resolve_owner fuel k = Some (inr owner)
       else odict_get k owner_by = Some None.
Proof.
  unfold resolved_owners, provisional.
  destruct (_walk _ fuel (derived_from exported_target) []) as [d|] eqn:Hd;
    simpl; [|done].
  intros Hrun. destruct (provisional_values _ _ _ Hd) as [Hnd Hnone].
  destruct (resolve_owners_entries _ _ _ _ Hrun Hnd) as (Hkeys & Hout & Hin);
    [done|].
  split_and!.
  - by rewrite Hkeys.
  - intros k Hk. destruct (odict_get k owner_by) as [v|] eqn:Hget; [|done].
    by apply odict_get_keys in Hget.
  - intros k Hk. rewrite Hkeys in Hk. specialize (Hin _ Hk).
    destruct (requires_export k && negb (is_exported k)); [done|].
    rewrite Hin. by apply Hnone.
Qed.

(** What the third pass leaves in [reduced_dependencies]. *)
Lemma collect_reduced_dependencies_spec fuel exported_target owner_by collected :
  _walk (collect_reduced_dependencies requires_export exported_target owner_by)
        fuel exported_target [] = Some collected →
  NoDup collected ∧
  ∀ d, d ∈ collected ↔
       ∃ current, current ≠ exported_target ∧
                  rtc (descends dependencies (continues owner_by exported_target))
                      exported_target current ∧
                  d = provider owner_by exported_target current.
Proof.
  unfold _walk.
  destruct (walk _ _ fuel exported_target (∅, [])) as [[visited l]|] eqn:Hrun;
    [|done].
  intros [= <-].
  assert (∀ t s, (collect_reduced_dependencies
                    requires_export exported_target owner_by t s).1
                 = continues owner_by exported_target t) as Hkeep.
  { intros t s. unfold collect_reduced_dependencies, continues.
    case_decide as Ht; simpl.
    - by rewrite bool_decide_eq_true_2.
    - by rewrite (bool_decide_eq_false_2 _ Ht). }
  assert (NoDup l ∧
          ∀ d, d ∈ l ↔ ∃ current, current ≠ exported_target ∧
                                  current ∈ visited ∧
                                  d = provider owner_by exported_target current)
    as [Hnd Hl].
  { refine (walk_invariant dependencies
              (collect_reduced_dependencies requires_export exported_target
                                            owner_by)
              (λ vis l, NoDup l ∧
                        ∀ d, d ∈ l ↔
                             ∃ current, current ≠ exported_target ∧
                                        current ∈ vis ∧
                                        d = provider owner_by exported_target
                                                     current)
              _ fuel exported_target ∅ [] visited l _ Hrun).
    - intros vis s cur [Hnd Hs] Hcur.
      unfold collect_reduced_dependencies. case_decide as Hself; simpl.
      + split; [done|]. intros d. rewrite Hs. split.
        * intros (c & ? & ? & ?). exists c. split_and!; [done| |done].
          apply elem_of_union. by right.
        * intros (c & ? & [->%elem_of_singleton|?]%elem_of_union & ?);
            [done|]. by exists c.
      + assert (match mjoin (odict_get cur owner_by) with
                | Some o => if decide (o = exported_target)
                            then oset_add cur s else oset_add o s
                | None => oset_add cur s
                end = oset_add (provider owner_by exported_target cur) s)
          as ->.
        { unfold provider. destruct (mjoin _); [by case_decide|done]. }
        split; [by apply NoDup_oset_add|]. intros d.
        rewrite elem_of_oset_add, Hs. split.
        * intros [->|(c & ? & ? & ?)].
          -- exists cur. split_and!; [done| |done].
             apply elem_of_union. left. by apply elem_of_singleton.
          -- exists c. split_and!; [done| |done]. apply elem_of_union.
             by right.
        * intros (c & ? & [->%elem_of_singleton|?]%elem_of_union & ?);
            [by left|]. right. by exists c.
    - split; [apply NoDup_nil_2|]. intros d. split; [by intros ?%elem_of_nil|].
      by intros (? & _ & ?%elem_of_empty & _). }
  split; [done|]. intros d. rewrite Hl.
  split; intros (c & ? & Hc & ?); exists c; (split_and!; [done| |done]).
  - by apply (walk_visits_kept dependencies _ _ Hkeep fuel _ _ _ _ Hrun).
  - by apply (walk_visits_kept dependencies _ _ Hkeep fuel _ _ _ _ Hrun).
Qed.

(** X10. The reduced dependencies hold no target twice, and exactly the
    original targets that the third pass provides for the targets it
    visits other than the exported target: a visited target stands for
    itself when it has no owner or is owned by the exported target, and
    for its owner otherwise.  The pass visits what it reaches from the
    exported target when it descends below the exported target, below
    what the exported target owns and below what does not require
    export. *)
Theorem reduced_characterisation fuel exported_target reduced :
  reduced_dependencies fuel exported_target = Some (inr reduced) →
  ∃ owner_by,
    resolved_owners fuel exported_target = Some (inr owner_by) ∧
    NoDup reduced ∧
    ∀ d, d ∈ reduced ↔
         is_original d = true ∧
         ∃ current,
           current ≠ exported_target ∧
           rtc (descends dependencies (continues owner_by exported_target))
               exported_target current ∧
           d = provider owner_by exported_target current.
Proof.
  unfold reduced_dependencies, resolved_owners.
  destruct (negb (is_exported exported_target)); [done|].
  destruct (_walk _ fuel (derived_from exported_target) []) as [d0|]; simpl;
    [|done].
  destruct (resolve_owners fuel (odict_keys d0) d0) as [[e|owner_by]|]; simpl;
    [done| |done].
  destruct (_walk (collect_reduced_dependencies _ _ _) fuel exported_target [])
    as [l|] eqn:Hl; simpl; [|done].
  intros [= <-]. exists owner_by. split; [done|].
  destruct (collect_reduced_dependencies_spec _ _ _ _ Hl) as [Hnd Hin].
  split; [by apply NoDup_filter|]. intros d.
  rewrite list_elem_of_filter, Hin, Is_true_true. done.
Qed.

(** X11. The errors of [reduced_dependencies]: an [UnExportedError]
    names the target given, which is not exported; an owner error names
    a target that the first pass collected, that requires export and is
    not exported, and it is the error that resolving the owner of that
    target raises. *)
Theorem errors_of_reduced_dependencies fuel exported_target e :
  reduced_dependencies fuel exported_target = Some (inl e) →
  match e with
  | UnExportedError t => t = exported_target ∧ is_exported exported_target = false
  | NoOwnerError owned =>
    is_exported exported_target = true ∧
    (∃ collected, provisional fuel exported_target = Some collected ∧
                  owned ∈ collected) ∧
    requires_export owned = true ∧ is_exported owned = false ∧
    resolve_owner fuel owned = Some (inl e)
  | AmbiguousOwnerError owned _ _ =>
    is_exported exported_target = true ∧
    (∃ collected, provisional fuel exported_target = Some collected ∧
                  owned ∈ collected) ∧
    requires_export owned = true ∧ is_exported owned = false ∧
    resolve_owner fuel owned = Some (inl e)
  end.
Proof.
  unfold reduced_dependencies, provisional.
  destruct (is_exported exported_target) eqn:Hexp; simpl.
  2:{ by intros [= <-]. }
  destruct (_walk _ fuel (derived_from exported_target) []) as [d0|]; simpl;
    [|done].
  assert (∀ keys d,
            resolve_owners fuel keys d = Some (inl e) →
            ∃ owned, owned ∈ keys ∧ requires_export owned = true ∧
                     is_exported owned = false ∧
                     resolve_owner fuel owned = Some (inl e)) as Hloop.
  { induction keys as [|k keys IH]; intros d Hrun; simpl in Hrun; [done|].
    destruct (requires_export k && negb (is_exported k)) eqn:Hown.
    - destruct (resolve_owner fuel k) as [[e'|owner]|] eqn:Hk; simpl in Hrun;
        [| |done].
      + simplify_eq. exists k. apply andb_true_iff in Hown as [? ?%negb_true_iff].
        split_and!; [by left|done..].
      + destruct (IH _ Hrun) as (x & ? & ?). exists x. split; [by right|done].
    - destruct (IH _ Hrun) as (x & ? & ?). exists x. split; [by right|done]. }
  destruct (resolve_owners fuel (odict_keys d0) d0) as [[e'|owner_by]|] eqn:Hres;
    simpl; [| |done].
  - intros [= ->]. destruct (Hloop _ _ Hres) as (owned & Hin & Hreq & Hne & Hr).
    pose proof (resolve_owner_raised is_exported dependencies spec_path
                  iter_targets_in_spec_path pop_index fuel owned e Hr) as Hfor.
    destruct e as [t|x|x o a]; simpl in Hfor; [done|subst..];
      (split_and!; [done|by exists (odict_keys d0)|done..]).
  - by destruct (_walk (collect_reduced_dependencies _ _ _) fuel _ []).
Qed.
End Passes.

(** ** Packages and resources *)

(** A package of the set is its own nearest subpackage. *)
Lemma nearest_subpackage_member package all_packages :
  package ∈ all_packages → nearest_subpackage package all_packages = package.
Proof.
  intros Hin.
  assert (shared_prefix package package = split "." package) as Hself.
  { unfold shared_prefix. by apply shared_of_prefix. }
  destruct (nearest_subpackage_some package all_packages)
    as (c & Hc & Hne & -> & Hmax).
  { apply Exists_exists. exists package. split; [done|].
    rewrite Hself. apply split_nonempty. }
  rewrite Forall_forall in Hmax. specialize (Hmax _ Hin). rewrite Hself in Hmax.
  pose proof (shared_prefix_module package c) as Hpre.
  assert (shared_prefix package c = split "." package) as ->.
  { destruct Hpre as [k Hk]. rewrite Hk in Hmax. rewrite length_app in Hmax.
    destruct k; [|simpl in Hmax; lia]. by rewrite app_nil_r in Hk. }
  apply join_split.
Qed.

Section Found.
Variable base : string.
Variable tree : list (list string * list string).
Variable filter_namespace_packages : list string → option (list string).

Local Abbreviation iter_files := (iter_files base tree).
Local Abbreviation establish_packages := (establish_packages base tree).
Local Abbreviation find_packages :=
  (find_packages base tree filter_namespace_packages).

(** What the first pass collects. *)
Lemma establish_packages_spec :
  (∀ m, m ∈ establish_packages.1 ↔
        ∃ real_filename, (m, "__init__.py", real_filename) ∈ iter_files) ∧
  (∀ init, init ∈ odict_keys establish_packages.2 ↔
           ∃ m, (m, "__init__.py", init) ∈ iter_files) ∧
  ∀ init m, odict_get init establish_packages.2 = Some m →
            (m, "__init__.py", init) ∈ iter_files.
Proof.
  unfold establish_packages.
  assert (∀ l (acc : gset string * list (string * string)),
            let r := foldl
              (λ '(packages, inits_to_check) '(module, filename, real_filename),
                 if decide (filename ≠ "__init__.py")
                 then (packages, inits_to_check)
                 else ({[module]} ∪ packages,
                       odict_set real_filename module inits_to_check))
              acc l in
            (∀ m, m ∈ r.1 ↔
                  m ∈ acc.1 ∨ ∃ real, (m, "__init__.py", real) ∈ l) ∧
            (∀ init, init ∈ odict_keys r.2 ↔
                     init ∈ odict_keys acc.2 ∨
                     ∃ m, (m, "__init__.py", init) ∈ l) ∧
            ∀ init m, odict_get init r.2 = Some m →
                      odict_get init acc.2 = Some m ∨
                      (m, "__init__.py", init) ∈ l) as Hloop.
  { induction l as [|[[module filename] real] l IH]; intros [ps inits]; simpl.
    - split_and!.
      + intros m. split; [by left|]. intros [?|[? ?%elem_of_nil]]; done.
      + intros i. split; [by left|]. intros [?|[? ?%elem_of_nil]]; done.
      + intros i m ?. by left.
    - case_decide as Hname.
      + destruct (IH (ps, inits)) as (Hp & Hk & Hg). simpl in *. split_and!.
        * intros m. rewrite Hp. split.
          -- intros [?|[r ?]]; [by left|right]. exists r. by right.
          -- intros [?|[r [?|?]%elem_of_cons]]; [by left|simplify_eq|].
             right. by exists r.
        * intros i. rewrite Hk. split.
          -- intros [?|[m ?]]; [by left|right]. exists m. by right.
          -- intros [?|[m [?|?]%elem_of_cons]]; [by left|simplify_eq|].
             right. by exists m.
        * intros i m Hi. destruct (Hg _ _ Hi) as [?|?]; [by left|].
          right. by right.
      + subst filename.
        destruct (IH ({[module]} ∪ ps, odict_set real module inits))
          as (Hp & Hk & Hg). simpl in *. split_and!.
        * intros m. rewrite Hp, elem_of_union, elem_of_singleton. split.
          -- intros [[->|?]|[r ?]]; [right|by left|right].
             ++ exists real. by left.
             ++ exists r. by right.
          -- intros [?|[r [?|?]%elem_of_cons]];
               [left; by right|simplify_eq; left; by left|].
             right. by exists r.
        * intros i. rewrite Hk, elem_of_odict_keys_set. split.
          -- intros [[->|?]|[m ?]]; [right|by left|right].
             ++ exists module. by left.
             ++ exists m. by right.
          -- intros [?|[m [?|?]%elem_of_cons]];
               [left; by right|simplify_eq; left; by left|].
             right. by exists m.
        * intros i m Hi. destruct (Hg _ _ Hi) as [Hget|?]; [|right; by right].
          destruct (decide (i = real)) as [->|Hne].
          -- rewrite odict_get_set_eq in Hget. simplify_eq. right. by left.
          -- rewrite odict_get_set_ne in Hget by done. by left. }
  destruct (Hloop iter_files (∅, [])) as (Hp & Hk & Hg). simpl in *.
  split_and!.
  - intros m. rewrite Hp. split; [|by right].
    by intros [?%elem_of_empty|?].
  - intros i. rewrite Hk. split; [|by right]. by intros [?%elem_of_nil|?].
  - intros i m Hi. by destruct (Hg _ _ Hi).
Qed.

(** X12. [find_packages] fails in the namespace detection only: with the
    error of the detection when the subprocess fails, and with a
    [KeyError] when the subprocess prints a path that is not one of the
    [__init__.py] files given to it.  The assertion of the second pass
    never fails. *)
Theorem find_packages_fails_only_in_detection :
  let inits := odict_keys establish_packages.2 in
  match find_packages with
  | inl e =>
    (e = NamespaceDetectionFailed ∧ filter_namespace_packages inits = None) ∨
    (e = PythonKeyError ∧
     ∃ declared init, filter_namespace_packages inits = Some declared ∧
                      init ∈ declared ∧ init ∉ inits)
  | inr _ =>
    ∃ declared, filter_namespace_packages inits = Some declared ∧
                ∀ init, init ∈ declared → init ∈ inits
  end.
Proof.
  unfold find_packages.
  destruct establish_packages as [packages inits_to_check]. simpl.
  destruct (filter_namespace_packages (odict_keys inits_to_check))
    as [declared|]; [|by left].
  destruct (mapM _ declared) as [modules|] eqn:Hmods.
  - assert (∀ init, init ∈ declared → init ∈ odict_keys inits_to_check)
      as Hall.
    { intros init Hin.
      assert (is_Some (mapM (λ init, odict_get init inits_to_check) declared))
        as Hsome by done.
      rewrite mapM_is_Some, Forall_forall in Hsome.
      destruct (Hsome _ Hin) as [m Hm]. by eapply odict_get_keys. }
    destruct (establish_resources packages iter_files []) as [e|r] eqn:Hres.
    + exfalso. revert Hres. generalize iter_files.
      generalize (@nil (string * gset string)).
      intros r0 files. revert r0.
      induction files as [|[[m f] rf] files IH]; intros r0; simpl; [done|].
      destruct (_ && _); [apply IH|].
      destruct (attribute_spec packages m f) as (rec & -> & _). apply IH.
    + by exists declared.
  - right. split; [done|]. exists declared.
    destruct (decide (Forall (λ init, init ∈ odict_keys inits_to_check) declared))
      as [Hall|Hnot].
    + assert (is_Some (mapM (λ init, odict_get init inits_to_check) declared))
        as [? ?]; [|congruence].
      rewrite mapM_is_Some. eapply Forall_impl; [done|].
      intros init ?. by apply odict_get_is_Some.
    + apply not_Forall_Exists in Hnot; [|apply _].
      apply Exists_exists in Hnot as (init & ? & ?). by exists init.
Qed.

(** X13. The packages found are the modules of the directories that hold
    an [__init__.py]; the namespace packages are the modules recorded
    for the [__init__.py] files that the detection reports, and each of
    them is a package. *)
Theorem packages_are_init_directories
    (packages namespace_packages : gset string) resources :
  find_packages = inr (packages, namespace_packages, resources) →
  (∀ m, m ∈ packages ↔
        ∃ real_filename, (m, "__init__.py", real_filename) ∈ iter_files) ∧
  namespace_packages ⊆ packages ∧
  ∃ declared,
    filter_namespace_packages (odict_keys establish_packages.2)
      = Some declared ∧
    ∀ m, m ∈ namespace_packages ↔
         ∃ init, init ∈ declared ∧
                 odict_get init establish_packages.2 = Some m.
Proof.
  unfold find_packages.
  destruct establish_packages_spec as (Hp & Hk & Hg).
  destruct establish_packages as [ps inits_to_check]. simpl in *.
  destruct (filter_namespace_packages (odict_keys inits_to_check))
    as [declared|]; [|done].
  destruct (mapM _ declared) as [modules|] eqn:Hmods; [|done].
  destruct (establish_resources ps iter_files []) as [e|r]; [done|].
  intros [= <- <- <-].
  assert (∀ m, m ∈ modules ↔
               ∃ init, init ∈ declared ∧
                       odict_get init inits_to_check = Some m) as Hmod.
  { intros m. apply mapM_Some in Hmods. split.
    - intros (i & Hi)%list_elem_of_lookup.
      destruct (Forall2_lookup_r _ _ _ _ _ Hmods Hi) as (init & Hinit & ?).
      exists init. split; [by eapply list_elem_of_lookup_2|done].
    - intros (init & (i & Hi)%list_elem_of_lookup & Hget).
      destruct (Forall2_lookup_l _ _ _ _ _ Hmods Hi) as (m' & Hm' & ?).
      simplify_eq. by eapply list_elem_of_lookup_2. }
  split_and!; [done| |].
  - intros m Hm. apply elem_of_list_to_set, Hmod in Hm as (init & _ & Hget).
    apply Hp. exists init. by apply Hg.
  - exists declared. split; [done|]. intros m.
    by rewrite elem_of_list_to_set.
Qed.

(** X14. The resources hold exactly the placements of the files of the
    tree other than the [.py] files of package directories: a [.py] file
    outside every package is recorded like a resource. *)
Theorem resources_are_the_files_kept
    (packages namespace_packages : gset string) resources :
  find_packages = inr (packages, namespace_packages, resources) →
  ∀ package recorded,
    (∃ files, odict_get package resources = Some files ∧ recorded ∈ files) ↔
    ∃ module filename real_filename,
      (module, filename, real_filename) ∈ iter_files ∧
      ¬ (endswith filename ".py" = true ∧ module ∈ packages) ∧
      attribute packages module filename = inr (package, recorded).
Proof.
  unfold find_packages.
  destruct establish_packages as [ps inits_to_check]. simpl in *.
  destruct (filter_namespace_packages (odict_keys inits_to_check))
    as [declared|]; [|done].
  destruct (mapM _ declared) as [modules|]; [|done].
  destruct (establish_resources ps iter_files []) as [e|r] eqn:Hres; [done|].
  intros [= <- <- <-] package recorded.
  rewrite (establish_resources_spec _ _ _ _ Hres). split.
  - intros [(? & ? & _)|(m & f & rf & ? & Hkeep & ?)]; [done|].
    exists m, f, rf. split_and!; [done| |done].
    intros [Hpy Hin]. rewrite Hpy, bool_decide_eq_true_2 in Hkeep; done.
  - intros (m & f & rf & ? & Hkeep & ?). right. exists m, f, rf.
    split_and!; [done| |done].
    apply andb_false_iff. destruct (endswith f ".py"); [|by left].
    right. apply bool_decide_eq_false_2. intros ?. by apply Hkeep.
Qed.
End Found.

(** X15. A package is its own nearest subpackage, so that a file in the
    directory of a package is recorded for that package under its bare
    file name. *)
Theorem package_is_its_own_nearest_subpackage package (packages : gset string)
    filename :
  package ∈ packages →
  nearest_subpackage package (elements packages) = package ∧
  attribute packages package filename = inr (package, filename).
Proof.
  intros Hin.
  assert (nearest_subpackage package (elements packages) = package) as Hself.
  { apply nearest_subpackage_member. by apply elem_of_elements. }
  split; [done|]. unfold attribute. by rewrite Hself, decide_True.
Qed.

(** X16. The nearest subpackage does not depend on the order in which
    the set of packages is iterated. *)
Theorem nearest_subpackage_order_independent package l1 l2 :
  l1 ≡ₚ l2 → nearest_subpackage package l1 = nearest_subpackage package l2.
Proof. apply nearest_subpackage_perm. Qed.

(** ** write_setup *)

Section WriteSetup.
Context {T : Type} `{Countable T}.
Variable get_target : T → Target T.
Variable set_order : gset string → list string.

Local Abbreviation write_setup := (write_setup get_target set_order).
Local Abbreviation iter_entry_points := (iter_entry_points get_target).
Local Abbreviation holds_scripts := (@holds_scripts).

(** The loop of [write_setup] over the entry points. *)
Local Abbreviation entry_points_loop :=
  (foldl (λ (acc : SetupPyError + list (string * PyValue))
            (entry : SetupPyError + string * string),
            match acc, entry with
            | inl e, _ => inl e
            | inr _, inl e => inl e
            | inr setup_keywords, inr (binary_name, entry_point) =>
              add_console_script binary_name entry_point setup_keywords
            end)).

Lemma entry_points_loop_raised e l : entry_points_loop (inl e) l = inl e.
Proof. induction l as [|x l IH]; [done|apply IH]. Qed.

Lemma entry_points_loop_other kw l kw' k :
  k ≠ "entry_points" →
  entry_points_loop (inr kw) l = inr kw' → odict_get k kw' = odict_get k kw.
Proof.
  intros Hne. revert kw. induction l as [|entry l IH]; intros kw Hrun;
    simpl in Hrun; [by simplify_eq|].
  destruct entry as [e|[binary_name entry_point]].
  - by rewrite entry_points_loop_raised in Hrun.
  - destruct (add_console_script binary_name entry_point kw) as [e|kw1] eqn:Hadd.
    + by rewrite entry_points_loop_raised in Hrun.
    + rewrite (IH _ Hrun). by eapply add_console_script_other.
Qed.

Lemma add_console_script_next binary_name entry_point kw scripts :
  holds_scripts kw scripts →
  ∃ kw', add_console_script binary_name entry_point kw = inr kw' ∧
         odict_get "entry_points" kw'
           = Some (PyDict [("console_scripts",
                            PyList (scripts ++
                                    [PyStr (binary_name +:+ " = " +:+ entry_point)]))]).
Proof.
  unfold add_console_script. intros [[Hno ->]|Hget].
  - rewrite (decide_False (P := "entry_points" ∈ odict_keys kw)) by done.
    rewrite odict_get_set_eq.
    rewrite (decide_False (P := "console_scripts" ∈ odict_keys []))
      by (by intros ?%elem_of_nil).
    simpl. eexists. split; [done|]. apply odict_get_set_eq.
  - rewrite (decide_True (P := "entry_points" ∈ odict_keys kw))
      by (by eapply odict_get_keys).
    rewrite Hget.
    rewrite (decide_True (P := "console_scripts" ∈ odict_keys _))
      by (by left).
    simpl. eexists. split; [done|]. apply odict_get_set_eq.
Qed.

Lemma entry_points_loop_valid entry_points kw scripts :
  holds_scripts kw scripts →
  ∃ kw', entry_points_loop (inr kw) (inr <$> entry_points) = inr kw' ∧
         holds_scripts kw'
           (scripts ++ ((λ '(binary_name, entry_point),
                           PyStr (binary_name +:+ " = " +:+ entry_point))
                          <$> entry_points)).
Proof.
  revert kw scripts.
  induction entry_points as [|[binary_name entry_point] l IH];
    intros kw scripts Hkw; rewrite ?fmap_cons; cbn [foldl].
  - exists kw. by rewrite app_nil_r.
  - destruct (add_console_script_next binary_name entry_point kw scripts Hkw)
      as (kw1 & -> & Hkw1).
    destruct (IH kw1 (scripts ++ [PyStr (binary_name +:+ " = " +:+ entry_point)]))
      as (kw' & -> & Hkw'); [by right|].
    exists kw'. split; [done|]. by rewrite <-app_assoc in Hkw'.
Qed.

Lemma entry_points_loop_invalid (l : list (SetupPyError + string * string))
    kw scripts :
  holds_scripts kw scripts →
  (∀ e, inl e ∈ l → e = TargetDefinitionException) →
  (∃ e, inl e ∈ l) →
  entry_points_loop (inr kw) l = inl TargetDefinitionException.
Proof.
  revert kw scripts. induction l as [|entry l IH];
    intros kw scripts Hkw Hall [e He]; [by apply elem_of_nil in He|].
  simpl. destruct entry as [e'|[binary_name entry_point]].
  - rewrite (Hall e') by (by left). apply entry_points_loop_raised.
  - destruct (add_console_script_next binary_name entry_point kw scripts Hkw)
      as (kw1 & -> & Hkw1).
    apply (IH kw1 (scripts ++ [PyStr (binary_name +:+ " = " +:+ entry_point)]));
      [by right| |].
    + intros e0 ?. apply Hall. by right.
    + exists e. by apply elem_of_cons in He as [?|?].
Qed.

(** X17. [write_setup] leaves alone every keyword of the artifact that
    it has no value for: a keyword other than the six it may set,
    [namespace_packages] when no namespace package was found, the three
    package keywords when no package was found, and [entry_points] when
    the target provides no binary. *)
Theorem write_setup_keeps_other_keywords root_target reduced_dependencies
    (packages namespace_packages : gset string) resources artifact kw k :
  provides (get_target root_target) = Some artifact →
  write_setup root_target reduced_dependencies
              (packages, namespace_packages, resources) = inr kw →
  k ∉ ["namespace_packages"; "package_dir"; "packages"; "package_data";
       "install_requires"; "entry_points"] ∨
  (k = "namespace_packages" ∧ namespace_packages = ∅) ∨
  (k ∈ ["package_dir"; "packages"; "package_data"] ∧ packages = ∅) ∨
  (k = "entry_points" ∧ provided_binaries (get_target root_target) = []) →
  odict_get k kw = odict_get k (setup_py_keywords artifact).
Proof.
  intros Hprovides Hrun Hk. unfold write_setup in Hrun. rewrite Hprovides in Hrun.
  assert (k = "entry_points" →
          provided_binaries (get_target root_target) = []) as Hentry.
  { intros ->. destruct Hk as [Hk|[[? _]|[[Hk _]|[_ ?]]]]; [|done| |done].
    - exfalso. apply Hk. repeat constructor.
    - exfalso. set_solver. }
  assert (k ≠ "install_requires") as Hinstall.
  { intros ->. destruct Hk as [Hk|[[? _]|[[Hk _]|[? _]]]]; [|done| |done].
    - apply Hk. repeat constructor.
    - set_solver. }
  assert (k = "namespace_packages" → namespace_packages = ∅) as Hns.
  { intros ->. destruct Hk as [Hk|[[_ ?]|[[Hk _]|[? _]]]]; [|done| |done].
    - exfalso. apply Hk. repeat constructor.
    - exfalso. set_solver. }
  assert (k ∈ ["package_dir"; "packages"; "package_data"] → packages = ∅)
    as Hpackages.
  { intros Hin. destruct Hk as [Hk|[[-> _]|[[_ ?]|[-> _]]]]; [|set_solver|done|set_solver].
    exfalso. apply Hk. set_solver. }
  clear Hk.
  assert (odict_get k kw =
          odict_get k
            (odict_set "install_requires"
               (PyList (PyStr <$> install_requires get_target reduced_dependencies))
               (let setup_keywords := setup_py_keywords artifact in
                let setup_keywords :=
                  if decide (namespace_packages ≠ ∅) then
                    odict_set "namespace_packages"
                      (PyList (PyStr <$> merge_sort String.le
                                 (elements namespace_packages)))
                      setup_keywords
                  else setup_keywords in
                if decide (packages ≠ ∅) then
                  odict_set "package_data"
                    (PyDict ((λ '(package, rs),
                                (package, PyList (PyStr <$> set_order rs)))
                               <$> resources))
                    (odict_set "packages"
                       (PyList (PyStr <$> merge_sort String.le (elements packages)))
                       (odict_set "package_dir" (PyDict [("", PyStr SOURCE_ROOT)])
                                  setup_keywords))
                else setup_keywords))) as ->.
  { destruct (decide (k = "entry_points")) as [Heq|Hne].
    - unfold iter_entry_points in Hrun. rewrite (Hentry Heq) in Hrun.
      simpl in Hrun. by simplify_eq.
    - by eapply entry_points_loop_other. }
  rewrite odict_get_set_ne by done. simpl.
  case_decide as Hp.
  - assert (k ∉ ["package_dir"; "packages"; "package_data"]) as Hnot.
    { intros Hin. by apply Hp, Hpackages. }
    rewrite !odict_get_set_ne by set_solver.
    case_decide as Hn; [|done].
    apply odict_get_set_ne. intros ->. by apply Hn, Hns.
  - case_decide as Hn; [|done].
    apply odict_get_set_ne. intros ->. by apply Hn, Hns.
Qed.

(** X18. When packages were found, [package_dir] maps the empty
    package to [src], [packages] lists each package once in sorted
    order, and [package_data] gives, for each key of the resources in
    their order, the resources of that key, each once, in the order in
    which the set yields them. *)
Theorem package_keywords root_target reduced_dependencies
    (packages namespace_packages : gset string) resources kw :
  (∀ rs, set_order rs ≡ₚ elements rs) →
  write_setup root_target reduced_dependencies
              (packages, namespace_packages, resources) = inr kw →
  packages ≠ ∅ →
  odict_get "package_dir" kw = Some (PyDict [("", PyStr "src")]) ∧
  (∃ sorted,
     odict_get "packages" kw = Some (PyList (PyStr <$> sorted)) ∧
     StronglySorted String.le sorted ∧ NoDup sorted ∧
     ∀ package, package ∈ sorted ↔ package ∈ packages) ∧
  ∃ package_data,
    odict_get "package_data" kw = Some (PyDict package_data) ∧
    Forall2 (λ '(package, rs) '(key, value),
               key = package ∧
               ∃ files, value = PyList (PyStr <$> files) ∧ NoDup files ∧
                        ∀ file, file ∈ files ↔ file ∈ rs)
            resources package_data.
Proof.
  intros Horder Hrun Hne. unfold write_setup in Hrun.
  destruct (provides (get_target root_target)) as [artifact|]; [|done].
  rewrite (decide_True (P := packages ≠ ∅)) in Hrun by done.
  split_and!.
  - rewrite (entry_points_loop_other _ _ _ "package_dir" ltac:(done) Hrun).
    rewrite !odict_get_set_ne by done. apply odict_get_set_eq.
  - exists (merge_sort String.le (elements packages)). split_and!.
    + rewrite (entry_points_loop_other _ _ _ "packages" ltac:(done) Hrun).
      rewrite !odict_get_set_ne by done. apply odict_get_set_eq.
    + apply StronglySorted_merge_sort; apply _.
    + rewrite merge_sort_Permutation. apply NoDup_elements.
    + intros package. by rewrite merge_sort_Permutation, elem_of_elements.
  - eexists. split.
    + rewrite (entry_points_loop_other _ _ _ "package_data" ltac:(done) Hrun).
      rewrite odict_get_set_ne by done. apply odict_get_set_eq.
    + apply Forall2_fmap_r, Forall_Forall2_diag, Forall_forall.
      intros [package rs] _. split; [done|]. exists (set_order rs).
      split_and!; [done| |].
      * rewrite Horder. apply NoDup_elements.
      * intros file. by rewrite Horder, elem_of_elements.
Qed.

(** X19. When the artifact has no [entry_points] keyword and every
    provided binary has an entry point, [entry_points] holds
    [console_scripts] alone, with one [name = entry_point] script for
    each binary in the order of their declaration. *)
Theorem console_scripts_in_declaration_order root_target reduced_dependencies
    found artifact entry_points :
  provides (get_target root_target) = Some artifact →
  "entry_points" ∉ odict_keys (setup_py_keywords artifact) →
  iter_entry_points root_target = inr <$> entry_points →
  entry_points ≠ [] →
  ∃ kw,
    write_setup root_target reduced_dependencies found = inr kw ∧
    odict_get "entry_points" kw
      = Some (PyDict [("console_scripts",
                       PyList ((λ '(binary_name, entry_point),
                                  PyStr (binary_name +:+ " = " +:+ entry_point))
                                 <$> entry_points))]).
Proof.
  intros Hprovides Hno Hentries Hne. unfold write_setup.
  rewrite Hprovides, Hentries. destruct found as [[packages namespace_packages] resources].
  match goal with
  | |- ∃ _, foldl _ (inr ?kw) _ = _ ∧ _ =>
    destruct (entry_points_loop_valid entry_points kw []) as (kw' & Hrun & Hkw')
  end.
  { left. split; [|done].
    intros [?|Hin]%elem_of_odict_keys_set; [done|]. revert Hin.
    case_decide.
    - intros [?|[?|[?|Hin]%elem_of_odict_keys_set]%elem_of_odict_keys_set]%elem_of_odict_keys_set;
        [done..|]. revert Hin.
      case_decide; [|done]. by intros [?|?]%elem_of_odict_keys_set.
    - case_decide; [|done]. by intros [?|?]%elem_of_odict_keys_set. }
  exists kw'. split; [done|]. simpl in Hkw'.
  destruct Hkw' as [[_ Hnil]|?]; [|done].
  by destruct entry_points.
Qed.

(** X20. When the artifact has no [entry_points] keyword and some
    provided binary is not a [PythonBinary] with an entry point,
    [write_setup] raises [TargetDefinitionException]. *)
Theorem binary_without_entry_point_raises root_target reduced_dependencies
    found artifact binary_name binary_target :
  provides (get_target root_target) = Some artifact →
  "entry_points" ∉ odict_keys (setup_py_keywords artifact) →
  (binary_name, binary_target) ∈ provided_binaries (get_target root_target) →
  target_class (get_target binary_target) ≠ PythonBinary ∨
  entry_point (get_target binary_target) = None →
  write_setup root_target reduced_dependencies found
    = inl TargetDefinitionException.
Proof.
  intros Hprovides Hno Hin Hbad. unfold write_setup.
  rewrite Hprovides. destruct found as [[packages namespace_packages] resources].
  match goal with
  | |- foldl _ (inr ?kw) _ = _ =>
    apply (entry_points_loop_invalid _ kw [])
  end.
  - left. split; [|done].
    intros [?|Hin']%elem_of_odict_keys_set; [done|]. revert Hin'.
    case_decide.
    + intros [?|[?|[?|Hin']%elem_of_odict_keys_set]%elem_of_odict_keys_set]%elem_of_odict_keys_set;
        [done..|]. revert Hin'.
      case_decide; [|done]. by intros [?|?]%elem_of_odict_keys_set.
    + case_decide; [|done]. by intros [?|?]%elem_of_odict_keys_set.
  - intros e (  [n b] & He & _)%list_elem_of_fmap.
    destruct (target_class (get_target b)), (entry_point (get_target b));
      by simplify_eq.
  - exists TargetDefinitionException. apply list_elem_of_fmap.
    exists (binary_name, binary_target). split; [|done].
    destruct Hbad as [Hclass| ->].
    + destruct (target_class (get_target binary_target)),
        (entry_point (get_target binary_target)); done.
    + by destruct (target_class (get_target binary_target)).
Qed.
End WriteSetup.

(** ** The outcome of the run phase *)

Section RunPhaseMore.
Context {T : Type} `{Countable T}.
Variable sort_targets : list T → list T.
Variable run_option : option string.
Variable dist_dir : string.
Variable sdist_name : string → option string.
Variable setup_runner_run : string → string → bool.

Local Abbreviation run_targets :=
  (run_targets run_option dist_dir sdist_name setup_runner_run).
Local Abbreviation run_phase :=
  (run_phase sort_targets run_option dist_dir sdist_name setup_runner_run).
Local Abbreviation step_succeeds :=
  (step_succeeds run_option sdist_name setup_runner_run).

(** The error of a step that fails, and the distribution registered
    by a step that succeeds. *)
Local Abbreviation step_error :=
  (match run_option with
   | None | Some EmptyString => PackagerFailed
   | Some _ => InstallFailed
   end).
Local Abbreviation dist_of :=
  (λ setup_dir : string,
     match run_option with
     | None | Some EmptyString =>
       os_path_join dist_dir (default "" (sdist_name setup_dir))
     | Some _ => setup_dir
     end).

Lemma has_setup_dir_Some (created : list (T * string)) t :
  has_setup_dir created t = true ↔
  ∃ setup_dir, odict_get t created = Some setup_dir ∧ setup_dir ≠ "".
Proof.
  unfold has_setup_dir. destruct (odict_get t created) as [[|c d]|].
  - split; [done|]. by intros (? & [= <-] & ?).
  - split; [|done]. intros _. by eexists.
  - split; [done|]. by intros (? & ? & _).
Qed.

(** One round of the loop, on a target without and with a setup
    directory. *)
Lemma run_targets_skip (created : list (T * string)) t ts st :
  has_setup_dir created t = false →
  run_targets created (t :: ts) st = run_targets created ts st.
Proof.
  unfold has_setup_dir. simpl.
  by destruct (odict_get t created) as [[|c d]|].
Qed.

Lemma run_targets_step (created : list (T * string)) t ts st setup_dir :
  odict_get t created = Some setup_dir → setup_dir ≠ "" →
  run_targets created (t :: ts) st =
  if step_succeeds setup_dir then
    run_targets created ts
      {| invoked := invoked st ++ [t];
         python_dists := odict_set t (dist_of setup_dir) (python_dists st) |}
  else ({| invoked := invoked st ++ [t]; python_dists := python_dists st |},
        Some step_error).
Proof.
  intros Hget Hne. simpl. rewrite Hget. unfold step_succeeds.
  destruct setup_dir as [|c d]; [done|].
  destruct run_option as [[|c' command]|].
  - by destruct (sdist_name (String c d)).
  - done.
  - by destruct (sdist_name (String c d)).
Qed.

(** A run that fails stops at the step that failed. *)
Lemma run_targets_failed (created : list (T * string)) ts st st' e :
  run_targets created ts st = (st', Some e) →
  ∃ before failed after setup_dir,
    ts = before ++ failed :: after ∧
    invoked st'
      = invoked st ++ filter (λ t, has_setup_dir created t = true) before
                   ++ [failed] ∧
    odict_get failed created = Some setup_dir ∧ setup_dir ≠ "" ∧
    step_succeeds setup_dir = false ∧ e = step_error ∧
    Forall (λ t, ∀ d, odict_get t created = Some d → d ≠ "" →
                      step_succeeds d = true) before ∧
    ∀ t, t ∈ odict_keys (python_dists st') ↔
         t ∈ odict_keys (python_dists st) ∨
         (t ∈ before ∧ has_setup_dir created t = true).
Proof.
  revert st. induction ts as [|t ts IH]; intros st Hrun; [done|].
  destruct (has_setup_dir created t) eqn:Hhas.
  - destruct (proj1 (has_setup_dir_Some created t) Hhas) as (dir & Hget & Hne).
    rewrite (run_targets_step _ _ _ _ _ Hget Hne) in Hrun.
    destruct (step_succeeds dir) eqn:Hok.
    + destruct (IH _ Hrun)
        as (before & failed & after & d & -> & Hi & ? & ? & ? & ? & Hall & Hk).
      exists (t :: before), failed, after, d. simpl in Hi, Hk.
      split_and!; [done| |done..| |].
      * rewrite filter_cons_True by done. by rewrite Hi, <-!app_assoc.
      * apply Forall_cons. split; [|done]. intros d' Hd' _. by simplify_eq.
      * intros x. rewrite Hk, elem_of_odict_keys_set, elem_of_cons. split.
        -- intros [[->|?]|[??]]; [right|by left|right]; auto.
        -- intros [?|[[->|?] ?]]; [left; by right|left; by left|right; auto].
    + simplify_eq. exists [], t, ts, dir. simpl.
      split_and!; [done..| |].
      * apply Forall_nil_2.
      * intros x. split; [by left|]. by intros [?|[?%elem_of_nil _]].
  - rewrite run_targets_skip in Hrun by done.
    destruct (IH _ Hrun)
      as (before & failed & after & d & -> & Hi & ? & ? & ? & ? & Hall & Hk).
    exists (t :: before), failed, after, d.
    split_and!; [done| |done..| |].
    + by rewrite filter_cons_False by (by rewrite Hhas).
    + apply Forall_cons. split; [|done]. intros d' Hd' Hne'.
      assert (has_setup_dir created t = true) as Htrue
          by (apply has_setup_dir_Some; by exists d').
      congruence.
    + intros x. rewrite Hk, elem_of_cons. split.
      * intros [?|[??]]; [by left|right]; auto.
      * intros [?|[[->|?] ?]]; [by left|congruence|right; auto].
Qed.

(** What a run that does not fail has invoked and registered. *)
Lemma run_targets_done (created : list (T * string)) ts st st' :
  run_targets created ts st = (st', None) →
  invoked st' = invoked st ++ filter (λ t, has_setup_dir created t = true) ts ∧
  ∀ t, t ∈ odict_keys (python_dists st') ↔
       t ∈ odict_keys (python_dists st) ∨
       (t ∈ ts ∧ has_setup_dir created t = true).
Proof.
  revert st. induction ts as [|t ts IH]; intros st Hrun.
  { simpl in Hrun. simplify_eq. rewrite filter_nil, app_nil_r. split; [done|].
    intros t. split; [by left|]. by intros [?|[?%elem_of_nil _]]. }
  destruct (has_setup_dir created t) eqn:Hhas.
  - destruct (proj1 (has_setup_dir_Some created t) Hhas) as (dir & Hget & Hne).
    rewrite (run_targets_step _ _ _ _ _ Hget Hne) in Hrun.
    destruct (step_succeeds dir) eqn:Hok; [|done].
    destruct (IH _ Hrun) as (Hi & Hk). simpl in Hi, Hk. split.
    + rewrite filter_cons_True by done. by rewrite Hi, <-app_assoc.
    + intros x. rewrite Hk, elem_of_odict_keys_set, elem_of_cons. split.
      * intros [[->|?]|[??]]; [right|by left|right]; auto.
      * intros [?|[[->|?] ?]]; [left; by right|left; by left|right; auto].
  - rewrite run_targets_skip in Hrun by done.
    destruct (IH _ Hrun) as (Hi & Hk). split.
    + by rewrite filter_cons_False by (by rewrite Hhas).
    + intros x. rewrite Hk, elem_of_cons. split.
      * intros [?|[??]]; [by left|right]; auto.
      * intros [?|[[->|?] ?]]; [by left|congruence|right; auto].
Qed.

(** Every distribution registered comes from a step that
    succeeded. *)
Lemma run_targets_registered (created : list (T * string)) ts st st' outcome :
  run_targets created ts st = (st', outcome) →
  ∀ t dist, odict_get t (python_dists st') = Some dist →
            odict_get t (python_dists st) = Some dist ∨
            ∃ setup_dir,
              t ∈ ts ∧ odict_get t created = Some setup_dir ∧ setup_dir ≠ "" ∧
              step_succeeds setup_dir = true ∧ dist = dist_of setup_dir.
Proof.
  revert st. induction ts as [|t ts IH]; intros st Hrun x dist Hx.
  { simpl in Hrun. simplify_eq. by left. }
  destruct (has_setup_dir created t) eqn:Hhas.
  - destruct (proj1 (has_setup_dir_Some created t) Hhas) as (dir & Hget & Hne).
    rewrite (run_targets_step _ _ _ _ _ Hget Hne) in Hrun.
    destruct (step_succeeds dir) eqn:Hok; [|simplify_eq; by left].
    destruct (IH _ Hrun _ _ Hx) as [Hx'|(d & ? & ?)].
    + simpl in Hx'. destruct (decide (x = t)) as [->|Hxt].
      * rewrite odict_get_set_eq in Hx'. simplify_eq. right. exists dir.
        split_and!; [by left|done..].
      * rewrite odict_get_set_ne in Hx' by done. by left.
    + right. exists d. split; [by right|done].
  - rewrite run_targets_skip in Hrun by done.
    destruct (IH _ Hrun _ _ Hx) as [?|(d & ? & ?)]; [by left|].
    right. exists d. split; [by right|done].
Qed.

(** X21. Without [--run] the run phase fails only when the packager
    does, and every distribution it registers is the archive that the
    packager built in the setup directory of its target, placed in the
    distribution directory. *)
Theorem packager_dists_are_archives (created : list (T * string)) st outcome :
  run_option = None ∨ run_option = Some "" →
  run_phase created = (st, outcome) →
  (outcome = None ∨ outcome = Some PackagerFailed) ∧
  ∀ t dist, odict_get t (python_dists st) = Some dist →
            ∃ setup_dir tgz_name,
              odict_get t created = Some setup_dir ∧
              sdist_name setup_dir = Some tgz_name ∧
              dist = os_path_join dist_dir tgz_name.
Proof.
  intros Hopt Hrun. split.
  - destruct outcome as [e|]; [right|by left].
    apply run_targets_failed in Hrun
      as (? & ? & ? & ? & _ & _ & _ & _ & _ & -> & _).
    by destruct Hopt as [-> | ->].
  - intros t dist Ht.
    destruct (run_targets_registered _ _ _ _ _ Hrun _ _ Ht)
      as [?|(dir & _ & Hget & _ & Hok & ->)]; [done|].
    unfold step_succeeds in Hok.
    assert (is_Some (sdist_name dir)) as [tgz_name Htgz].
    { destruct Hopt as [Heq|Heq]; rewrite Heq in Hok;
        by apply bool_decide_eq_true in Hok. }
    exists dir, tgz_name. split_and!; [done..|].
    destruct Hopt as [-> | ->]; by rewrite Htgz.
Qed.

(** X22. A run phase that fails raises at the first target, in run
    order, whose step fails, the error of the packager without [--run]
    and [Install failed] with it: the steps of the targets before it
    succeeded, its step is the last one invoked, and no later target is
    run; distributions are registered for the targets before it
    only. *)
Theorem failure_stops_the_run (created : list (T * string)) st e :
  run_phase created = (st, Some e) →
  ∃ before failed after setup_dir,
    reverse (sort_targets (odict_keys created)) = before ++ failed :: after ∧
    invoked st
      = filter (λ t, has_setup_dir created t = true) before ++ [failed] ∧
    odict_get failed created = Some setup_dir ∧ setup_dir ≠ "" ∧
    step_succeeds setup_dir = false ∧
    e = match run_option with
        | None | Some EmptyString => PackagerFailed
        | Some _ => InstallFailed
        end ∧
    Forall (λ t, ∀ d, odict_get t created = Some d → d ≠ "" →
                      step_succeeds d = true) before ∧
    ∀ t, t ∈ odict_keys (python_dists st) ↔
         t ∈ before ∧ has_setup_dir created t = true.
Proof.
  intros Hrun.
  apply run_targets_failed in Hrun
    as (before & failed & after & dir & ? & ? & ? & ? & ? & ? & ? & Hk).
  exists before, failed, after, dir. split_and!; [done..|].
  intros t. rewrite Hk. simpl. split; [|by right].
  by intros [?%elem_of_nil|?].
Qed.

(** X23. A run phase that does not fail invokes a step for each
    target, in run order, that has a setup directory, and registers a
    distribution for exactly the targets invoked; with a [--run]
    command the distribution is the setup directory of the target, in
    which the command succeeded. *)
Theorem dists_registered_for_the_invoked (created : list (T * string)) st :
  run_phase created = (st, None) →
  invoked st = filter (λ t, has_setup_dir created t = true)
                      (reverse (sort_targets (odict_keys created))) ∧
  (∀ t, t ∈ odict_keys (python_dists st) ↔ t ∈ invoked st) ∧
  ∀ t dist command,
    odict_get t (python_dists st) = Some dist →
    run_option = Some command → command ≠ "" →
    odict_get t created = Some dist ∧ setup_runner_run command dist = true.
Proof.
  intros Hrun. pose proof (run_targets_registered _ _ _ _ _ Hrun) as Hv.
  apply run_targets_done in Hrun as (Hi & Hk). simpl in *.
  split_and!; [done| |].
  - intros t. rewrite Hk, Hi, list_elem_of_filter. split.
    + by intros [?%elem_of_nil|[??]].
    + intros [??]. by right.
  - intros t dist command Ht Hopt Hne.
    destruct (Hv _ _ Ht) as [?|(dir & _ & ? & _ & Hok & ->)]; [done|].
    unfold step_succeeds in Hok. rewrite Hopt in Hok |- *.
    by destruct command.
Qed.
End RunPhaseMore.

(** ** write_contents *)

Section WriteContents.
Context {T : Type} `{Countable T}.
Variable get_target : T → Target T.
Variable buildroot : list string.
Variable target_base : T → list string.
Variable sources_relative_to_buildroot : T → list (list string).
Variable path_exists : list string → bool.
Variable derived_by_original : T → option T.

Local Abbreviation copy_parent_inits :=
  (copy_parent_inits target_base path_exists).
Local Abbreviation write_target_source :=
  (write_target_source buildroot target_base path_exists).
Local Abbreviation write_target :=
  (write_target buildroot target_base sources_relative_to_buildroot path_exists
                derived_by_original).
Local Abbreviation write_contents :=
  (write_contents get_target buildroot target_base sources_relative_to_buildroot
                  path_exists derived_by_original).

(** The [__init__.py] of the directory that the first [k] components
    of [src] name, below the source root of the target and in the
    chroot. *)
Local Abbreviation parent_init target src :=
  (λ k : nat, (target_base target ++ take k src ++ ["__init__.py"],
               [SOURCE_ROOT] ++ take k src ++ ["__init__.py"])).

Lemma copy_parent_inits_spec target src chroot :
  copy_parent_inits (length src) target src chroot =
  chroot ++
  (parent_init target src <$>
   filter (λ k, path_exists (target_base target ++ take k src ++ ["__init__.py"])
                = true)
          (reverse (seq 1 (length src - 1)))).
Proof.
  remember (length src) as n eqn:Hn. revert src chroot Hn.
  induction n as [|n IH]; intros src chroot Hn.
  { destruct src; [|done]. simpl. by rewrite app_nil_r. }
  cbn [copy_parent_inits]. rewrite dirname_take, <-Hn.
  replace (S n - 1) with n by lia.
  case_decide as Hnil.
  { assert (n = 0) as ->.
    { apply (f_equal length) in Hnil. rewrite length_take in Hnil.
      simpl in Hnil. lia. }
    simpl. by rewrite app_nil_r. }
  destruct n as [|n].
  { by rewrite take_0 in Hnil. }
  assert (length (take (S n) src) = S n) as Hlen.
  { rewrite length_take. lia. }
  rewrite (IH (take (S n) src)) by done.
  replace (S n - 1) with n by lia.
  assert (reverse (seq 1 (S n)) = S n :: reverse (seq 1 n)) as ->.
  { by rewrite seq_S, reverse_app. }
  assert (∀ k, k ∈ reverse (seq 1 n) → take k (take (S n) src) = take k src)
    as Htake.
  { intros k Hk. apply elem_of_reverse, elem_of_seq in Hk.
    rewrite take_take. f_equal. lia. }
  assert (parent_init target (take (S n) src) <$>
          filter (λ k, path_exists (target_base target ++ take k (take (S n) src)
                                                ++ ["__init__.py"]) = true)
                 (reverse (seq 1 n)) =
          parent_init target src <$>
          filter (λ k, path_exists (target_base target ++ take k src
                                                ++ ["__init__.py"]) = true)
                 (reverse (seq 1 n))) as ->.
  { induction (reverse (seq 1 n)) as [|k l IHl]; [done|].
    assert (take k (take (S n) src) = take k src) as Hk
        by (apply Htake; by left).
    assert (∀ k, k ∈ l → take k (take (S n) src) = take k src) as Hl
        by (intros ??; apply Htake; by right).
    destruct (path_exists (target_base target ++ take k src ++ ["__init__.py"]))
      eqn:Hex.
    - rewrite !filter_cons_True by (by rewrite ?Hk). rewrite !fmap_cons, Hk.
      f_equal. by apply IHl.
    - rewrite !filter_cons_False by (by rewrite ?Hk, Hex). by apply IHl. }
  destruct (path_exists (target_base target ++ take (S n) src ++ ["__init__.py"]))
    eqn:Hex.
  - rewrite filter_cons_True by done. unfold chroot_copy.
    by rewrite fmap_cons, <-app_assoc.
  - by rewrite filter_cons_False by (by rewrite Hex).
Qed.

(** X24. [write_target_source] copies the source file to its place below
    [src], and then the [__init__.py] of each parent directory that has
    one, from the nearest parent up to, and not including, the source
    root. *)
Theorem parent_inits_copied_below_the_root target src chroot :
  write_target_source target src chroot =
  chroot ++
  (buildroot ++ target_base target ++ src, [SOURCE_ROOT] ++ src) ::
  (parent_init target src <$>
   filter (λ k, path_exists (target_base target ++ take k src ++ ["__init__.py"])
                = true)
          (reverse (seq 1 (length src - 1)))).
Proof.
  unfold write_target_source, chroot_copy.
  by rewrite copy_parent_inits_spec, <-app_assoc.
Qed.

Lemma write_target_source_app target src chroot :
  write_target_source target src chroot
  = chroot ++ write_target_source target src [].
Proof.
  unfold write_target_source, chroot_copy.
  by rewrite !copy_parent_inits_spec, <-!app_assoc.
Qed.

Lemma write_target_app target chroot :
  write_target target chroot = chroot ++ write_target target [].
Proof.
  unfold write_target.
  generalize (sources_relative_to_buildroot
                (default target (derived_by_original target))).
  intros l.
  assert (∀ acc,
            foldl (λ chroot rel_source,
                     write_target_source
                       (default target (derived_by_original target))
                       (relpath (buildroot ++ rel_source)
                                (buildroot ++
                                 target_base
                                   (default target (derived_by_original target))))
                       chroot) acc l =
            acc ++ l ≫= (λ rel_source,
                     write_target_source
                       (default target (derived_by_original target))
                       (relpath (buildroot ++ rel_source)
                                (buildroot ++
                                 target_base
                                   (default target (derived_by_original target))))
                       [])) as Hfold.
  { induction l as [|x l IH]; intros acc; simpl; [by rewrite app_nil_r|].
    rewrite IH, write_target_source_app. by rewrite <-app_assoc. }
  rewrite !Hfold. by rewrite app_nil_l.
Qed.

(** X25. [write_contents] copies the sources of the root target and
    then, in their order, those of the reduced dependencies that require
    export and are not exported; the other dependencies contribute no
    file. *)
Theorem write_contents_copies_the_unexported root_target reduced_dependencies
    chroot :
  write_contents root_target reduced_dependencies chroot =
  chroot ++
  (root_target ::
   filter (λ dep, requires_export get_target dep &&
                  negb (is_exported get_target dep) = true)
          reduced_dependencies) ≫= (λ target, write_target target []).
Proof.
  unfold write_contents. rewrite bind_cons, app_assoc, <-write_target_app.
  generalize (write_target root_target chroot). clear chroot.
  induction reduced_dependencies as [|dep l IH]; intros chroot; simpl;
    [by rewrite app_nil_r|].
  assert (requires_export get_target dep && negb (is_exported get_target dep)
          = (is_python_target get_target dep &&
             bool_decide (provides (get_target dep) = None))
            || is_resources_target get_target dep) as Hwritten.
  { unfold requires_export, is_exported, has_provides, is_python_target,
      is_resources_target.
    destruct (target_class (get_target dep)),
      (provides (get_target dep)); done. }
  destruct (is_python_target get_target dep &&
            bool_decide (provides (get_target dep) = None)) eqn:Hpy.
  - rewrite filter_cons_True by (by rewrite Hwritten).
    by rewrite IH, bind_cons, app_assoc, <-write_target_app.
  - destruct (is_resources_target get_target dep) eqn:Hres.
    + rewrite filter_cons_True by (by rewrite Hwritten).
      by rewrite IH, bind_cons, app_assoc, <-write_target_app.
    + rewrite filter_cons_False by (by rewrite Hwritten). apply IH.
Qed.
End WriteContents.

(** ** The creation phase *)

Lemma odict_keys_set_absent `{EqDecision K} {V} (k : K) (v : V) d :
  k ∉ odict_keys d → odict_keys (odict_set k v d) = odict_keys d ++ [k].
Proof.
  unfold odict_keys. induction d as [|[k' v'] d IH]; simpl; [done|].
  intros [Hne Hnot]%not_elem_of_cons. rewrite decide_False by done. simpl.
  f_equal. by apply IH.
Qed.

Section Creation.
Context {T E : Type} `{Countable T}.
Variable get_target : T → Target T.
Variable derived_by_original : T → option T.
Variable target_roots : list T.
Variable is_local_python_dist : T → bool.
Variable recursive : bool.
Variable create_setup_py : T → E + string * list T.

Local Abbreviation is_exported_python_target :=
  (is_exported_python_target get_target is_local_python_dist).
Local Abbreviation create :=
  (create get_target derived_by_original is_local_python_dist recursive
          create_setup_py).
Local Abbreviation exported_python_targets :=
  (exported_python_targets get_target target_roots is_local_python_dist).
Local Abbreviation creation_phase :=
  (creation_phase get_target derived_by_original target_roots
                  is_local_python_dist recursive create_setup_py).
Local Abbreviation creation_closed :=
  (creation_closed get_target derived_by_original is_local_python_dist
                   create_setup_py).
Local Abbreviation subject t := (default t (derived_by_original t)).

Lemma create_unfold fuel t created :
  create (S fuel) t created =
  if decide (t ∉ odict_keys created) then
    match create_setup_py (subject t) with
    | inl e => Some (inl e)
    | inr (setup_dir, dependencies) =>
      if recursive then
        create_each (create fuel)
                    (filter (λ dep, is_exported_python_target dep = true)
                            dependencies)
                    (odict_set t setup_dir created)
      else Some (inr (odict_set t setup_dir created))
    end
  else Some (inr created).
Proof. done. Qed.

Lemma create_each_invariant (P : T → Prop) (Q : E → Prop)
    (I : list (T * string) → Prop)
    (f : T → list (T * string) → option (E + list (T * string))) targets :
  (∀ t created r, t ∈ targets → P t → I created → f t created = Some r →
                  match r with inl e => Q e | inr created' => I created' end) →
  ∀ created r,
    Forall P targets → I created → create_each f targets created = Some r →
    match r with inl e => Q e | inr created' => I created' end.
Proof.
  induction targets as [|t targets IH]; intros Hf created r HP HI Hrun;
    simpl in Hrun.
  { by simplify_eq. }
  apply Forall_cons in HP as [Ht HP].
  destruct (f t created) as [[e|created1]|] eqn:Hcall; simpl in Hrun; [|..|done].
  - simplify_eq. by apply (Hf t created (inl e)); [left|..].
  - eapply IH; [|done| |done].
    + intros t' c r' Hin. apply Hf. by right.
    + by apply (Hf t created (inr created1)); [left|..].
Qed.

(** An invariant of [created] that each call of [create_setup_py]
    keeps holds when the creation is over. *)
Lemma create_invariant (P : T → Prop) (Q : E → Prop)
    (I : list (T * string) → Prop) :
  (∀ t setup_dir dependencies dep,
      P t → create_setup_py (subject t) = inr (setup_dir, dependencies) →
      dep ∈ dependencies → is_exported_python_target dep = true → P dep) →
  (∀ t e, P t → create_setup_py (subject t) = inl e → Q e) →
  (∀ t setup_dir dependencies created,
      P t → I created → t ∉ odict_keys created →
      create_setup_py (subject t) = inr (setup_dir, dependencies) →
      I (odict_set t setup_dir created)) →
  ∀ fuel t created r,
    P t → I created → create fuel t created = Some r →
    match r with inl e => Q e | inr created' => I created' end.
Proof.
  intros HP HQ HI. induction fuel as [|fuel IH]; intros t created r Ht Hc Hrun;
    [done|].
  rewrite create_unfold in Hrun. case_decide as Hnew; [|by simplify_eq].
  destruct (create_setup_py (subject t)) as [e|[setup_dir dependencies]]
    eqn:Hcall.
  { simplify_eq. by eapply HQ. }
  destruct recursive; [|simplify_eq; by eapply HI].
  eapply (create_each_invariant P Q I); [| | |done].
  - intros t' c r' _. apply IH.
  - apply Forall_forall. intros dep [? ?]%list_elem_of_filter. by eapply HP.
  - by eapply HI.
Qed.

Lemma NoDup_exported_python_targets : NoDup exported_python_targets.
Proof.
  unfold exported_python_targets.
  assert (∀ l acc, NoDup acc →
            NoDup (foldl (λ exported t,
                            if is_exported_python_target t
                            then oset_add t exported else exported) acc l))
    as Hfold.
  { induction l as [|t l IH]; intros acc Hacc; simpl; [done|].
    apply IH. destruct (is_exported_python_target t); [|done].
    by apply NoDup_oset_add. }
  apply Hfold, NoDup_nil_2.
Qed.

Lemma elem_of_exported_python_targets t :
  t ∈ exported_python_targets ↔
  t ∈ target_roots ∧ is_exported_python_target t = true.
Proof.
  unfold exported_python_targets.
  assert (∀ l acc x,
            x ∈ foldl (λ exported t,
                         if is_exported_python_target t
                         then oset_add t exported else exported) acc l ↔
            x ∈ acc ∨ (x ∈ l ∧ is_exported_python_target x = true)) as Hfold.
  { induction l as [|t' l IH]; intros acc x; simpl.
    - split; [by left|]. by intros [?|[?%elem_of_nil _]].
    - rewrite IH. destruct (is_exported_python_target t') eqn:Ht'.
      + rewrite elem_of_oset_add, elem_of_cons. naive_solver.
      + rewrite elem_of_cons. split; [naive_solver|].
        intros [?|[[->|?] ?]]; [by left|congruence|by right]. }
  rewrite Hfold. split; [|by right]. by intros [?%elem_of_nil|?].
Qed.

(** X26. Every target for which a project was created is an exported
    python target, and its setup directory is the one that
    [create_setup_py] gave for it. *)
Theorem created_are_exported fuel created :
  creation_phase fuel = Some (inr created) →
  ∀ t setup_dir,
    odict_get t created = Some setup_dir →
    is_exported_python_target t = true ∧
    ∃ dependencies,
      create_setup_py (subject t) = inr (setup_dir, dependencies).
Proof.
  unfold creation_phase.
  destruct exported_python_targets as [|t0 roots] eqn:Hroots; [done|].
  rewrite <-Hroots.
  destruct (create_each (create fuel) exported_python_targets [])
    as [[e|created']|] eqn:Hrun; simpl; [done| |done].
  intros [= ->].
  set (P := λ t, is_exported_python_target t = true).
  set (I := λ created : list (T * string),
              ∀ t setup_dir,
                odict_get t created = Some setup_dir →
                is_exported_python_target t = true ∧
                ∃ dependencies,
                  create_setup_py (subject t) = inr (setup_dir, dependencies)).
  apply (create_each_invariant P (λ _, True) I (create fuel)
           exported_python_targets) with (r := inr created) (created := []);
    [| |done|done].
  - intros t c r _.
    apply (create_invariant P (λ _, True) I); [done|done|].
    intros t1 dir deps c1 Ht1 Hc1 Hnew Hcall t2 dir2 Hget.
    destruct (decide (t2 = t1)) as [->|Hne].
    + rewrite odict_get_set_eq in Hget. simplify_eq. split; [done|by exists deps].
    + rewrite odict_get_set_ne in Hget by done. by apply Hc1.
  - apply Forall_forall. by intros t [_ ?]%elem_of_exported_python_targets.
Qed.

Lemma create_each_flat fuel targets created created' :
  recursive = false →
  NoDup targets → (∀ t, t ∈ targets → t ∉ odict_keys created) →
  create_each (create fuel) targets created = Some (inr created') →
  odict_keys created' = odict_keys created ++ targets.
Proof.
  intros Hrec. revert created. induction targets as [|t targets IH];
    intros created Hnd Hnew Hrun; simpl in Hrun.
  { simplify_eq. by rewrite app_nil_r. }
  apply NoDup_cons in Hnd as [Ht Hnd].
  destruct fuel as [|fuel']; [done|].
  rewrite create_unfold, decide_True in Hrun by (apply Hnew; by left).
  destruct (create_setup_py (subject t)) as [e|[setup_dir dependencies]];
    [done|].
  rewrite Hrec in Hrun. cbn [mbind option_bind] in Hrun.
  rewrite (IH (odict_set t setup_dir created) Hnd); [|..|by rewrite Hrec].
  2:{ intros t' Ht' [->|?]%elem_of_odict_keys_set; [done|].
      by apply (Hnew t'); [right|]. }
  rewrite odict_keys_set_absent by (apply Hnew; by left).
  by rewrite <-app_assoc.
Qed.

(** X27. Without [--recursive], projects are created for the exported
    target roots and for no other target, in the order of the roots. *)
Theorem only_the_roots_without_recursive fuel created :
  recursive = false →
  creation_phase fuel = Some (inr created) →
  odict_keys created = exported_python_targets.
Proof.
  intros Hrec. unfold creation_phase.
  destruct exported_python_targets as [|t0 roots] eqn:Hroots; [done|].
  rewrite <-Hroots.
  destruct (create_each (create fuel) exported_python_targets [])
    as [[e|created']|] eqn:Hrun; simpl; [done| |done].
  intros [= ->].
  assert (∀ t, t ∈ exported_python_targets →
               t ∉ odict_keys (@nil (T * string))) as Hnew
      by (by intros ? _ ?%elem_of_nil).
  apply (create_each_flat fuel exported_python_targets [] created Hrec
           NoDup_exported_python_targets Hnew Hrun).
Qed.

(** What a creation adds to [created]: the target, and with
    [--recursive] the exported targets among the dependencies of each
    target added. *)
Lemma create_reaches fuel t created created' :
  recursive = true →
  create fuel t created = Some (inr created') →
  t ∈ odict_keys created' ∧
  (∀ x, x ∈ odict_keys created → x ∈ odict_keys created') ∧
  ∀ x, x ∈ odict_keys created' →
       x ∈ odict_keys created ∨
       ∀ setup_dir dependencies dep,
         create_setup_py (subject x) = inr (setup_dir, dependencies) →
         dep ∈ dependencies → is_exported_python_target dep = true →
         dep ∈ odict_keys created'.
Proof.
  intros Hrec. revert t created created'.
  induction fuel as [|fuel IH]; intros t created created' Hrun; [done|].
  rewrite create_unfold in Hrun. case_decide as Hnew.
  2:{ simplify_eq. split_and!; [done|done|by left]. }
  destruct (create_setup_py (subject t)) as [e|[setup_dir dependencies]]
    eqn:Hcall; [done|].
  assert (∀ A (a b : A), (if recursive then a else b) = a) as Hif
      by (intros; by rewrite Hrec).
  rewrite Hif in Hrun. clear Hif.
  assert (∀ deps c1 c2,
            create_each (create fuel) deps c1 = Some (inr c2) →
            (∀ x, x ∈ odict_keys c1 → x ∈ odict_keys c2) ∧
            (∀ d, d ∈ deps → d ∈ odict_keys c2) ∧
            ∀ x, x ∈ odict_keys c2 →
                 x ∈ odict_keys c1 ∨
                 ∀ setup_dir dependencies dep,
                   create_setup_py (subject x) = inr (setup_dir, dependencies) →
                   dep ∈ dependencies → is_exported_python_target dep = true →
                   dep ∈ odict_keys c2) as Hloop.
  { induction deps as [|d deps IHd]; intros c1 c2 Hloop; simpl in Hloop.
    - simplify_eq. split_and!; [done|by intros ? ?%elem_of_nil|by left].
    - destruct (create fuel d c1) as [[e|c]|] eqn:Hd; simpl in Hloop;
        [done| |done].
      destruct (IH _ _ _ Hd) as (Hdin & Hsub & Hnew').
      destruct (IHd _ _ Hloop) as (Hsub' & Hall & Hnew'').
      split_and!.
      + intros x ?. by apply Hsub', Hsub.
      + intros x [->|?]%elem_of_cons; [by apply Hsub'|by apply Hall].
      + intros x Hx. destruct (Hnew'' x Hx) as [Hxc|?]; [|by right].
        destruct (Hnew' x Hxc) as [?|Hdeps]; [by left|].
        right. intros dir' deps' dep ???. apply Hsub'. by eapply Hdeps. }
  destruct (Hloop _ _ _ Hrun) as (Hsub & Hall & Hnew').
  split_and!.
  - apply Hsub, elem_of_odict_keys_set. by left.
  - intros x ?. apply Hsub, elem_of_odict_keys_set. by right.
  - intros x Hx.
    destruct (Hnew' x Hx) as [[->|?]%elem_of_odict_keys_set|?];
      [|by left|by right].
    right. intros dir' deps' dep Hcall' Hdep Hexp. rewrite Hcall in Hcall'.
    simplify_eq. apply Hall. by apply list_elem_of_filter.
Qed.

(** X28. With [--recursive], a project is created for each exported
    target root and, for each target that has a project, for each
    exported python target among its reduced dependencies. *)
Theorem recursive_creation_is_closed fuel created :
  recursive = true →
  creation_phase fuel = Some (inr created) →
  (∀ t, t ∈ exported_python_targets → t ∈ odict_keys created) ∧
  ∀ t setup_dir dependencies dep,
    t ∈ odict_keys created →
    create_setup_py (subject t) = inr (setup_dir, dependencies) →
    dep ∈ dependencies → is_exported_python_target dep = true →
    dep ∈ odict_keys created.
Proof.
  intros Hrec. unfold creation_phase.
  destruct exported_python_targets as [|t0 roots] eqn:Hroots; [done|].
  rewrite <-Hroots.
  destruct (create_each (create fuel) exported_python_targets [])
    as [[e|created']|] eqn:Hrun; simpl; [done| |done].
  intros [= ->].
  assert (∀ targets c1 c2,
            create_each (create fuel) targets c1 = Some (inr c2) →
            (∀ x, x ∈ odict_keys c1 → x ∈ odict_keys c2) ∧
            (∀ d, d ∈ targets → d ∈ odict_keys c2) ∧
            ∀ x, x ∈ odict_keys c2 →
                 x ∈ odict_keys c1 ∨
                 ∀ setup_dir dependencies dep,
                   create_setup_py (subject x) = inr (setup_dir, dependencies) →
                   dep ∈ dependencies → is_exported_python_target dep = true →
                   dep ∈ odict_keys c2) as Hloop.
  { induction targets as [|d deps IHd]; intros c1 c2 Hloop; simpl in Hloop.
    - simplify_eq. split_and!; [done|by intros ? ?%elem_of_nil|by left].
    - destruct (create fuel d c1) as [[e|c]|] eqn:Hd; simpl in Hloop;
        [done| |done].
      destruct (create_reaches _ _ _ _ Hrec Hd) as (Hdin & Hsub & Hnew').
      destruct (IHd _ _ Hloop) as (Hsub' & Hall & Hnew'').
      split_and!.
      + intros x ?. by apply Hsub', Hsub.
      + intros x [->|?]%elem_of_cons; [by apply Hsub'|by apply Hall].
      + intros x Hx. destruct (Hnew'' x Hx) as [Hxc|?]; [|by right].
        destruct (Hnew' x Hxc) as [?|Hdeps]; [by left|].
        right. intros dir' deps' dep ???. apply Hsub'. by eapply Hdeps. }
  destruct (Hloop _ _ _ Hrun) as (_ & Hall & Hnew).
  split; [done|]. intros t dir deps dep Ht Hcall Hdep Hexp.
  destruct (Hnew t Ht) as [?%elem_of_nil|Hdeps]; [done|]. by eapply Hdeps.
Qed.

(** X29. [execute] raises that an artifact must be provided exactly when
    no target root is an exported python target; every other error of
    the creation phase is one that [create_setup_py] raised for an
    exported python target. *)
Theorem creation_errors fuel :
  (creation_phase fuel = Some (inl NoArtifactProvided) ↔
   ∀ t, t ∈ target_roots → is_exported_python_target t = false) ∧
  ∀ e, creation_phase fuel = Some (inl (CreateSetupPyFailed e)) →
       ∃ t, is_exported_python_target t = true ∧
            create_setup_py (subject t) = inl e.
Proof.
  unfold creation_phase. split.
  - destruct exported_python_targets as [|t0 roots] eqn:Hroots.
    + split; [|done]. intros _ t Ht.
      destruct (is_exported_python_target t) eqn:Hexp; [|done].
      assert (t ∈ exported_python_targets) as Hin
          by by apply elem_of_exported_python_targets.
      rewrite Hroots in Hin. by apply elem_of_nil in Hin.
    + split.
      * by destruct (create_each _ _ _) as [[?|?]|].
      * intros Hnone. assert (t0 ∈ exported_python_targets) as Hin
            by (rewrite Hroots; by left).
        apply elem_of_exported_python_targets in Hin as [Hin Hexp].
        by rewrite (Hnone _ Hin) in Hexp.
  - intros e. destruct exported_python_targets as [|t0 roots] eqn:Hroots; [done|].
    rewrite <-Hroots.
    destruct (create_each (create fuel) exported_python_targets [])
      as [[e'|created']|] eqn:Hrun; simpl; [|done..].
    intros [= ->].
    apply (create_each_invariant
             (λ t, is_exported_python_target t = true)
             (λ e, ∃ t, is_exported_python_target t = true ∧
                        create_setup_py (subject t) = inl e)
             (λ _, True)
             (create fuel) exported_python_targets) with (r := inl e)
      (created := []); [| |done|done].
    + intros t c r _.
      apply (create_invariant (λ t, is_exported_python_target t = true)
               (λ e, ∃ t, is_exported_python_target t = true ∧
                          create_setup_py (subject t) = inl e)
               (λ _, True)); [done| |done].
      intros t1 e1 ??. by exists t1.
    + apply Forall_forall. by intros t [_ ?]%elem_of_exported_python_targets.
Qed.

Lemma create_monotone fuel t created created' :
  create fuel t created = Some (inr created') →
  ∀ x, x ∈ odict_keys created → x ∈ odict_keys created'.
Proof.
  intros Hrun x Hx.
  apply (create_invariant (λ _, True) (λ _, True)
           (λ c, x ∈ odict_keys c)) with (r := inr created') (fuel := fuel)
    (t := t) (created := created); [done|done| |done|done|done].
  intros ???? _ ? _ _. apply elem_of_odict_keys_set. by right.
Qed.

Section Finite.
Variable U : gset T.
Hypothesis closed : creation_closed U.

Lemma create_terminates fuel t created :
  t ∈ U → size (U ∖ list_to_set (odict_keys created)) < fuel →
  is_Some (create fuel t created).
Proof.
  revert t created. induction fuel as [|fuel IH]; intros t created Ht Hfuel;
    [lia|].
  rewrite create_unfold. case_decide as Hnew; [|done].
  destruct (create_setup_py (subject t)) as [e|[setup_dir dependencies]]
    eqn:Hcall; [done|].
  assert (recursive = true ∨ recursive = false) as [Hrec|Hrec]
      by (destruct recursive; auto).
  2:{ assert (∀ A (a b : A), (if recursive then a else b) = b) as Hif
          by (intros; by rewrite Hrec).
      by rewrite Hif. }
  assert (∀ A (a b : A), (if recursive then a else b) = a) as Hif
      by (intros; by rewrite Hrec).
  rewrite Hif. clear Hif Hrec.
  assert (size (U ∖ list_to_set (odict_keys (odict_set t setup_dir created)))
          < size (U ∖ list_to_set (odict_keys created))) as Hlt.
  { apply subset_size. split.
    - intros x [Hx Hnot]%elem_of_difference. apply elem_of_difference.
      split; [done|]. intros Hin. apply Hnot.
      apply elem_of_list_to_set, elem_of_odict_keys_set. right.
      by apply elem_of_list_to_set in Hin.
    - intros Hsub. specialize (Hsub t).
      assert (t ∈ U ∖ list_to_set (odict_keys created)) as Hin.
      { apply elem_of_difference. split; [done|]. by rewrite elem_of_list_to_set. }
      apply Hsub, elem_of_difference in Hin as [_ Hnot]. apply Hnot.
      apply elem_of_list_to_set, elem_of_odict_keys_set. by left. }
  assert (Forall (λ dep, dep ∈ U)
                 (filter (λ dep, is_exported_python_target dep = true)
                         dependencies)) as Hdeps.
  { apply Forall_forall. intros dep [Hexp Hin]%list_elem_of_filter.
    pose proof (closed t Ht _ _ Hcall) as Hall. rewrite Forall_forall in Hall.
    by apply Hall. }
  assert (size (U ∖ list_to_set (odict_keys (odict_set t setup_dir created)))
          < fuel) as Hfuel1 by lia.
  revert Hdeps Hfuel1. clear Hlt Hfuel Hnew Hcall.
  generalize (odict_set t setup_dir created).
  generalize (filter (λ dep, is_exported_python_target dep = true) dependencies).
  intros deps. induction deps as [|d deps IHd]; intros c Hdeps Hfuel; simpl;
    [done|].
  apply Forall_cons in Hdeps as [Hd Hdeps].
  destruct (IH d c Hd Hfuel) as [[e|c1] Hc1]; rewrite Hc1; simpl; [done|].
  apply IHd; [done|].
  eapply Nat.le_lt_trans; [|done]. apply subseteq_size.
  intros x [Hx Hnot]%elem_of_difference. apply elem_of_difference.
  split; [done|]. intros Hin. apply Hnot.
  apply elem_of_list_to_set. apply (create_monotone _ _ _ _ Hc1).
  by apply elem_of_list_to_set in Hin.
Qed.

(** X30. The creation phase terminates: on a finite set of targets that
    holds the target roots and, with a target, the exported python
    targets among its reduced dependencies, a recursion bound above the
    size of the set is enough. *)
Theorem creation_phase_terminates fuel :
  (∀ t, t ∈ target_roots → t ∈ U) → size U < fuel →
  is_Some (creation_phase fuel).
Proof.
  intros Hroots Hfuel. unfold creation_phase.
  destruct exported_python_targets as [|t0 roots] eqn:Hexp; [done|].
  rewrite <-Hexp.
  assert (Forall (λ t, t ∈ U) exported_python_targets) as Hall.
  { apply Forall_forall. intros t [? _]%elem_of_exported_python_targets.
    by apply Hroots. }
  assert (is_Some (create_each (create fuel) exported_python_targets []))
    as [[e|c] ->]; [|done..].
  assert (size (U ∖ list_to_set (odict_keys (@nil (T * string)))) < fuel)
    as Hfuel0.
  { eapply Nat.le_lt_trans; [|done]. apply subseteq_size. set_solver. }
  revert Hall Hfuel0. generalize (@nil (T * string)).
  generalize exported_python_targets.
  intros targets. induction targets as [|d targets IHd]; intros c Hall Hc;
    simpl; [done|].
  apply Forall_cons in Hall as [Hd Hall].
  destruct (create_terminates fuel d c Hd Hc) as [[e|c1] Hc1]; rewrite Hc1;
    simpl; [done|].
  apply IHd; [done|].
  eapply Nat.le_lt_trans; [|done]. apply subseteq_size.
  intros x [Hx Hnot]%elem_of_difference. apply elem_of_difference.
  split; [done|]. intros Hin. apply Hnot.
  apply elem_of_list_to_set. apply (create_monotone _ _ _ _ Hc1).
  by apply elem_of_list_to_set in Hin.
Qed.
End Finite.
End Creation.

(** ** The properties at work on tables *)

Lemma visitor_called_on_kept_reachable_witness :
  let visitor :=
    collect_potentially_owned_python_targets
      (is_exported (get_target nearer_and_farther))
      (λ t, target_is_original (get_target nearer_and_farther t)) "a:e" in
  let keep := λ t, bool_decide (t = "a:e")
                   || negb (is_exported (get_target nearer_and_farther) t) in
  (∀ t s, (visitor t s).1 = keep t) ∧
  _walk (dependencies (get_target nearer_and_farther)) (logging visitor) 4
        "a:e" ([], [])
    = Some (["a:e"; "a/b:x"], [("a:e", None); ("a/b:x", None)]) ∧
  ∀ x, x ∈ ["a:e"; "a/b:x"] ↔
       rtc (descends (dependencies (get_target nearer_and_farther)) keep)
           "a:e" x.
Proof.
  intros visitor keep.
  assert (∀ t s, (visitor t s).1 = keep t) as Hkeep by done.
  assert (_walk (dependencies (get_target nearer_and_farther))
                (logging visitor) 4 "a:e" ([], [])
          = Some (["a:e"; "a/b:x"], [("a:e", None); ("a/b:x", None)])) as Hrun
    by (vm_compute; reflexivity).
  split_and!; [done..|].
  exact (visitor_called_on_kept_reachable
           (dependencies (get_target nearer_and_farther)) visitor keep 4 "a:e"
           [] _ _ Hkeep Hrun).
Defined.

Lemma provisional_characterisation_witness :
  collected nearer_and_farther 4 "a:e" = Some ["a:e"; "a/b:x"] ∧
  NoDup ["a:e"; "a/b:x"] ∧
  ∀ x, x ∈ ["a:e"; "a/b:x"] ↔
       target_is_original (get_target nearer_and_farther x) = true ∧
       rtc (descends (dependencies (get_target nearer_and_farther))
              (λ t, bool_decide (t = "a:e")
                    || negb (is_exported (get_target nearer_and_farther) t)))
           (target_derived_from (get_target nearer_and_farther "a:e")) x.
Proof.
  assert (collected nearer_and_farther 4 "a:e" = Some ["a:e"; "a/b:x"]) as Hrun
    by (vm_compute; reflexivity).
  split; [done|].
  exact (provisional_characterisation
           (requires_export (get_target nearer_and_farther)) (is_exported (get_target nearer_and_farther))
           (dependencies (get_target nearer_and_farther))
           (λ t, target_is_original (get_target nearer_and_farther t))
           (λ t, target_derived_from (get_target nearer_and_farther t))
           (λ t, address_spec_path (get_target nearer_and_farther t))
           (iter_targets_in_spec_path nearer_and_farther) (λ _, 0) 4 "a:e" _ Hrun).
Defined.

Lemma owner_is_exported_ancestor_witness :
  resolved nearer_and_farther 0 4 "a/b:x" = Some (inr "a/b:n") ∧
  "a/b:n" ∈ lineage nearer_and_farther "a/b:x" ∧
  is_exported (get_target nearer_and_farther) "a/b:n" = true ∧
  rtc (depends (dependencies (get_target nearer_and_farther))) "a/b:n" "a/b:x".
Proof.
  assert (resolved nearer_and_farther 0 4 "a/b:x" = Some (inr "a/b:n")) as Hrun
    by (vm_compute; reflexivity).
  split; [done|].
  exact (owner_is_exported_ancestor
           (requires_export (get_target nearer_and_farther)) (is_exported (get_target nearer_and_farther))
           (dependencies (get_target nearer_and_farther))
           (λ t, target_is_original (get_target nearer_and_farther t))
           (λ t, target_derived_from (get_target nearer_and_farther t))
           (λ t, address_spec_path (get_target nearer_and_farther t))
           (iter_targets_in_spec_path nearer_and_farther) (λ _, 0) 4 "a/b:x" "a/b:n" Hrun).
Defined.

Lemma ambiguous_owners_share_spec_path_witness :
  resolved nearer_and_two_farther 1 5 "a/b:x"
    = Some (inl (AmbiguousOwnerError "a/b:x" "a:e" ["a:f"])) ∧
  "a/b:x" = "a/b:x" ∧ ["a:f"] ≠ [] ∧
  "a:e" ∈ lineage nearer_and_two_farther "a/b:x" ∧
  candidate nearer_and_two_farther 5 "a/b:x" "a:e" = true ∧
  Forall (λ o, o ≠ "a:e" ∧
               address_spec_path (get_target nearer_and_two_farther o)
               = address_spec_path (get_target nearer_and_two_farther "a:e") ∧
               o ∈ lineage nearer_and_two_farther "a/b:x" ∧
               candidate nearer_and_two_farther 5 "a/b:x" o = true)
         ["a:f"].
Proof.
  assert (resolved nearer_and_two_farther 1 5 "a/b:x"
          = Some (inl (AmbiguousOwnerError "a/b:x" "a:e" ["a:f"]))) as Hrun
    by (vm_compute; reflexivity).
  split; [done|].
  exact (ambiguous_owners_share_spec_path
           (requires_export (get_target nearer_and_two_farther)) (is_exported (get_target nearer_and_two_farther))
           (dependencies (get_target nearer_and_two_farther))
           (λ t, target_is_original (get_target nearer_and_two_farther t))
           (λ t, target_derived_from (get_target nearer_and_two_farther t))
           (λ t, address_spec_path (get_target nearer_and_two_farther t))
           (iter_targets_in_spec_path nearer_and_two_farther) (λ _, 1) 5 "a/b:x" "a/b:x" "a:e" ["a:f"] Hrun).
Defined.

Lemma distinct_spec_paths_are_not_ambiguous_witness :
  owners nearer_and_farther 4 "a/b:x" = Some ["a/b:n"; "a:e"] ∧
  ["a/b:n"; "a:e"] ≠ [] ∧
  NoDup ((λ t, address_spec_path (get_target nearer_and_farther t))
           <$> ["a/b:n"; "a:e"]) ∧
  ∃ owner, owner ∈ ["a/b:n"; "a:e"] ∧
           resolved nearer_and_farther 1 4 "a/b:x" = Some (inr owner).
Proof.
  assert (owners nearer_and_farther 4 "a/b:x" = Some ["a/b:n"; "a:e"]) as Hrun
    by (vm_compute; reflexivity).
  assert (["a/b:n"; "a:e"] ≠ @nil string) as Hne by done.
  assert (NoDup ((λ t, address_spec_path (get_target nearer_and_farther t))
                   <$> ["a/b:n"; "a:e"])) as Hnd by compute_done.
  split_and!; [done..|].
  exact (distinct_spec_paths_are_not_ambiguous
           (requires_export (get_target nearer_and_farther)) (is_exported (get_target nearer_and_farther))
           (dependencies (get_target nearer_and_farther))
           (λ t, target_is_original (get_target nearer_and_farther t))
           (λ t, target_derived_from (get_target nearer_and_farther t))
           (λ t, address_spec_path (get_target nearer_and_farther t))
           (iter_targets_in_spec_path nearer_and_farther) (λ _, 1) 4 "a/b:x" _ Hrun Hne Hnd).
Defined.

Lemma sibling_owners_are_ambiguous_witness :
  owners ambiguous_then_unowned 5 "a:x" = Some ["a:e"; "a:f"] ∧
  "a:e" ∈ ["a:e"; "a:f"] ∧ "a:f" ∈ ["a:e"; "a:f"] ∧ "a:e" ≠ "a:f" ∧
  (∀ o, o ∈ ["a:e"; "a:f"] →
        address_spec_path (get_target ambiguous_then_unowned o)
        = address_spec_path (get_target ambiguous_then_unowned "a:e")) ∧
  ∃ owner ambiguous_owners,
    resolved ambiguous_then_unowned 1 5 "a:x"
      = Some (inl (AmbiguousOwnerError "a:x" owner ambiguous_owners)).
Proof.
  assert (owners ambiguous_then_unowned 5 "a:x" = Some ["a:e"; "a:f"]) as Hrun
    by (vm_compute; reflexivity).
  assert ("a:e" ∈ ["a:e"; "a:f"]) as H1 by compute_done.
  assert ("a:f" ∈ ["a:e"; "a:f"]) as H2 by compute_done.
  assert ("a:e" ≠ "a:f") as Hne by done.
  assert (∀ o, o ∈ ["a:e"; "a:f"] →
               address_spec_path (get_target ambiguous_then_unowned o)
               = address_spec_path (get_target ambiguous_then_unowned "a:e"))
    as Hsame.
  { apply Forall_forall. compute_done. }
  split_and!; [done..|].
  exact (sibling_owners_are_ambiguous
           (requires_export (get_target ambiguous_then_unowned)) (is_exported (get_target ambiguous_then_unowned))
           (dependencies (get_target ambiguous_then_unowned))
           (λ t, target_is_original (get_target ambiguous_then_unowned t))
           (λ t, target_derived_from (get_target ambiguous_then_unowned t))
           (λ t, address_spec_path (get_target ambiguous_then_unowned t))
           (iter_targets_in_spec_path ambiguous_then_unowned) (λ _, 1) 5 "a:x" _ "a:e" "a:f" Hrun H1 H2 Hne Hsame).
Defined.

Lemma owner_map_entries_witness :
  let owner_by := [("a:e", None); ("a/b:x", Some "a/b:n")] in
  owner_map nearer_and_farther 0 4 "a:e" = Some (inr owner_by) ∧
  collected nearer_and_farther 4 "a:e" = Some (odict_keys owner_by) ∧
  (∀ k, k ∉ odict_keys owner_by → odict_get k owner_by = None) ∧
  ∀ k, k ∈ odict_keys owner_by →
       if requires_export (get_target nearer_and_farther) k &&
          negb (is_exported (get_target nearer_and_farther) k)
       then ∃ owner, odict_get k owner_by = Some (Some owner) ∧
                     resolved nearer_and_farther 0 4 k = Some (inr owner)
       else odict_get k owner_by = Some None.
Proof.
  intros owner_by.
  assert (owner_map nearer_and_farther 0 4 "a:e" = Some (inr owner_by)) as Hrun
    by (vm_compute; reflexivity).
  split; [done|].
  exact (owner_map_entries
           (requires_export (get_target nearer_and_farther)) (is_exported (get_target nearer_and_farther))
           (dependencies (get_target nearer_and_farther))
           (λ t, target_is_original (get_target nearer_and_farther t))
           (λ t, target_derived_from (get_target nearer_and_farther t))
           (λ t, address_spec_path (get_target nearer_and_farther t))
           (iter_targets_in_spec_path nearer_and_farther) (λ _, 0) 4 "a:e" owner_by Hrun).
Defined.

Lemma reduced_characterisation_witness :
  reduced nearer_and_farther 0 4 "a:e" = Some (inr ["a/b:n"]) ∧
  ∃ owner_by,
    owner_map nearer_and_farther 0 4 "a:e" = Some (inr owner_by) ∧
    NoDup ["a/b:n"] ∧
    ∀ d, d ∈ ["a/b:n"] ↔
         target_is_original (get_target nearer_and_farther d) = true ∧
         ∃ current,
           current ≠ "a:e" ∧
           rtc (descends (dependencies (get_target nearer_and_farther))
                  (continues (requires_export (get_target nearer_and_farther))
                             owner_by "a:e"))
               "a:e" current ∧
           d = provider owner_by "a:e" current.
Proof.
  assert (reduced nearer_and_farther 0 4 "a:e" = Some (inr ["a/b:n"])) as Hrun
    by (vm_compute; reflexivity).
  split; [done|].
  exact (reduced_characterisation
           (requires_export (get_target nearer_and_farther)) (is_exported (get_target nearer_and_farther))
           (dependencies (get_target nearer_and_farther))
           (λ t, target_is_original (get_target nearer_and_farther t))
           (λ t, target_derived_from (get_target nearer_and_farther t))
           (λ t, address_spec_path (get_target nearer_and_farther t))
           (iter_targets_in_spec_path nearer_and_farther) (λ _, 0) 4 "a:e" _ Hrun).
Defined.

Lemma errors_of_reduced_dependencies_witness :
  reduced unowned 0 3 "a:e" = Some (inl (NoOwnerError "b:y")) ∧
  is_exported (get_target unowned) "a:e" = true ∧
  (∃ collected', collected unowned 3 "a:e" = Some collected' ∧
                 "b:y" ∈ collected') ∧
  requires_export (get_target unowned) "b:y" = true ∧
  is_exported (get_target unowned) "b:y" = false ∧
  resolved unowned 0 3 "b:y" = Some (inl (NoOwnerError "b:y")).
Proof.
  assert (reduced unowned 0 3 "a:e" = Some (inl (NoOwnerError "b:y"))) as Hrun
    by (vm_compute; reflexivity).
  split; [done|].
  exact (errors_of_reduced_dependencies
           (requires_export (get_target unowned)) (is_exported (get_target unowned))
           (dependencies (get_target unowned))
           (λ t, target_is_original (get_target unowned t))
           (λ t, target_derived_from (get_target unowned t))
           (λ t, address_spec_path (get_target unowned t))
           (iter_targets_in_spec_path unowned) (λ _, 0) 3 "a:e" _ Hrun).
Defined.

Lemma packages_are_init_directories_witness :
  let detect := λ inits : list string, Some (take 1 inits) in
  find_packages "src" staged_example detect
    = inr ({["a"; "a.b"]}, {["a"]}, [("a.b", {["c/data.txt"]})]) ∧
  (∀ m, m ∈ ({["a"; "a.b"]} : gset string) ↔
        ∃ real_filename,
          (m, "__init__.py", real_filename) ∈ iter_files "src" staged_example) ∧
  ({["a"]} : gset string) ⊆ {["a"; "a.b"]} ∧
  ∃ declared,
    detect (odict_keys (establish_packages "src" staged_example).2)
      = Some declared ∧
    ∀ m, m ∈ ({["a"]} : gset string) ↔
         ∃ init, init ∈ declared ∧
                 odict_get init (establish_packages "src" staged_example).2
                 = Some m.
Proof.
  intros detect.
  assert (find_packages "src" staged_example detect
          = inr ({["a"; "a.b"]}, {["a"]}, [("a.b", {["c/data.txt"]})])) as Hrun
    by (vm_compute; reflexivity).
  split; [done|].
  exact (packages_are_init_directories "src" staged_example detect _ _ _ Hrun).
Defined.

Lemma resources_are_the_files_kept_witness :
  find_packages "src" staged_with_docs no_namespaces
    = inr ({["a"]}, ∅, [("docs", {["index.txt"]})]) ∧
  ∀ package recorded,
    (∃ files, odict_get package [("docs", ({["index.txt"]} : gset string))]
              = Some files ∧ recorded ∈ files) ↔
    ∃ module filename real_filename,
      (module, filename, real_filename) ∈ iter_files "src" staged_with_docs ∧
      ¬ (endswith filename ".py" = true ∧ module ∈ ({["a"]} : gset string)) ∧
      attribute {["a"]} module filename = inr (package, recorded).
Proof.
  assert (find_packages "src" staged_with_docs no_namespaces
          = inr ({["a"]}, ∅, [("docs", {["index.txt"]})])) as Hrun
    by (vm_compute; reflexivity).
  split; [done|].
  exact (resources_are_the_files_kept "src" staged_with_docs no_namespaces
           _ _ _ Hrun).
Defined.

Lemma package_is_its_own_nearest_subpackage_witness :
  "a.b" ∈ ({["a"; "a.b"]} : gset string) ∧
  nearest_subpackage "a.b" (elements ({["a"; "a.b"]} : gset string)) = "a.b" ∧
  attribute {["a"; "a.b"]} "a.b" "data.txt" = inr ("a.b", "data.txt").
Proof.
  assert ("a.b" ∈ ({["a"; "a.b"]} : gset string)) as Hin by compute_done.
  split; [done|].
  exact (package_is_its_own_nearest_subpackage "a.b" {["a"; "a.b"]} "data.txt"
           Hin).
Defined.

Lemma nearest_subpackage_order_independent_witness :
  ["a"; "a.b"] ≡ₚ ["a.b"; "a"] ∧
  nearest_subpackage "a.b.c" ["a"; "a.b"]
  = nearest_subpackage "a.b.c" ["a.b"; "a"].
Proof.
  assert (["a"; "a.b"] ≡ₚ ["a.b"; "a"]) as Hperm by apply perm_swap.
  split; [done|].
  exact (nearest_subpackage_order_independent "a.b.c" _ _ Hperm).
Defined.

Lemma write_setup_keeps_other_keywords_witness :
  let kw :=
    [("name", PyStr "a"); ("version", PyStr "1.0");
     ("package_dir", PyDict [("", PyStr "src")]);
     ("packages", PyList [PyStr "a"]); ("package_data", PyDict []);
     ("install_requires",
      PyList [PyStr "zope.interface==4.0"; PyStr "attrs==19.1";
              PyStr "b==1.0"])] in
  provides (get_target with_requirements "p:a") = Some (artifact "a" "1.0") ∧
  write_setup (get_target with_requirements) elements "p:a"
              ["3rdparty:reqs"; "q:b"] ({["a"]}, ∅, []) = inr kw ∧
  ("version" ∉ ["namespace_packages"; "package_dir"; "packages";
                "package_data"; "install_requires"; "entry_points"]) ∧
  odict_get "version" kw
  = odict_get "version" (setup_py_keywords (artifact "a" "1.0")).
Proof.
  intros kw.
  assert (provides (get_target with_requirements "p:a")
          = Some (artifact "a" "1.0")) as Hprovides by reflexivity.
  assert (write_setup (get_target with_requirements) elements "p:a"
                      ["3rdparty:reqs"; "q:b"] ({["a"]}, ∅, []) = inr kw)
    as Hrun by (vm_compute; reflexivity).
  assert ("version" ∉ ["namespace_packages"; "package_dir"; "packages";
                       "package_data"; "install_requires"; "entry_points"])
    as Hk by compute_done.
  split; [exact Hprovides|]. split; [exact Hrun|]. split; [exact Hk|].
  exact (write_setup_keeps_other_keywords (get_target with_requirements)
           elements "p:a" ["3rdparty:reqs"; "q:b"] {["a"]} ∅ [] (artifact "a" "1.0") kw
           "version" Hprovides Hrun (or_introl Hk)).
Defined.

Lemma package_keywords_witness :
  let set_order := λ rs : gset string, reverse (elements rs) in
  let resources := [("a", ({["x.json"; "y.json"]} : gset string))] in
  let kw :=
    [("name", PyStr "a"); ("version", PyStr "1.0");
     ("package_dir", PyDict [("", PyStr "src")]);
     ("packages", PyList [PyStr "a"]);
     ("package_data",
      PyDict [("a", PyList [PyStr "x.json"; PyStr "y.json"])]);
     ("install_requires",
      PyList [PyStr "zope.interface==4.0"; PyStr "attrs==19.1";
              PyStr "b==1.0"])] in
  (∀ rs, set_order rs ≡ₚ elements rs) ∧
  write_setup (get_target with_requirements) set_order "p:a"
              ["3rdparty:reqs"; "q:b"] ({["a"]}, ∅, resources) = inr kw ∧
  ({["a"]} : gset string) ≠ ∅ ∧
  odict_get "package_dir" kw = Some (PyDict [("", PyStr "src")]) ∧
  (∃ sorted,
     odict_get "packages" kw = Some (PyList (PyStr <$> sorted)) ∧
     StronglySorted String.le sorted ∧ NoDup sorted ∧
     ∀ package, package ∈ sorted ↔ package ∈ ({["a"]} : gset string)) ∧
  ∃ package_data,
    odict_get "package_data" kw = Some (PyDict package_data) ∧
    Forall2 (λ '(package, rs) '(key, value),
               key = package ∧
               ∃ files, value = PyList (PyStr <$> files) ∧ NoDup files ∧
                        ∀ file, file ∈ files ↔ file ∈ rs)
            resources package_data.
Proof.
  intros set_order resources kw.
  assert (∀ rs, set_order rs ≡ₚ elements rs) as Horder
    by (intros rs; apply reverse_Permutation).
  assert (write_setup (get_target with_requirements) set_order "p:a"
                      ["3rdparty:reqs"; "q:b"] ({["a"]}, ∅, resources)
          = inr kw) as Hrun by (vm_compute; reflexivity).
  assert (({["a"]} : gset string) ≠ ∅) as Hne by compute_done.
  split; [exact Horder|]. split; [exact Hrun|]. split; [exact Hne|].
  exact (package_keywords (get_target with_requirements) set_order "p:a"
           ["3rdparty:reqs"; "q:b"] {["a"]} ∅ resources kw Horder Hrun Hne).
Defined.

Lemma console_scripts_in_declaration_order_witness :
  let graph := with_binaries (Some "a.main:serve") in
  let entry_points := [("run", "a.main:run"); ("serve", "a.main:serve")] in
  provides (get_target graph "p:a") = Some (artifact "a" "1.0") ∧
  ("entry_points" ∉ odict_keys (setup_py_keywords (artifact "a" "1.0"))) ∧
  iter_entry_points (get_target graph) "p:a" = inr <$> entry_points ∧
  entry_points ≠ [] ∧
  ∃ kw,
    write_setup (get_target graph) elements "p:a" [] (∅, ∅, []) = inr kw ∧
    odict_get "entry_points" kw
      = Some (PyDict [("console_scripts",
                       PyList ((λ '(binary_name, entry_point),
                                  PyStr (binary_name +:+ " = " +:+ entry_point))
                                 <$> entry_points))]).
Proof.
  intros graph entry_points.
  assert (provides (get_target graph "p:a") = Some (artifact "a" "1.0"))
    as Hprovides by reflexivity.
  assert ("entry_points" ∉ odict_keys (setup_py_keywords (artifact "a" "1.0")))
    as Hno by compute_done.
  assert (iter_entry_points (get_target graph) "p:a" = inr <$> entry_points)
    as Hentries by (vm_compute; reflexivity).
  assert (entry_points ≠ []) as Hne by done.
  split; [exact Hprovides|]. split; [exact Hno|].
  split; [exact Hentries|]. split; [exact Hne|].
  exact (console_scripts_in_declaration_order (get_target graph) elements
           "p:a" []
           (∅, ∅, []) (artifact "a" "1.0") entry_points
           Hprovides Hno Hentries Hne).
Defined.

Lemma binary_without_entry_point_raises_witness :
  let graph := with_binaries None in
  provides (get_target graph "p:a") = Some (artifact "a" "1.0") ∧
  ("entry_points" ∉ odict_keys (setup_py_keywords (artifact "a" "1.0"))) ∧
  ("serve", "p:serve") ∈ provided_binaries (get_target graph "p:a") ∧
  entry_point (get_target graph "p:serve") = None ∧
  write_setup (get_target graph) elements "p:a" [] (∅, ∅, [])
    = inl TargetDefinitionException.
Proof.
  intros graph.
  assert (provides (get_target graph "p:a") = Some (artifact "a" "1.0"))
    as Hprovides by reflexivity.
  assert ("entry_points" ∉ odict_keys (setup_py_keywords (artifact "a" "1.0")))
    as Hno by compute_done.
  assert (("serve", "p:serve") ∈ provided_binaries (get_target graph "p:a"))
    as Hin by compute_done.
  assert (entry_point (get_target graph "p:serve") = None) as Hbad
    by reflexivity.
  split; [exact Hprovides|]. split; [exact Hno|].
  split; [exact Hin|]. split; [exact Hbad|].
  exact (binary_without_entry_point_raises (get_target graph) elements
           "p:a" []
           (∅, ∅, []) (artifact "a" "1.0") "serve" "p:serve"
           Hprovides Hno Hin (or_intror Hbad)).
Defined.

Lemma packager_dists_are_archives_witness :
  let st := {| invoked := ["q:b"; "p:a"];
               python_dists := [("q:b", "dist/sdist.tar.gz")] |} in
  let sdist_name := λ setup_dir : string,
    if bool_decide (setup_dir ∈ ["dist/b-1.0"])
    then Some "sdist.tar.gz" else None in
  (@None string = None ∨ @None string = Some "") ∧
  run_packager ["dist/b-1.0"] ["p:a"; "q:b"] created_both
    = (st, Some PackagerFailed) ∧
  (Some PackagerFailed = None ∨ Some PackagerFailed = Some PackagerFailed) ∧
  ∀ t dist, odict_get t (python_dists st) = Some dist →
            ∃ setup_dir tgz_name,
              odict_get t created_both = Some setup_dir ∧
              sdist_name setup_dir = Some tgz_name ∧
              dist = os_path_join "dist" tgz_name.
Proof.
  intros st sdist_name.
  assert (@None string = None ∨ @None string = Some "") as Hopt
    by (left; reflexivity).
  assert (run_packager ["dist/b-1.0"] ["p:a"; "q:b"] created_both
          = (st, Some PackagerFailed)) as Hrun by (vm_compute; reflexivity).
  split; [exact Hopt|]. split; [exact Hrun|].
  exact (packager_dists_are_archives (λ _, ["p:a"; "q:b"]) None "dist"
           sdist_name (λ _ _, true) created_both st (Some PackagerFailed)
           Hopt Hrun).
Defined.

Lemma failure_stops_the_run_witness :
  let st := {| invoked := ["q:b"; "p:a"];
               python_dists := [("q:b", "dist/b-1.0")] |} in
  let succeeds := λ setup_dir : string,
    step_succeeds (Some "sdist upload") (λ _, Some "sdist.tar.gz")
                  (λ _ setup_dir, bool_decide (setup_dir ∈ ["dist/b-1.0"]))
                  setup_dir in
  run_with "sdist upload" ["dist/b-1.0"] ["p:a"; "q:b"] created_both
    = (st, Some InstallFailed) ∧
  ∃ before failed after setup_dir,
    reverse ["p:a"; "q:b"] = before ++ failed :: after ∧
    invoked st
      = filter (λ t, has_setup_dir created_both t = true) before ++ [failed] ∧
    odict_get failed created_both = Some setup_dir ∧ setup_dir ≠ "" ∧
    succeeds setup_dir = false ∧
    InstallFailed = InstallFailed ∧
    Forall (λ t, ∀ d, odict_get t created_both = Some d → d ≠ "" →
                      succeeds d = true) before ∧
    ∀ t, t ∈ odict_keys (python_dists st) ↔
         t ∈ before ∧ has_setup_dir created_both t = true.
Proof.
  intros st succeeds.
  assert (run_with "sdist upload" ["dist/b-1.0"] ["p:a"; "q:b"] created_both
          = (st, Some InstallFailed)) as Hrun by (vm_compute; reflexivity).
  split; [exact Hrun|].
  exact (failure_stops_the_run
           (λ _, ["p:a"; "q:b"]) (Some "sdist upload") "dist"
           (λ _, Some "sdist.tar.gz")
           (λ _ setup_dir, bool_decide (setup_dir ∈ ["dist/b-1.0"]))
           created_both st InstallFailed Hrun).
Defined.

Lemma dists_registered_for_the_invoked_witness :
  let st := {| invoked := ["q:b"; "p:a"];
               python_dists := [("q:b", "dist/b-1.0"); ("p:a", "dist/a-1.0")] |} in
  let succeeds := ["dist/b-1.0"; "dist/a-1.0"] in
  run_with "sdist upload" succeeds ["p:a"; "q:b"] created_both = (st, None) ∧
  invoked st = filter (λ t, has_setup_dir created_both t = true)
                      (reverse ["p:a"; "q:b"]) ∧
  (∀ t, t ∈ odict_keys (python_dists st) ↔ t ∈ invoked st) ∧
  ∀ t dist command,
    odict_get t (python_dists st) = Some dist →
    Some "sdist upload" = Some command → command ≠ "" →
    odict_get t created_both = Some dist ∧
    bool_decide (dist ∈ succeeds) = true.
Proof.
  intros st succeeds.
  assert (run_with "sdist upload" succeeds ["p:a"; "q:b"] created_both
          = (st, None)) as Hrun by (vm_compute; reflexivity).
  split; [exact Hrun|].
  exact (dists_registered_for_the_invoked
           (λ _, ["p:a"; "q:b"]) (Some "sdist upload") "dist"
           (λ _, Some "sdist.tar.gz")
           (λ _ setup_dir, bool_decide (setup_dir ∈ succeeds))
           created_both st Hrun).
Defined.

Lemma created_are_exported_witness :
  let created := [("p:a", "dist/p:a"); ("q:b", "dist/q:b")] in
  creation chain ["p:a"] true 3 = Some (inr created) ∧
  odict_get "q:b" created = Some "dist/q:b" ∧
  is_exported_python_target (get_target chain) (λ _, false) "q:b" = true ∧
  ∃ dependencies,
    create_setup_py_of chain "q:b" = inr ("dist/q:b", dependencies).
Proof.
  intros created.
  assert (creation chain ["p:a"] true 3 = Some (inr created)) as Hrun
    by (vm_compute; reflexivity).
  assert (odict_get "q:b" created = Some "dist/q:b") as Hget by reflexivity.
  split; [exact Hrun|]. split; [exact Hget|]. split.
  - exact (proj1 (created_are_exported (get_target chain) (λ _, None) ["p:a"]
                    (λ _, false) true (create_setup_py_of chain) 3 created
                    Hrun "q:b" "dist/q:b" Hget)).
  - exact (proj2 (created_are_exported (get_target chain) (λ _, None) ["p:a"]
                    (λ _, false) true (create_setup_py_of chain) 3 created
                    Hrun "q:b" "dist/q:b" Hget)).
Defined.

Lemma only_the_roots_without_recursive_witness :
  let created := [("p:a", "dist/p:a"); ("q:b", "dist/q:b")] in
  false = false ∧
  creation chain ["p:a"; "q:b"; "p:a"] false 3 = Some (inr created) ∧
  odict_keys created
  = exported_python_targets (get_target chain) ["p:a"; "q:b"; "p:a"]
                            (λ _, false).
Proof.
  intros created.
  assert (creation chain ["p:a"; "q:b"; "p:a"] false 3 = Some (inr created))
    as Hrun by (vm_compute; reflexivity).
  split; [reflexivity|]. split; [exact Hrun|].
  exact (only_the_roots_without_recursive (get_target chain) (λ _, None)
           ["p:a"; "q:b"; "p:a"] (λ _, false) false (create_setup_py_of chain)
           3 created eq_refl Hrun).
Defined.

Lemma recursive_creation_is_closed_witness :
  let created := [("p:a", "dist/p:a"); ("q:b", "dist/q:b")] in
  true = true ∧
  creation chain ["p:a"] true 3 = Some (inr created) ∧
  (∀ t, t ∈ exported_python_targets (get_target chain) ["p:a"] (λ _, false) →
        t ∈ odict_keys created) ∧
  ∀ t setup_dir dependencies dep,
    t ∈ odict_keys created →
    create_setup_py_of chain t = inr (setup_dir, dependencies) →
    dep ∈ dependencies →
    is_exported_python_target (get_target chain) (λ _, false) dep = true →
    dep ∈ odict_keys created.
Proof.
  intros created.
  assert (creation chain ["p:a"] true 3 = Some (inr created)) as Hrun
    by (vm_compute; reflexivity).
  split; [reflexivity|]. split; [exact Hrun|]. split.
  - exact (proj1 (recursive_creation_is_closed (get_target chain) (λ _, None)
                    ["p:a"] (λ _, false) true (create_setup_py_of chain)
                    3 created eq_refl Hrun)).
  - exact (proj2 (recursive_creation_is_closed (get_target chain) (λ _, None)
                    ["p:a"] (λ _, false) true (create_setup_py_of chain)
                    3 created eq_refl Hrun)).
Defined.

Lemma creation_phase_terminates_witness :
  creation_closed (get_target chain) (λ _, None) (λ _, false)
                  (create_setup_py_of chain) (addresses chain) ∧
  (∀ t, t ∈ ["p:a"] → t ∈ addresses chain) ∧
  size (addresses chain) < 3 ∧
  is_Some (creation chain ["p:a"] true 3).
Proof.
  assert (creation_closed (get_target chain) (λ _, None) (λ _, false)
                          (create_setup_py_of chain) (addresses chain))
    as Hclosed.
  { intros t Ht setup_dir dependencies Hcall.
    apply Forall_forall. intros dep Hdep Hexp.
    destruct (decide (dep ∈ addresses chain)) as [?|Hnot]; [done|].
    exfalso. revert Hexp.
    assert (is_exported_python_target (get_target chain) (λ _, false) dep
            = false) as ->; [|done].
    unfold is_exported_python_target, has_provides, is_python_target, get_target.
    destruct (odict_get dep chain) as [target|] eqn:Hget; [|done].
    exfalso. apply Hnot. apply elem_of_list_to_set.
    by eapply odict_get_keys. }
  assert (∀ t, t ∈ ["p:a"] → t ∈ addresses chain) as Hroots.
  { apply Forall_forall. compute_done. }
  assert (size (addresses chain) < 3) as Hsize by compute_done.
  split; [exact Hclosed|]. split; [exact Hroots|]. split; [exact Hsize|].
  exact (creation_phase_terminates (get_target chain) (λ _, None) ["p:a"]
           (λ _, false) true (create_setup_py_of chain) (addresses chain)
           Hclosed 3 Hroots Hsize).
Defined.
